(** * foundry-toolchain: cache-key lifecycle and gas-snapshot lifecycle

    A shallow embedding of [src/services/cache.ts] (key derivation,
    [restoreCache], [saveCache]) and [src/services/gas.ts] (parsing,
    comparison, bounded history, report), with the properties the
    specification states about them.

    Conventions of the embedding.
    - A JavaScript string is a [string]: a sequence of code units, taken
      below 256 (the Latin-1 range).  In that range the ECMAScript
      WhiteSpace and LineTerminator code points are TAB, LF, VT, FF, CR,
      SP and NBSP.
    - A JavaScript number is a primitive [float] (IEEE 754 binary64, one
      NaN), so [-], [/] and [*] are the operations the code performs.
    - [undefined] is [None]; an optional field is an [option].
    - A plain object used as a dictionary whose enumeration order matters
      is the list of its own properties in enumeration order; one whose
      own properties are only looked up is a [gmap].  Its prototype is
      [Object.prototype]: reading [o[name]] also finds the members of
      the prototype ([toString], [constructor], [__proto__], ...), and
      assigning [o["__proto__"]] on an object that has no such property
      of its own runs the prototype's setter.
    - Calls to [core.info], [core.debug] and [core.warning] only log;
      they are left out. *)

From Stdlib Require Import Floats ZArith Ascii Sorted Permutation Lia.
From stdpp Require Import gmap strings list.

Local Open Scope string_scope.

(** ** JavaScript strings and truthiness *)

Module JS.

Definition LF : ascii := "010"%char.
Definition CR : ascii := "013"%char.
Definition nl : string := String LF "".

(** ECMAScript WhiteSpace and LineTerminator code points below 256:
    what [String.prototype.trim] strips and the regular-expression
    class [\s] matches. *)
Definition isWhiteSpace (c : ascii) : bool :=
  let n := nat_of_ascii c in
  (n =? 9)%nat || (n =? 10)%nat || (n =? 11)%nat || (n =? 12)%nat
  || (n =? 13)%nat || (n =? 32)%nat || (n =? 160)%nat.

(** LineTerminator: what the regular-expression atom [.] refuses. *)
Definition isLineTerminator (c : ascii) : bool :=
  Ascii.eqb c LF || Ascii.eqb c CR.

(** The class [\d]. *)
Definition isDigit (c : ascii) : bool :=
  let n := nat_of_ascii c in (48 <=? n)%nat && (n <=? 57)%nat.

Fixpoint trimStart (s : string) : string :=
  match s with
  | String c s' => if isWhiteSpace c then trimStart s' else s
  | EmptyString => EmptyString
  end.

(** [trimEnd] keeps a character when it is not white space or when
    something is left after it. *)
Fixpoint trimEnd (s : string) : string :=
  match s with
  | String c s' =>
      match trimEnd s' with
      | EmptyString => if isWhiteSpace c then EmptyString else String c EmptyString
      | t => String c t
      end
  | EmptyString => EmptyString
  end.

(** [String.prototype.trim]. *)
Definition trim (s : string) : string := trimEnd (trimStart s).

(** [s.split(sep)] for a separator that matches exactly one code unit
    satisfying [p] (the string ['\n'], the class [[\r\n]]): the pieces
    between the separators, empty pieces kept, never the empty list. *)
Fixpoint split (p : ascii -> bool) (s : string) : list string :=
  match s with
  | EmptyString => [EmptyString]
  | String c s' =>
      if p c then EmptyString :: split p s'
      else match split p s' with
           | piece :: rest => String c piece :: rest
           | [] => [String c EmptyString]
           end
  end.

(** [Array.prototype.join]. *)
Fixpoint join (sep : string) (l : list string) : string :=
  match l with
  | [] => EmptyString
  | [x] => x
  | x :: rest => x +:+ sep +:+ join sep rest
  end.

(** A string operand of [!] or [||]: the empty string and [undefined]
    are falsy, every other string is truthy. *)
Definition truthy (o : option string) : option string :=
  match o with
  | Some EmptyString => None
  | Some s => Some s
  | None => None
  end.

Fixpoint forallChars (p : ascii -> bool) (s : string) : bool :=
  match s with
  | EmptyString => true
  | String c s' => p c && forallChars p s'
  end.

Definition isEmpty (s : string) : bool :=
  match s with EmptyString => true | _ => false end.

(** On the bit-level reading of a number: [0 < v], that is, [v] is a
    positive number or plus infinity. *)
Definition positiveSF (v : spec_float) : bool := SFltb (S754_zero false) v.

(** [s.startsWith(t)] and [s.endsWith(t)]: [t] begins [s]; some tail of
    [s] is [t]. *)
Definition startsWith (s t : string) : bool := String.prefix t s.

Fixpoint endsWith (s t : string) : bool :=
  String.eqb s t ||
  match s with
  | String _ s' => endsWith s' t
  | EmptyString => false
  end.

End JS.

(** ** src/types/index.ts and src/types/state.ts *)

Record CacheOptions := {
  enabled : bool;
  primaryKey : option string;
  restoreKeys : option (list string);
  paths : option (list string);
  compressionLevel : option float;
}.

Module CacheResult.
Record t := {
  primaryKey : string;
  matchedKey : option string;
  cacheHit : bool;
}.
End CacheResult.

(** [enum State]: the names under which the run state is kept. *)
Module State.
Definition CachePrimaryKey : string := "CACHE_KEY".
Definition CacheMatchedKey : string := "CACHE_RESULT".
Definition GasSnapshotKey : string := "GAS_SNAPSHOT".
End State.

(** ** src/services/cache.ts *)

Inductive CacheType := RPC | ARTIFACTS | GAS_SNAPSHOT.

(** The outcome of awaiting a promise inside [try]. *)
Inductive Outcome (A : Type) :=
  | Resolved (a : A)
  | Rejected.
Arguments Resolved {A} a.
Arguments Rejected {A}.

(** What the lifecycle reads and writes outside its arguments: the run
    state behind [core.saveState] and [core.getState], the paths for
    which [fs.existsSync] answers true, and the calls made to
    [@actions/cache] so far (most recent first). *)
Record World := {
  runState : gmap string string;
  existing : gset string;
  restoreCalls : list (list string * string * list string);
  saveCalls : list (list string * string);
}.

(** The collaborators of [cache.ts]: [@actions/cache] and the part of
    [fs] that creates directories.  A restore also unpacks files, so it
    answers with the paths that exist afterwards. *)
Record Collaborators := {
  cache_restoreCache :
    World -> list string -> string -> list string ->
    Outcome (option string) * gset string;
  cache_saveCache : World -> list string -> string -> Outcome Z;
  (** [fs.mkdirSync(p, {recursive: true})]: the paths that exist
      afterwards, or [None] when it throws. *)
  fs_mkdirSync : gset string -> string -> option (gset string);
}.

Module Cache.

Section WithEnvironment.

(** [os.platform()], [os.homedir()] and [github.context.sha]. *)
Variable PLATFORM : string.
Variable HOME : string.
Variable sha : string.
Variable env : Collaborators.

(** src/constants.ts *)
Definition CACHE_PREFIX : string := PLATFORM +:+ "-foundry-".
Definition RPC_CACHE_PREFIX : string := CACHE_PREFIX +:+ "chain-fork-".
Definition ARTIFACTS_CACHE_PREFIX : string := CACHE_PREFIX +:+ "artifacts-".
Definition GAS_SNAPSHOT_CACHE_PREFIX : string := CACHE_PREFIX +:+ "gas-snapshot-".

(** [path.join(HOME, rest)] for the three fixed relative paths. *)
Definition path_join (a b : string) : string := a +:+ "/" +:+ b.

Definition CACHE_PATHS_RPC : string := path_join HOME ".foundry/cache/rpc".
Definition CACHE_PATHS_ARTIFACTS : string := path_join HOME ".foundry/cache/artifacts".
Definition CACHE_PATHS_GAS_SNAPSHOTS : string := path_join HOME ".foundry/cache/gas-snapshots".

(** The [default] branches of the two [switch]es cannot be reached by a
    value of the enum. *)
Definition getCachePrefix (type : CacheType) : string :=
  match type with
  | RPC => RPC_CACHE_PREFIX
  | ARTIFACTS => ARTIFACTS_CACHE_PREFIX
  | GAS_SNAPSHOT => GAS_SNAPSHOT_CACHE_PREFIX
  end.

Definition getCachePaths (type : CacheType) : list string :=
  match type with
  | RPC => [CACHE_PATHS_RPC]
  | ARTIFACTS => [CACHE_PATHS_ARTIFACTS]
  | GAS_SNAPSHOT => [CACHE_PATHS_GAS_SNAPSHOTS]
  end.

Definition getPrimaryKey (customKeyInput : option string) (type : CacheType) : string :=
  let prefix := getCachePrefix type in
  match JS.truthy customKeyInput with
  | None => prefix +:+ sha
  | Some input => prefix +:+ JS.trim input
  end.

Definition getRestoreKeys (customRestoreKeysInput : option string) (type : CacheType)
  : list string :=
  let prefix := getCachePrefix type in
  let defaultRestoreKeys := [prefix] in
  match JS.truthy customRestoreKeysInput with
  | None => defaultRestoreKeys
  | Some input =>
      let restoreKeys :=
        map (fun input => prefix +:+ input)
          (List.filter (fun input => negb (JS.isEmpty input))
             (map JS.trim (JS.split JS.isLineTerminator input))) in
      restoreKeys ++ defaultRestoreKeys
  end.

(** [core.saveState] and [core.getState]; an unset name reads as the
    empty string. *)
Definition saveState (name value : string) (w : World) : World :=
  {| runState := <[name := value]> (runState w);
     existing := existing w;
     restoreCalls := restoreCalls w;
     saveCalls := saveCalls w |}.

Definition getState (name : string) (w : World) : string :=
  default EmptyString (runState w !! name).

(** src/utils/fs.ts *)
Definition fileExists (filePath : string) (w : World) : bool :=
  bool_decide (filePath ∈ existing w).

Definition ensureDirectoryExists (dirPath : string) (w : World) : bool * World :=
  if fileExists dirPath w then (true, w)
  else match fs_mkdirSync env (existing w) dirPath with
       | Some fs' =>
           (true, {| runState := runState w; existing := fs';
                     restoreCalls := restoreCalls w; saveCalls := saveCalls w |})
       | None => (false, w)
       end.

(** [cache.restoreCache(paths, primaryKey, restoreKeys)], awaited. *)
Definition callRestore (cachePaths : list string) (key : string) (keys : list string)
    (w : World) : Outcome (option string) * World :=
  let '(answer, fs') := cache_restoreCache env w cachePaths key keys in
  (answer, {| runState := runState w; existing := fs';
              restoreCalls := (cachePaths, key, keys) :: restoreCalls w;
              saveCalls := saveCalls w |}).

(** [cache.saveCache(paths, primaryKey)], awaited. *)
Definition callSave (cachePaths : list string) (key : string) (w : World)
  : Outcome Z * World :=
  (cache_saveCache env w cachePaths key,
   {| runState := runState w; existing := existing w;
      restoreCalls := restoreCalls w;
      saveCalls := (cachePaths, key) :: saveCalls w |}).

(** The paths a call works on: [options.paths || getCachePaths(type)]
    (an array, even an empty one, is truthy). *)
Definition resolvePaths (options : CacheOptions) (type : CacheType) : list string :=
  default (getCachePaths type) (paths options).

(** The part of [restoreCache] that runs before the store is asked: the
    primary key goes to the run state and every cache path is created. *)
Definition beforeRestore (options : CacheOptions) (type : CacheType) (w : World)
  : World :=
  let primaryKey := getPrimaryKey (primaryKey options) type in
  let w := saveState State.CachePrimaryKey primaryKey w in
  fold_left (fun w cachePath => snd (ensureDirectoryExists cachePath w))
    (resolvePaths options type) w.

Definition restoreCache (options : CacheOptions) (type : CacheType) (w : World)
  : CacheResult.t * World :=
  if negb (enabled options) then
    ({| CacheResult.primaryKey := ""; CacheResult.matchedKey := None; CacheResult.cacheHit := false |}, w)
  else
    let primaryKey := getPrimaryKey (primaryKey options) type in
    let restoreKeys := getRestoreKeys (JS.join JS.nl <$> restoreKeys options) type in
    let cachePaths := resolvePaths options type in
    let w := beforeRestore options type w in
    match callRestore cachePaths primaryKey restoreKeys w with
    | (Resolved matchedKey, w) =>
        match JS.truthy matchedKey with
        | None =>
            ({| CacheResult.primaryKey := primaryKey; CacheResult.matchedKey := None;
                CacheResult.cacheHit := false |}, w)
        | Some matchedKey =>
            let w := saveState State.CacheMatchedKey matchedKey w in
            ({| CacheResult.primaryKey := primaryKey; CacheResult.matchedKey := Some matchedKey;
                CacheResult.cacheHit := true |}, w)
        end
    | (Rejected, w) =>
        ({| CacheResult.primaryKey := primaryKey; CacheResult.matchedKey := None;
            CacheResult.cacheHit := false |}, w)
    end.

(** [core.getState(State.CachePrimaryKey) || getPrimaryKey(...)] *)
Definition savedPrimaryKey (options : CacheOptions) (type : CacheType) (w : World)
  : string :=
  if JS.isEmpty (getState State.CachePrimaryKey w)
  then getPrimaryKey (primaryKey options) type
  else getState State.CachePrimaryKey w.

Definition saveCache (options : CacheOptions) (type : CacheType) (w : World)
  : bool * World :=
  if negb (enabled options) then (false, w)
  else
    let primaryKey := savedPrimaryKey options type w in
    let matchedKey := getState State.CacheMatchedKey w in
    let cachePaths := resolvePaths options type in
    let allPathsExist := forallb (fun cachePath => fileExists cachePath w) cachePaths in
    if negb allPathsExist then (false, w)
    else if JS.isEmpty primaryKey then (false, w)
    else if String.eqb primaryKey matchedKey then (false, w)
    else
      match callSave cachePaths primaryKey w with
      | (Resolved cacheId, w) => if (cacheId =? -1)%Z then (false, w) else (true, w)
      | (Rejected, w) => (false, w)
      end.

(** The wrappers per cache type. *)
Definition restoreRPCCache (options : CacheOptions) := restoreCache options RPC.
Definition saveRPCCache (options : CacheOptions) := saveCache options RPC.
Definition restoreArtifactsCache (options : CacheOptions) := restoreCache options ARTIFACTS.
Definition saveArtifactsCache (options : CacheOptions) := saveCache options ARTIFACTS.
Definition restoreGasSnapshotCache (options : CacheOptions) :=
  restoreCache options GAS_SNAPSHOT.
Definition saveGasSnapshotCache (options : CacheOptions) := saveCache options GAS_SNAPSHOT.

End WithEnvironment.

End Cache.

(** ** src/types/index.ts: the gas snapshot *)

Record Comparison := {
  previous : option float;
  change : option float;
  changePercentage : option float;
}.

Record TestResult := {
  gasUsed : float;
  comparison : option Comparison;
}.

(** An object used as a dictionary, as the list of its own properties in
    enumeration order.  A real object has no repeated name. *)
Definition keys {A : Type} (o : list (string * A)) : list string := map fst o.

Fixpoint obj_get {A : Type} (name : string) (o : list (string * A)) : option A :=
  match o with
  | [] => None
  | (k, v) :: rest => if String.eqb k name then Some v else obj_get name rest
  end.

(** [o[name] = v]: an existing property keeps its place, a new one goes
    last. *)
Fixpoint obj_set {A : Type} (name : string) (v : A) (o : list (string * A))
  : list (string * A) :=
  match o with
  | [] => [(name, v)]
  | (k, x) :: rest =>
      if String.eqb k name then (k, v) :: rest else (k, x) :: obj_set name v rest
  end.

(** The names every plain object inherits from [Object.prototype]. *)
Definition objectPrototypeNames : list string :=
  ["constructor"; "__defineGetter__"; "__defineSetter__"; "hasOwnProperty";
   "__lookupGetter__"; "__lookupSetter__"; "isPrototypeOf"; "propertyIsEnumerable";
   "toString"; "valueOf"; "__proto__"; "toLocaleString"].

Definition inheritedName (name : string) : bool :=
  existsb (String.eqb name) objectPrototypeNames.

(** What the expression [o[name]] finds on a plain object: a property
    of its own; else a member of [Object.prototype], which is a function
    or, under [__proto__], the prototype itself; else [undefined]. *)
Inductive Property (A : Type) :=
  | Own (v : A)
  | Inherited
  | Missing.
Arguments Own {A} v.
Arguments Inherited {A}.
Arguments Missing {A}.

Definition obj_read {A : Type} (name : string) (o : list (string * A)) : Property A :=
  match obj_get name o with
  | Some v => Own v
  | None => if inheritedName name then Inherited else Missing
  end.

Record GasSnapshot := {
  timestamp : string;
  commitSha : string;
  testResults : list (string * TestResult);
}.

(** ** JSON values

    What [JSON.parse] gives and [JSON.stringify] takes.  An object is
    the list of its properties; a property whose value is [undefined]
    is left out, as [JSON.stringify] leaves it out. *)
#[warnings="-register-all"]
Inductive Json :=
  | JNull
  | JBool (b : bool)
  | JNumber (x : float)
  | JString (s : string)
  | JArray (items : list Json)
  | JObject (props : list (string * Json)).

Module JSON.

(** A number as it is read back after it was written: [JSON.stringify]
    writes NaN and the infinities as [null] and minus zero as [0]. *)
Definition storedNumber (x : float) : Json :=
  if is_nan x || is_infinity x then JNull
  else if is_zero x then JNumber 0%float
  else JNumber x.

(** [JSON.parse(JSON.stringify(v))]. *)
Fixpoint stored (v : Json) : Json :=
  match v with
  | JNumber x => storedNumber x
  | JArray items => JArray (map stored items)
  | JObject props => JObject (map (fun prop => (fst prop, stored (snd prop))) props)
  | _ => v
  end.

(** The values [||] skips: [null], [false], a zero, NaN and the empty
    string. *)
Definition falsy (v : Json) : bool :=
  match v with
  | JNull => true
  | JBool b => negb b
  | JNumber x => is_nan x || is_zero x
  | JString s => JS.isEmpty s
  | JArray _ | JObject _ => false
  end.

End JSON.

(** ** src/services/gas.ts *)

Module Gas.

Local Open Scope float_scope.

(** The Number nearest to an integer (ties to even), as [parseInt] gives
    it for a run of decimal digits and as a count prints. *)
Definition numberOfZ (z : Z) : float :=
  SF2Prim (binary_normalize prec emax z 0 false).

Definition digitValue (c : ascii) : Z := (Z.of_nat (nat_of_ascii c) - 48)%Z.

Fixpoint digitsValue (acc : Z) (digits : string) : Z :=
  match digits with
  | EmptyString => acc
  | String c rest => digitsValue (acc * 10 + digitValue c)%Z rest
  end.

(** [parseInt(digits, 10)] on a non-empty run of decimal digits, which is
    all the pattern below lets through. *)
Definition parseInt10 (digits : string) : float := numberOfZ (digitsValue 0 digits).

(** *** The pattern [/^(.*?)\s+\(gas:\s+(\d+)\)/]

    A backtracking matcher in continuation style: each combinator gets
    the rest of the pattern as [k] and gives the first match in the
    order the ECMAScript matcher tries them. *)
Section Matcher.

Context {R : Type}.

(** [c*?], capturing: the shortest run first. *)
Fixpoint lazyStar (p : ascii -> bool) (k : string -> string -> option R)
    (seen s : string) {struct s} : option R :=
  match k seen s with
  | Some r => Some r
  | None =>
      match s with
      | String c s' => if p c then lazyStar p k (seen +:+ String c "") s' else None
      | EmptyString => None
      end
  end.

(** [c*], capturing: the longest run first. *)
Fixpoint greedyStar (p : ascii -> bool) (k : string -> string -> option R)
    (seen s : string) {struct s} : option R :=
  match s with
  | String c s' =>
      if p c then
        match greedyStar p k (seen +:+ String c "") s' with
        | Some r => Some r
        | None => k seen s
        end
      else k seen s
  | EmptyString => k seen s
  end.

(** [c+], capturing. *)
Definition greedyPlus (p : ascii -> bool) (k : string -> string -> option R)
    (s : string) : option R :=
  match s with
  | String c s' => if p c then greedyStar p k (String c "") s' else None
  | EmptyString => None
  end.

Fixpoint stripPrefix (t s : string) : option string :=
  match t, s with
  | EmptyString, _ => Some s
  | String a t', String b s' => if Ascii.eqb a b then stripPrefix t' s' else None
  | String _ _, EmptyString => None
  end.

(** A literal piece of the pattern. *)
Definition literal (t : string) (k : string -> option R) (s : string) : option R :=
  match stripPrefix t s with
  | Some rest => k rest
  | None => None
  end.

End Matcher.

(** [line.match(...)]: the two captures [(testName, gasUsed)].  The
    pattern is anchored by [^] and has no flag, so only a match at the
    start counts. *)
Definition matchSnapshotLine (line : string) : option (string * string) :=
  lazyStar (fun c => negb (JS.isLineTerminator c))
    (fun testName =>
       greedyPlus JS.isWhiteSpace (fun _ =>
         literal "(gas:" (
           greedyPlus JS.isWhiteSpace (fun _ =>
             greedyPlus JS.isDigit (fun gasUsed =>
               literal ")" (fun _ => Some (testName, gasUsed)))))))
    "" line.

(** The shape of a snapshot line in the words of the specification: a
    name, white space, the literal [(gas:], white space, an integer and
    [)], whatever follows. *)
Definition SnapshotLine (testName gasUsed line : string) : Prop :=
  exists ws1 ws2 rest,
    line = testName +:+ ws1 +:+ "(gas:" +:+ ws2 +:+ gasUsed +:+ ")" +:+ rest
    /\ JS.forallChars (fun c => negb (JS.isLineTerminator c)) testName = true
    /\ ws1 <> EmptyString /\ JS.forallChars JS.isWhiteSpace ws1 = true
    /\ ws2 <> EmptyString /\ JS.forallChars JS.isWhiteSpace ws2 = true
    /\ gasUsed <> EmptyString /\ JS.forallChars JS.isDigit gasUsed = true.

(** One turn of the loop over the lines.  [result] starts as [{}], so
    the assignment [result["__proto__"] = n] runs the setter of
    [Object.prototype], which ignores a number: no property is made.
    Under every other name the assignment makes or overwrites a property
    of [result]. *)
Definition parseLine (result : gmap string float) (line : string) : gmap string float :=
  match matchSnapshotLine line with
  | Some (testName, gasUsed) =>
      let name := JS.trim testName in
      if String.eqb name "__proto__" then result
      else <[name := parseInt10 gasUsed]> result
  | None => result
  end.

Definition parseLines (lines : list string) : gmap string float :=
  fold_left parseLine lines ∅.

(** Nothing in the [try] block can throw, so the [catch] branch is never
    taken. *)
Definition parseGasSnapshot (snapshotOutput : string) : gmap string float :=
  parseLines (JS.split (Ascii.eqb JS.LF) snapshotOutput).

(** The comparison attached to [current] when the previous snapshot has
    an entry of the same name. *)
Definition withComparison (current previous : TestResult) : TestResult :=
  let change := gasUsed current - gasUsed previous in
  let changePercentage := (change / gasUsed previous) * 100 in
  {| gasUsed := gasUsed current;
     comparison := Some {| previous := Some (gasUsed previous);
                           change := Some change;
                           changePercentage := Some changePercentage |} |}.

(** The comparison attached to [current] when [previous] is a member
    of [Object.prototype]: it is truthy and has no [gasUsed], so the
    subtraction and the division are on [undefined] and give NaN. *)
Definition withInherited (current : TestResult) : TestResult :=
  {| gasUsed := gasUsed current;
     comparison := Some {| previous := None;
                           change := Some nan;
                           changePercentage := Some nan |} |}.

(** One turn of the loop over [Object.entries(result.testResults)].
    [previousSnapshot.testResults[testName]] is read through the
    prototype; an entry of the previous snapshot is an object, so it is
    truthy.  [testName] is a property of [result.testResults] itself,
    so the assignment writes that property. *)
Definition compareStep (previousSnapshot : GasSnapshot)
    (results : list (string * TestResult)) (entry : string * TestResult)
  : list (string * TestResult) :=
  let '(testName, current) := entry in
  match obj_read testName (testResults previousSnapshot) with
  | Own previous => obj_set testName (withComparison current previous) results
  | Inherited => obj_set testName (withInherited current) results
  | Missing => results
  end.

Definition compareGasSnapshots (currentSnapshot previousSnapshot : GasSnapshot)
  : GasSnapshot :=
  let copy := testResults currentSnapshot in
  {| timestamp := timestamp currentSnapshot;
     commitSha := commitSha currentSnapshot;
     testResults := fold_left (compareStep previousSnapshot) copy copy |}.

(** *** History

    The history file is read through [readJsonFile]: [undefined] when
    there is no file or it does not hold JSON, the parsed value
    otherwise. *)
Inductive StoredJson :=
  | Unreadable
  | Parsed (value : Json).

Definition optionalNumber (name : string) (x : option float) : list (string * Json) :=
  match x with
  | Some v => [(name, JNumber v)]
  | None => []
  end.

Definition comparisonToJson (c : Comparison) : Json :=
  JObject (optionalNumber "previous" (previous c)
           ++ optionalNumber "change" (change c)
           ++ optionalNumber "changePercentage" (changePercentage c)).

Definition testResultToJson (entry : TestResult) : Json :=
  JObject (("gasUsed", JNumber (gasUsed entry))
           :: match comparison entry with
              | Some c => [("comparison", comparisonToJson c)]
              | None => []
              end).

(** A snapshot as a value in memory, property by property. *)
Definition toJson (snapshot : GasSnapshot) : Json :=
  JObject [("timestamp", JString (timestamp snapshot));
           ("commitSha", JString (commitSha snapshot));
           ("testResults",
            JObject (map (fun prop => (fst prop, testResultToJson (snd prop)))
                       (testResults snapshot)))].

(** [a.slice(-n)]: from index [max (length - n) 0] to the end. *)
Definition slice_last {A : Type} (n : nat) (a : list A) : list A :=
  drop (length a - n) a.

(** [history.push(snapshot)] followed by [history.slice(-100)]. *)
Definition appendHistory {A : Type} (history : list A) (snapshot : A) : list A :=
  let history := (history ++ [snapshot])%list in
  slice_last 100 history.

(** [readJsonFile(historyFilePath) || []], as far as [push] can be
    called on it: an array, or the empty array for [undefined] and for a
    falsy value.  On any other value [history.push] is not a function
    and the call throws. *)
Definition loadHistory (stored : StoredJson) : option (list Json) :=
  match stored with
  | Unreadable => Some []
  | Parsed value =>
      if JSON.falsy value then Some []
      else match value with
           | JArray history => Some history
           | _ => None
           end
  end.

(** [writeSucceeds] says whether [writeJsonFile] manages to write.  The
    answer is the returned boolean and what the file holds afterwards,
    read through [JSON.parse]. *)
Definition addGasSnapshotToHistory (snapshot : GasSnapshot) (stored : StoredJson)
    (writeSucceeds : bool) : bool * StoredJson :=
  match loadHistory stored with
  | None => (false, stored)
  | Some history =>
      let limitedHistory := appendHistory history (toJson snapshot) in
      if writeSucceeds then (true, Parsed (JSON.stored (JArray limitedHistory)))
      else (false, stored)
  end.

(** *** Report *)

Definition GAS_SNAPSHOT_COMPARISON_THRESHOLD : float := 5.

(** [x || 0] on an optional number: [undefined], [NaN] and both zeros
    give [0]. *)
Definition orZero (x : option float) : float :=
  match x with
  | Some v => if is_nan v || is_zero v then 0 else v
  | None => 0
  end.

(** [Array.prototype.sort] with a comparator: [b] goes before [a] exactly
    when [cmp a b > 0]; a comparator result that is [NaN] counts as [0].
    The sort is stable, so for a consistent comparator the result is the
    one of a stable insertion sort. *)
Fixpoint sortInsert {A : Type} (cmp : A -> A -> float) (a : A) (l : list A) : list A :=
  match l with
  | [] => [a]
  | b :: rest => if 0 <? cmp a b then b :: sortInsert cmp a rest else a :: l
  end.

Definition sort {A : Type} (cmp : A -> A -> float) (l : list A) : list A :=
  fold_right (sortInsert cmp) [] l.

(** [testResults[testName].comparison]; the names come from
    [Object.keys(testResults)], so the entry is there. *)
Definition comparisonOf (results : list (string * TestResult)) (testName : string)
  : option Comparison :=
  match obj_get testName results with
  | Some entry => comparison entry
  | None => None
  end.

(** [testResults[name].comparison?.changePercentage || 0] *)
Definition changePercentageOrZero (results : list (string * TestResult))
    (testName : string) : float :=
  orZero (match comparisonOf results testName with
          | Some c => changePercentage c
          | None => None
          end).

(** [testResults[name].comparison?.change || 0] *)
Definition changeOrZero (results : list (string * TestResult)) (testName : string)
  : float :=
  orZero (match comparisonOf results testName with
          | Some c => change c
          | None => None
          end).

Definition testsWithComparison (results : list (string * TestResult)) : list string :=
  List.filter (fun testName => bool_decide (comparisonOf results testName <> None))
    (keys results).

Definition sortedTests (results : list (string * TestResult)) : list string :=
  sort (fun a b => changePercentageOrZero results b - changePercentageOrZero results a)
    (testsWithComparison results).

(** The two markers, byte for byte as the source file has them. *)
Definition RED : string := " ðŸ”´".
Definition GREEN : string := " ðŸŸ¢".

(** The emoji put after the percentage of a row, empty for a change that
    is not significant. *)
Definition indicator (change changePercentage : float) : string :=
  let isSignificant := GAS_SNAPSHOT_COMPARISON_THRESHOLD <=? abs changePercentage in
  if isSignificant then (if 0 <? change then RED else GREEN) else "".

Definition NO_DATA : string := "No gas snapshot data available.".
Definition NO_COMPARISON : string := "No comparison data available for gas snapshot.".

Definition REPORT_HEADER : string :=
  "## Gas Snapshot Comparison" +:+ JS.nl +:+ JS.nl +:+
  "| Test | Current Gas | Previous Gas | Change | % Change |" +:+ JS.nl +:+
  "|------|-------------|--------------|--------|----------|" +:+ JS.nl.

Section Rendering.

(** Number-to-string conversions of the language: the one a template
    literal applies, and [Number.prototype.toFixed(2)]. *)
Variable numberToString : float -> string.
Variable toFixed2 : float -> string.

Definition optionalToString (x : option float) : string :=
  match x with
  | Some v => numberToString v
  | None => "undefined"
  end.

(** The row of one sorted test; nothing when it has no comparison
    ([continue]). *)
Definition reportRow (results : list (string * TestResult)) (testName : string)
  : string :=
  match obj_get testName results with
  | Some {| gasUsed := gasUsed; comparison := Some c |} =>
      let change := default 0 (change c) in
      let changePercentage := default 0 (changePercentage c) in
      let changeFormatted :=
        if 0 <? change then "+" +:+ numberToString change else numberToString change in
      let percentFormatted := toFixed2 changePercentage in
      "| " +:+ testName +:+ " | " +:+ numberToString gasUsed +:+ " | " +:+
      optionalToString (previous c) +:+ " | " +:+ changeFormatted +:+ " | " +:+
      percentFormatted +:+ "%" +:+ indicator change changePercentage +:+ " |" +:+ JS.nl
  | _ => ""
  end.

Definition countWhere (f : string -> bool) (l : list string) : string :=
  numberToString (numberOfZ (Z.of_nat (length (List.filter f l)))).

Definition reportSummary (results : list (string * TestResult)) (sorted : list string)
  : string :=
  let increases := countWhere (fun t => 0 <? changeOrZero results t) sorted in
  let decreases := countWhere (fun t => changeOrZero results t <? 0) sorted in
  let unchanged := countWhere (fun t => changeOrZero results t =? 0) sorted in
  JS.nl +:+ "### Summary" +:+ JS.nl +:+ JS.nl +:+
  "- ðŸ”´ Gas increases: " +:+ increases +:+ JS.nl +:+
  "- ðŸŸ¢ Gas decreases: " +:+ decreases +:+ JS.nl +:+
  "- âšª Unchanged: " +:+ unchanged +:+ JS.nl +:+
  "- Total tests compared: " +:+ countWhere (fun _ => true) sorted +:+ JS.nl.

Definition generateGasReport (snapshot : GasSnapshot) : string :=
  let results := testResults snapshot in
  let testNames := keys results in
  if (length testNames =? 0)%nat then NO_DATA
  else if (length (testsWithComparison results) =? 0)%nat then NO_COMPARISON
  else
    let sorted := sortedTests results in
    let report :=
      fold_left (fun report testName => report +:+ reportRow results testName)
        sorted REPORT_HEADER in
    report +:+ reportSummary results sorted.

End Rendering.

End Gas.

(** ** The same comparison on the heap

    [compareGasSnapshots] works on references.  Here the snapshots, the
    dictionaries, the entries and the comparisons are objects of a
    heap, [{...o}] allocates, and [result.testResults[testName] = ...]
    writes a property of the object it is given. *)

Module Heap.

Local Open Scope float_scope.

Abbreviation loc := positive.

Inductive object :=
  | SnapshotObj (timestamp commitSha : string) (testResults : loc)
  | ResultsObj (props : list (string * loc))
  | EntryObj (gasUsed : float) (comparison : option loc)
  | ComparisonObj (previous change changePercentage : option float).

Abbreviation heap := (gmap loc object).

(** A new object gets an address that is not in use. *)
Definition alloc (o : object) (h : heap) : loc * heap :=
  let l := fresh (dom h) in (l, <[l := o]> h).

(** One turn of the loop, [results] being the address of
    [result.testResults] and [entry] a pair of [Object.entries].  The
    members of [Object.prototype] are not objects of this heap; one of
    them found as [previous] has no [gasUsed].  [None] stands for a
    [TypeError] on a heap that does not have the shape the types
    promise. *)
Definition compareStep (previousSnapshot results : loc) (state : option heap)
    (entry : string * loc) : option heap :=
  h ← state;
  let '(testName, current) := entry in
  match h !! previousSnapshot with
  | Some (SnapshotObj _ _ previousResults) =>
      match h !! previousResults with
      | Some (ResultsObj previousProps) =>
          match obj_read testName previousProps with
          | Own previous =>
              match h !! current, h !! previous with
              | Some (EntryObj currentGas _), Some (EntryObj previousGas _) =>
                  let change := currentGas - previousGas in
                  let changePercentage := (change / previousGas) * 100 in
                  let '(c, h) :=
                    alloc (ComparisonObj (Some previousGas) (Some change)
                             (Some changePercentage)) h in
                  let '(e, h) := alloc (EntryObj currentGas (Some c)) h in
                  match h !! results with
                  | Some (ResultsObj props) =>
                      Some (<[results := ResultsObj (obj_set testName e props)]> h)
                  | _ => None
                  end
              | _, _ => None
              end
          | Inherited =>
              match h !! current with
              | Some (EntryObj currentGas _) =>
                  let '(c, h) := alloc (ComparisonObj None (Some nan) (Some nan)) h in
                  let '(e, h) := alloc (EntryObj currentGas (Some c)) h in
                  match h !! results with
                  | Some (ResultsObj props) =>
                      Some (<[results := ResultsObj (obj_set testName e props)]> h)
                  | _ => None
                  end
              | _ => None
              end
          | Missing => Some h
          end
      | _ => None
      end
  | _ => None
  end.

Definition compareGasSnapshots (currentSnapshot previousSnapshot : loc) (h : heap)
  : option (loc * heap) :=
  match h !! currentSnapshot with
  | Some (SnapshotObj timestamp commitSha currentResults) =>
      match h !! currentResults with
      | Some (ResultsObj props) =>
          let '(results, h) := alloc (ResultsObj props) h in
          let '(result, h) := alloc (SnapshotObj timestamp commitSha results) h in
          h ← fold_left (compareStep previousSnapshot results) props (Some h);
          Some (result, h)
      | _ => None
      end
  | _ => None
  end.

(** The value a reference stands for. *)
Definition readComparison (h : heap) (l : loc) : option Comparison :=
  match h !! l with
  | Some (ComparisonObj p c cp) =>
      Some {| previous := p; change := c; changePercentage := cp |}
  | _ => None
  end.

Definition readEntry (h : heap) (l : loc) : option TestResult :=
  match h !! l with
  | Some (EntryObj g None) => Some {| gasUsed := g; comparison := None |}
  | Some (EntryObj g (Some lc)) =>
      c ← readComparison h lc; Some {| gasUsed := g; comparison := Some c |}
  | _ => None
  end.

Fixpoint readProps (h : heap) (props : list (string * loc))
  : option (list (string * TestResult)) :=
  match props with
  | [] => Some []
  | (name, l) :: rest =>
      e ← readEntry h l; es ← readProps h rest; Some ((name, e) :: es)
  end.

Definition readSnapshot (h : heap) (l : loc) : option GasSnapshot :=
  match h !! l with
  | Some (SnapshotObj timestamp commitSha results) =>
      match h !! results with
      | Some (ResultsObj props) =>
          entries ← readProps h props;
          Some {| timestamp := timestamp; commitSha := commitSha;
                  testResults := entries |}
      | _ => None
      end
  | _ => None
  end.

(** Two ways a later heap relates to an earlier one. *)

(** [h'] has every object of [h], except perhaps at [r]. *)
Definition extendsExcept (r : positive) (h h' : gmap positive object) : Prop :=
  forall l o, l <> r -> h !! l = Some o -> h' !! l = Some o.

(** [h'] has every entry and comparison object of [h]. *)
Definition keepsValues (h h' : gmap positive object) : Prop :=
  forall l o, h !! l = Some o ->
    match o with
    | EntryObj _ _ | ComparisonObj _ _ _ => h' !! l = Some o
    | _ => True
    end.

End Heap.

(** ** src/utils/platform.ts *)

Module Platform.

Definition isLowerHex (c : ascii) : bool :=
  let n := nat_of_ascii c in
  JS.isDigit c || ((97 <=? n)%nat && (n <=? 102)%nat).

(** Whether [/^nightly-[0-9a-f]{40}$/] matches.  The pattern has no
    flag, so [^] and [$] are the two ends of the string. *)
Definition isNightlyBuild (version : string) : bool :=
  match Gas.stripPrefix "nightly-" version with
  | Some hash => (String.length hash =? 40)%nat && JS.forallChars isLowerHex hash
  | None => false
  end.

(** [version.replace(pattern, 'nightly')]: a match is the whole string. *)
Definition normalizeVersionName (version : string) : string :=
  if isNightlyBuild version then "nightly" else version.

(** What [mappings[arch] || arch] gives: a string, or the member of
    [Object.prototype] that the lookup finds under an inherited name
    (it is truthy, so it is returned as it is). *)
Inductive MappedArch :=
  | Arch (name : string)
  | Member (name : string).

Definition mapArch (arch : string) : MappedArch :=
  if String.eqb arch "x32" then Arch "386"
  else if String.eqb arch "x64" then Arch "amd64"
  else if inheritedName arch then Member arch
  else Arch arch.

Record DownloadOptions := {
  url : string;
  binPath : option string;
  version : string;
  platform : string;
  architecture : MappedArch;
}.

Section WithOs.

(** [os.platform()] and [os.arch()]. *)
Variable os_platform : string.
Variable os_arch : string.
(** The text a template literal makes of a member of
    [Object.prototype], by the name of the member. *)
Variable memberToString : string -> string.

Definition archToString (mapped : MappedArch) : string :=
  match mapped with
  | Arch name => name
  | Member name => memberToString name
  end.

Definition getDownloadObject (version : string) : DownloadOptions :=
  let mappedArch := mapArch os_arch in
  let normalizedVersion := normalizeVersionName version in
  let filename :=
    "foundry_" +:+ normalizedVersion +:+ "_" +:+ os_platform +:+ "_"
    +:+ archToString mappedArch in
  let extension := if String.eqb os_platform "win32" then "zip" else "tar.gz" in
  let url :=
    "https://github.com/foundry-rs/foundry/releases/download/" +:+ version +:+ "/"
    +:+ filename +:+ "." +:+ extension in
  {| url := url; binPath := Some "."; version := version; platform := os_platform;
     architecture := mappedArch |}.

End WithOs.

End Platform.

(** ** src/services/download.ts *)

Module Download.

Record DownloadResult := { binPath : string }.

(** [@actions/tool-cache]: each call resolves to a path or rejects. *)
Record ToolCache := {
  downloadTool : string -> Outcome string;
  extractZip : string -> Outcome string;
  extractTar : string -> Outcome string;
}.

Section WithOs.

Variable os_platform : string.
Variable os_arch : string.
Variable memberToString : string -> string.
Variable toolCache : ToolCache.
(** [path.join] of Node. *)
Variable path_join : string -> string -> string.

(** Every failure inside the [try] is thrown again, so the result is the
    download result or a rejection. *)
Definition downloadFoundry (version : string) : Outcome DownloadResult :=
  let download := Platform.getDownloadObject os_platform os_arch memberToString version in
  match downloadTool toolCache (Platform.url download) with
  | Resolved pathToArchive =>
      let extract :=
        if JS.endsWith (Platform.url download) ".zip"
        then extractZip toolCache else extractTar toolCache in
      match extract pathToArchive with
      | Resolved pathToCLI =>
          Resolved
            {| binPath :=
                 path_join pathToCLI
                   (default "." (JS.truthy (Platform.binPath download))) |}
      | Rejected => Rejected
      end
  | Rejected => Rejected
  end.

End WithOs.

End Download.

(** ** src/index.ts and src/post.ts: the cache steps of the action *)

Module Index.

Section WithEnvironment.

Variable PLATFORM : string.
Variable HOME : string.
Variable sha : string.
Variable env : Collaborators.

(** The options [main] builds from the inputs [cache], [cache-key] and
    [cache-restore-keys]; an input that is not set reads as the empty
    string. *)
Definition cacheOptions (cacheEnabled : bool) (cacheKey cacheRestoreKeys : string)
  : CacheOptions :=
  {| enabled := cacheEnabled;
     primaryKey := Some cacheKey;
     restoreKeys :=
       if JS.isEmpty cacheRestoreKeys then None
       else Some (JS.split (Ascii.eqb JS.LF) cacheRestoreKeys);
     paths := None;
     compressionLevel := None |}.

(** The block "Restore caches if enabled" of [main], reached once the
    download has succeeded.  None of the three calls can throw. *)
Definition restoreCaches (cacheEnabled : bool) (cacheKey cacheRestoreKeys : string)
    (gasSnapshotEnabled : bool) (w : World) : World :=
  let cacheOptions := cacheOptions cacheEnabled cacheKey cacheRestoreKeys in
  if cacheEnabled then
    let w := snd (Cache.restoreRPCCache PLATFORM HOME sha env cacheOptions w) in
    let w := snd (Cache.restoreArtifactsCache PLATFORM HOME sha env cacheOptions w) in
    if gasSnapshotEnabled
    then snd (Cache.restoreGasSnapshotCache PLATFORM HOME sha env cacheOptions w)
    else w
  else w.

End WithEnvironment.

(** The cache type [main] restores last. *)
Definition lastRestored (gasSnapshotEnabled : bool) : CacheType :=
  if gasSnapshotEnabled then GAS_SNAPSHOT else ARTIFACTS.

End Index.

Module Post.

Section WithEnvironment.

Variable PLATFORM : string.
Variable HOME : string.
Variable sha : string.
Variable env : Collaborators.

Definition cacheOptions (cacheEnabled : bool) (cacheKey : string) : CacheOptions :=
  {| enabled := cacheEnabled; primaryKey := Some cacheKey; restoreKeys := None;
     paths := None; compressionLevel := None |}.

(** [run(earlyExit)].  The two boolean inputs are given as read by
    [core.getBooleanInput], [None] when it throws.  The answer is the
    code [process.exit] is called with, if it is called. *)
Definition run (earlyExit : bool) (cache : option bool) (cacheKey : string)
    (gasSnapshot : option bool) (w : World) : option Z * World :=
  match cache, gasSnapshot with
  | Some cacheEnabled, Some gasSnapshotEnabled =>
      let cacheOptions := cacheOptions cacheEnabled cacheKey in
      let w :=
        if cacheEnabled then
          let w := snd (Cache.saveRPCCache PLATFORM HOME sha env cacheOptions w) in
          let w := snd (Cache.saveArtifactsCache PLATFORM HOME sha env cacheOptions w) in
          if gasSnapshotEnabled
          then snd (Cache.saveGasSnapshotCache PLATFORM HOME sha env cacheOptions w)
          else w
        else w in
      (if earlyExit then Some 0%Z else None, w)
  | _, _ => (if earlyExit then Some 1%Z else None, w)
  end.

(** [w'] is [w] after at most [n] more saves with the options
    [options], each under the key the run state of [w] gives. *)
Definition savedUpTo (n : nat) (options : CacheOptions) (w w' : World) : Prop :=
  runState w' = runState w
  /\ existing w' = existing w
  /\ restoreCalls w' = restoreCalls w
  /\ exists calls,
       saveCalls w' = (calls ++ saveCalls w)%list
       /\ (length calls <= n)%nat
       /\ forall call, In call calls ->
            exists type,
              call = (Cache.resolvePaths HOME options type,
                      Cache.savedPrimaryKey PLATFORM sha options type w).

End WithEnvironment.

End Post.

(** ** tests/fakes: the in-memory [@actions/cache] *)

Module FakeCache.

Record Entry := {
  key : string;
  paths : list string;
  size : Z;
  content : string;
}.

(** [_caches], a [Map]: its entries in insertion order. *)
Definition Caches := list (string * Entry).

Definition has (name : string) (caches : Caches) : bool :=
  match obj_get name caches with
  | Some _ => true
  | None => false
  end.

(** The entry [saveCache] and [_setupCache] store under a key. *)
Definition entryFor (name : string) (cachePaths : list string) : Entry :=
  {| key := name;
     paths := cachePaths;
     size := (Z.of_nat (length cachePaths) * 1024)%Z;
     content := "Cache content for " +:+ name |}.

(** The two nested loops of [restoreCache]: the restore keys in order,
    and for each the stored keys in insertion order. *)
Fixpoint tryRestoreKeys (restoreKeys : list string) (caches : Caches) : option string :=
  match restoreKeys with
  | [] => None
  | restoreKey :: rest =>
      match List.find (fun name => JS.startsWith name restoreKey) (keys caches) with
      | Some name => Some name
      | None => tryRestoreKeys rest caches
      end
  end.

Definition restoreCache (caches : Caches) (cachePaths : list string)
    (primaryKey : string) (restoreKeys : option (list string)) : option string :=
  if has primaryKey caches then Some primaryKey
  else match restoreKeys with
       | Some restoreKeys => tryRestoreKeys restoreKeys caches
       | None => None
       end.

(** The id returned and the store afterwards. *)
Definition saveCache (caches : Caches) (cachePaths : list string) (name : string)
  : Z * Caches :=
  if has name caches then ((-1)%Z, caches)
  else
    let caches := obj_set name (entryFor name cachePaths) caches in
    (Z.of_nat (length caches), caches).

Definition _setupCache (entries : list (string * list string)) : Caches :=
  fold_left (fun caches entry => obj_set (fst entry) (entryFor (fst entry) (snd entry)) caches)
    entries [].

(** The fake as the store of a [World]: it holds what [_setupCache] put
    there and what the saves logged since then have added; a restore
    unpacks nothing. *)
Definition cachesIn (initial : Caches) (w : World) : Caches :=
  fold_right (fun call caches => snd (saveCache caches (fst call) (snd call)))
    initial (saveCalls w).

Definition collaborators (initial : Caches)
    (mkdirSync : gset string -> string -> option (gset string)) : Collaborators :=
  {| cache_restoreCache := fun w cachePaths primaryKey restoreKeys =>
       (Resolved (restoreCache (cachesIn initial w) cachePaths primaryKey (Some restoreKeys)),
        existing w);
     cache_saveCache := fun w cachePaths name =>
       Resolved (fst (saveCache (cachesIn initial w) cachePaths name));
     fs_mkdirSync := mkdirSync |}.

End FakeCache.

(** ** Sample data *)

Module Examples.

Definition emptyWorld : World :=
  {| runState := ∅; existing := ∅; restoreCalls := []; saveCalls := [] |}.

(** A store that has nothing under the primary key but holds an older
    entry under the last restore key it is given; every directory can be
    created and every save gets the id 1. *)
Definition prefixStore : Collaborators :=
  {| cache_restoreCache := fun w _ _ restoreKeys =>
       ((fun key => Resolved (Some (key +:+ "older"))) (default "" (last restoreKeys)),
        existing w);
     cache_saveCache := fun _ _ _ => Resolved 1%Z;
     fs_mkdirSync := fun fs dirPath => Some ({[dirPath]} ∪ fs) |}.

(** A store that holds an entry under every primary key. *)
Definition exactStore : Collaborators :=
  {| cache_restoreCache := fun w _ primaryKey _ => (Resolved (Some primaryKey), existing w);
     cache_saveCache := fun _ _ _ => Resolved 1%Z;
     fs_mkdirSync := fun fs dirPath => Some ({[dirPath]} ∪ fs) |}.

Definition someOptions : CacheOptions :=
  {| enabled := true; primaryKey := Some "test-key"; restoreKeys := None;
     paths := Some ["/cache/rpc"]; compressionLevel := None |}.

Definition entry (gas : float) : TestResult := {| gasUsed := gas; comparison := None |}.

(** The pair of snapshots of the specification's example. *)
Definition current : GasSnapshot :=
  {| timestamp := "2025-03-21T12:00:00.000Z"; commitSha := "1234567890abcdef";
     testResults := [("a", entry 20000); ("c", entry 30000)] |}.

Definition previousRun : GasSnapshot :=
  {| timestamp := "2025-03-20T12:00:00.000Z"; commitSha := "abcdef1234567890";
     testResults := [("a", entry 22000); ("b", entry 35000)] |}.

(** A test that used no gas in the previous run. *)
Definition currentOfFive : GasSnapshot :=
  {| timestamp := "2025-03-21T12:00:00.000Z"; commitSha := "1234567890abcdef";
     testResults := [("a", entry 5)] |}.

Definition previousOfZero : GasSnapshot :=
  {| timestamp := "2025-03-20T12:00:00.000Z"; commitSha := "abcdef1234567890";
     testResults := [("a", entry 0)] |}.

(** A test named as a member of [Object.prototype], and a previous
    run without any test. *)
Definition currentOfToString : GasSnapshot :=
  {| timestamp := "2025-03-21T12:00:00.000Z"; commitSha := "1234567890abcdef";
     testResults := [("toString", entry 5)] |}.

Definition previousOfNothing : GasSnapshot :=
  {| timestamp := "2025-03-20T12:00:00.000Z"; commitSha := "abcdef1234567890";
     testResults := [] |}.

(** A log of 100 stored snapshots that differ in their commit. *)
Definition numbered (n : nat) : GasSnapshot :=
  {| timestamp := "2025-03-20T12:00:00.000Z";
     commitSha := String (ascii_of_nat n) EmptyString;
     testResults := [] |}.

Definition hundred : list Json := map (fun n => Gas.toJson (numbered n)) (seq 0 100).

(** The raw text of the specification's parsing example. *)
Definition rawOutput : string :=
  "test_a() (gas: 100)" +:+ JS.nl +:+ "noise" +:+ JS.nl +:+ "test_b() (gas: 200)".

(** A compared snapshot with an increase, a decrease, an unchanged test
    and a new test. *)
Definition compared : GasSnapshot :=
  {| timestamp := "2025-03-21T12:00:00.000Z"; commitSha := "1234567890abcdef";
     testResults :=
       [("test_gas_increase()",
         {| gasUsed := 25000%float;
            comparison := Some {| previous := Some 20000%float; change := Some 5000%float;
                                  changePercentage := Some 25%float |} |});
        ("test_gas_decrease()",
         {| gasUsed := 18000%float;
            comparison := Some {| previous := Some 22000%float; change := Some (-4000)%float;
                                  changePercentage := Some (-18.18)%float |} |});
        ("test_gas_unchanged()",
         {| gasUsed := 30000%float;
            comparison := Some {| previous := Some 30000%float; change := Some 0%float;
                                  changePercentage := Some 0%float |} |});
        ("test_new_test()", entry 35000)] |}.

(** The two snapshots of the example as objects of a heap. *)
Definition heap : gmap positive Heap.object :=
  list_to_map
    [(1%positive, Heap.SnapshotObj "2025-03-21T12:00:00.000Z" "1234567890abcdef" 2);
     (2%positive, Heap.ResultsObj [("a", 3%positive); ("c", 4%positive)]);
     (3%positive, Heap.EntryObj 20000 None);
     (4%positive, Heap.EntryObj 30000 None);
     (5%positive, Heap.SnapshotObj "2025-03-20T12:00:00.000Z" "abcdef1234567890" 6);
     (6%positive, Heap.ResultsObj [("a", 7%positive); ("b", 8%positive)]);
     (7%positive, Heap.EntryObj 22000 None);
     (8%positive, Heap.EntryObj 35000 None)].

End Examples.

(** * Properties *)

(** ** Strings *)

Module JSFacts.

Lemma trimStart_head c s :
  JS.isWhiteSpace c = false -> JS.trimStart (String c s) = String c s.
Proof. intros H. simpl. now rewrite H. Qed.

Lemma trimStart_shape s :
  JS.trimStart s = EmptyString \/
  exists c t, JS.trimStart s = String c t /\ JS.isWhiteSpace c = false.
Proof.
  induction s as [|c s IH]; simpl; [now left|].
  destruct (JS.isWhiteSpace c) eqn:E; [exact IH|].
  right. now exists c, s.
Qed.

Lemma trimEnd_head c s :
  JS.isWhiteSpace c = false -> exists t, JS.trimEnd (String c s) = String c t.
Proof.
  intros H. simpl. destruct (JS.trimEnd s) eqn:E.
  - rewrite H. now exists EmptyString.
  - now eexists.
Qed.

Lemma trimEnd_idempotent s : JS.trimEnd (JS.trimEnd s) = JS.trimEnd s.
Proof.
  induction s as [|c s IH]; [reflexivity|].
  simpl. destruct (JS.trimEnd s) as [|d t] eqn:E.
  - destruct (JS.isWhiteSpace c) eqn:Ec; [reflexivity|].
    simpl. now rewrite Ec.
  - change (JS.trimEnd (String c (String d t))) with
      (match JS.trimEnd (String d t) with
       | EmptyString => if JS.isWhiteSpace c then EmptyString else String c EmptyString
       | u => String c u
       end).
    now rewrite IH.
Qed.

(** Trimming twice is trimming once: a trimmed fragment has no white
    space left at either end. *)
Lemma trim_idempotent s : JS.trim (JS.trim s) = JS.trim s.
Proof.
  unfold JS.trim.
  destruct (trimStart_shape s) as [E | (c & t & E & Hc)]; rewrite E.
  - reflexivity.
  - destruct (trimEnd_head c t Hc) as [u Hu].
    rewrite Hu, (trimStart_head c u Hc), <- Hu.
    apply trimEnd_idempotent.
Qed.

Lemma isEmpty_true s : JS.isEmpty s = true <-> s = EmptyString.
Proof. destruct s; simpl; split; intros H; first [reflexivity | discriminate H]. Qed.

Lemma app_nonempty (s t : string) : t <> EmptyString -> s +:+ t <> EmptyString.
Proof. destruct s, t; simpl; intros H; first [discriminate | now contradict H]. Qed.

Lemma app_nonempty_l (s t : string) : s <> EmptyString -> s +:+ t <> EmptyString.
Proof. destruct s; simpl; intros H; first [discriminate | now contradict H]. Qed.

Lemma append_assoc (s t u : string) : (s +:+ t) +:+ u = s +:+ (t +:+ u).
Proof.
  induction s as [|c s IH]; [reflexivity|].
  change (String c ((s +:+ t) +:+ u) = String c (s +:+ (t +:+ u))). now rewrite IH.
Qed.

Lemma append_empty_r (s : string) : s +:+ EmptyString = s.
Proof.
  induction s as [|c s IH]; [reflexivity|].
  change (String c (s +:+ EmptyString) = String c s). now rewrite IH.
Qed.

(** Appending one piece per element in a loop gives the pieces in a
    row after the initial text. *)
Lemma fold_left_append {A : Type} (f : A -> string) (l : list A) (init : string) :
  fold_left (fun text x => text +:+ f x) l init
  = init +:+ String.concat EmptyString (map f l).
Proof.
  revert init. induction l as [|x l IH]; intros init; simpl.
  - now rewrite append_empty_r.
  - rewrite IH, append_assoc. f_equal.
    destruct l as [|y l]; simpl; [now rewrite append_empty_r|reflexivity].
Qed.

End JSFacts.

(** ** Key derivation *)

Module KeyDeriver.

Section WithPlatform.

Variable PLATFORM : string.

Local Abbreviation getCachePrefix := (Cache.getCachePrefix PLATFORM).
Local Abbreviation getRestoreKeys := (Cache.getRestoreKeys PLATFORM).

Lemma prefix_nonempty type : getCachePrefix type <> EmptyString.
Proof.
  destruct type; unfold Cache.getCachePrefix, Cache.RPC_CACHE_PREFIX,
    Cache.ARTIFACTS_CACHE_PREFIX, Cache.GAS_SNAPSHOT_CACHE_PREFIX, Cache.CACHE_PREFIX;
    apply JSFacts.app_nonempty; discriminate.
Qed.

Lemma getPrimaryKey_nonempty sha input type :
  Cache.getPrimaryKey PLATFORM sha input type <> EmptyString.
Proof.
  unfold Cache.getPrimaryKey. cbv zeta.
  destruct (JS.truthy input); apply JSFacts.app_nonempty_l, prefix_nonempty.
Qed.

(** C4, as the code has it.  The restore keys are the lines of the input
    (split at every CR and LF), each trimmed, the blank ones dropped,
    each prefixed, in order and with repetitions kept, followed by the
    bare prefix; so the list is never empty and ends with the bare
    prefix, and absent or empty input gives the bare prefix alone. *)
Theorem getRestoreKeys_shape (input : option string) (type : CacheType) :
  let prefix := getCachePrefix type in
  let lines :=
    match JS.truthy input with
    | Some s => JS.split JS.isLineTerminator s
    | None => []
    end in
  let fragments := List.filter (fun f => negb (JS.isEmpty f)) (map JS.trim lines) in
  getRestoreKeys input type = (map (fun f => prefix +:+ f) fragments ++ [prefix])%list
  /\ (forall f, In f fragments ->
        f <> EmptyString /\ JS.trim f = f /\ exists line, In line lines /\ f = JS.trim line)
  /\ (input = None \/ input = Some EmptyString -> getRestoreKeys input type = [prefix])
  /\ 1 <= length (getRestoreKeys input type)
  /\ List.last (getRestoreKeys input type) EmptyString = prefix.
Proof.
  intros prefix lines fragments.
  assert (Heq : getRestoreKeys input type
                = (map (fun f => prefix +:+ f) fragments ++ [prefix])%list).
  { unfold Cache.getRestoreKeys, fragments, lines.
    destruct (JS.truthy input); reflexivity. }
  split; [exact Heq|]. split; [|split; [|split]].
  - intros f Hf. unfold fragments in Hf.
    apply filter_In in Hf as [Hin Hne].
    apply in_map_iff in Hin as (line & <- & Hline).
    split; [|split].
    + intros E. rewrite E in Hne. discriminate.
    + apply JSFacts.trim_idempotent.
    + now exists line.
  - intros [-> | ->]; reflexivity.
  - rewrite Heq, length_app, length_map. simpl. lia.
  - rewrite Heq. apply last_last.
Qed.

End WithPlatform.

Example getRestoreKeys_trims_and_drops_blanks :
  Cache.getRestoreKeys "linux"
    (Some ("  a  " +:+ JS.nl +:+ JS.nl +:+ " b " +:+ JS.nl)) ARTIFACTS
  = ["linux-foundry-artifacts-a"; "linux-foundry-artifacts-b";
     "linux-foundry-artifacts-"].
Proof. reflexivity. Qed.

(** C4, as stated: a fragment given twice is not discarded. *)
Lemma getRestoreKeys_keeps_duplicates :
  Cache.getRestoreKeys "linux" (Some ("a" +:+ JS.nl +:+ "a")) RPC
  = ["linux-foundry-chain-fork-a"; "linux-foundry-chain-fork-a";
     "linux-foundry-chain-fork-"]
  /\ ~ NoDup (Cache.getRestoreKeys "linux" (Some ("a" +:+ JS.nl +:+ "a")) RPC).
Proof.
  split; [reflexivity|].
  intros H. change (Cache.getRestoreKeys "linux" (Some ("a" +:+ JS.nl +:+ "a")) RPC)
    with ["linux-foundry-chain-fork-a"; "linux-foundry-chain-fork-a";
          "linux-foundry-chain-fork-"] in H.
  inversion H as [|? ? Hfresh _]. apply Hfresh. now left.
Qed.

End KeyDeriver.

(** ** Restore and save *)

Module CacheLifecycle.

Section WithEnvironment.

Variable PLATFORM : string.
Variable HOME : string.
Variable sha : string.
Variable env : Collaborators.

Local Abbreviation getPrimaryKey := (Cache.getPrimaryKey PLATFORM sha).
Local Abbreviation getRestoreKeys := (Cache.getRestoreKeys PLATFORM).
Local Abbreviation resolvePaths := (Cache.resolvePaths HOME).
Local Abbreviation beforeRestore := (Cache.beforeRestore PLATFORM HOME sha env).
Local Abbreviation restoreCache := (Cache.restoreCache PLATFORM HOME sha env).
Local Abbreviation savedPrimaryKey := (Cache.savedPrimaryKey PLATFORM sha).
Local Abbreviation saveCache := (Cache.saveCache PLATFORM HOME sha env).

(** What the store answers to the call [restoreCache] makes. *)
Local Abbreviation storeAnswer options type w :=
  (fst (cache_restoreCache env (beforeRestore options type w)
          (resolvePaths options type)
          (getPrimaryKey (primaryKey options) type)
          (getRestoreKeys (JS.join JS.nl <$> restoreKeys options) type))).

Lemma ensureDirectoryExists_frame dirPath w :
  let w' := snd (Cache.ensureDirectoryExists env dirPath w) in
  runState w' = runState w /\ restoreCalls w' = restoreCalls w
  /\ saveCalls w' = saveCalls w.
Proof.
  unfold Cache.ensureDirectoryExists.
  destruct (Cache.fileExists dirPath w); [easy|].
  now destruct (fs_mkdirSync env (existing w) dirPath).
Qed.

Lemma ensureDirectories_frame dirs w :
  let w' := fold_left (fun w p => snd (Cache.ensureDirectoryExists env p w)) dirs w in
  runState w' = runState w /\ restoreCalls w' = restoreCalls w
  /\ saveCalls w' = saveCalls w.
Proof.
  revert w. induction dirs as [|d dirs IH]; intros w; simpl; [easy|].
  destruct (IH (snd (Cache.ensureDirectoryExists env d w))) as (H1 & H2 & H3).
  destruct (ensureDirectoryExists_frame d w) as (G1 & G2 & G3).
  cbv zeta in *. repeat split; congruence.
Qed.

Lemma beforeRestore_runState options type w :
  runState (beforeRestore options type w)
  = <[State.CachePrimaryKey := getPrimaryKey (primaryKey options) type]> (runState w).
Proof.
  unfold Cache.beforeRestore.
  now destruct (ensureDirectories_frame (resolvePaths options type)
    (Cache.saveState State.CachePrimaryKey (getPrimaryKey (primaryKey options) type) w))
    as (-> & _).
Qed.

Lemma beforeRestore_calls options type w :
  restoreCalls (beforeRestore options type w) = restoreCalls w
  /\ saveCalls (beforeRestore options type w) = saveCalls w.
Proof.
  unfold Cache.beforeRestore.
  destruct (ensureDirectories_frame (resolvePaths options type)
    (Cache.saveState State.CachePrimaryKey (getPrimaryKey (primaryKey options) type) w))
    as (_ & -> & ->).
  easy.
Qed.

Lemma truthy_Some o k : JS.truthy o = Some k -> o = Some k /\ k <> EmptyString.
Proof. destruct o as [[|c s]|]; simpl; intros [= <-]; easy. Qed.

(** C1, as the code has it.  An enabled restore asks the store once and
    reports a hit exactly when the store answers, without failing, with
    a non-empty matched key, equal to the primary key or not; that key is
    what the result and the run state record.  A match on a restore key
    alone is therefore reported as a hit too. *)
Theorem restoreCache_hit_iff_matched options type w :
  enabled options = true ->
  let primaryKey := getPrimaryKey (primaryKey options) type in
  let matched :=
    match storeAnswer options type w with
    | Resolved matchedKey => JS.truthy matchedKey
    | Rejected => None
    end in
  let r := fst (restoreCache options type w) in
  let w' := snd (restoreCache options type w) in
  CacheResult.primaryKey r = primaryKey
  /\ CacheResult.matchedKey r = matched
  /\ (CacheResult.cacheHit r = true <-> matched <> None)
  /\ (forall k, matched = Some k ->
        k <> EmptyString /\ Cache.getState State.CacheMatchedKey w' = k)
  /\ Cache.getState State.CachePrimaryKey w' = primaryKey
  /\ restoreCalls w'
     = (resolvePaths options type, primaryKey,
        getRestoreKeys (JS.join JS.nl <$> restoreKeys options) type) :: restoreCalls w.
Proof.
  intros Hen. cbv zeta. unfold Cache.restoreCache, Cache.callRestore.
  rewrite Hen. cbn [negb].
  pose proof (beforeRestore_runState options type w) as Hst.
  destruct (beforeRestore_calls options type w) as [Hcalls _].
  assert (Hkey : forall w0, runState w0 = runState (beforeRestore options type w) ->
            Cache.getState State.CachePrimaryKey w0
            = getPrimaryKey (primaryKey options) type).
  { intros w0 Hw0. unfold Cache.getState. now rewrite Hw0, Hst, lookup_insert_eq. }
  destruct (cache_restoreCache env _ _ _ _) as [[matchedKey|] fs'] eqn:E; cbn [fst snd].
  - destruct (JS.truthy matchedKey) as [k|] eqn:Ek;
      cbn [fst snd CacheResult.primaryKey CacheResult.matchedKey CacheResult.cacheHit].
    + split_and!; [reflexivity | reflexivity | easy | | | ].
      * intros k' [= <-]. split; [now apply truthy_Some in Ek|].
        unfold Cache.getState, Cache.saveState. cbn [runState].
        now rewrite lookup_insert_eq.
      * unfold Cache.getState, Cache.saveState. cbn [runState].
        rewrite lookup_insert_ne by discriminate.
        now rewrite Hst, lookup_insert_eq.
      * cbn [Cache.saveState restoreCalls]. now rewrite Hcalls.
    + split_and!; [reflexivity | reflexivity | easy | discriminate | now apply Hkey |].
      cbn [restoreCalls]. now rewrite Hcalls.
  - cbn [CacheResult.primaryKey CacheResult.matchedKey CacheResult.cacheHit].
    split_and!; [reflexivity | reflexivity | easy | discriminate | now apply Hkey |].
    cbn [restoreCalls]. now rewrite Hcalls.
Qed.

(** The run state a successful match leaves behind. *)
Lemma restoreCache_runState options type w k :
  enabled options = true ->
  storeAnswer options type w = Resolved (Some k) -> k <> EmptyString ->
  let w' := snd (restoreCache options type w) in
  Cache.getState State.CachePrimaryKey w' = getPrimaryKey (primaryKey options) type
  /\ Cache.getState State.CacheMatchedKey w' = k.
Proof.
  intros Hen Hans Hk. cbv zeta. unfold Cache.restoreCache, Cache.callRestore.
  rewrite Hen. cbn [negb].
  destruct (cache_restoreCache env _ _ _ _) as [answer fs'] eqn:E.
  cbn [fst] in Hans. subst answer.
  assert (Ht : JS.truthy (Some k) = Some k) by now destruct k.
  rewrite Ht. cbn [snd]. unfold Cache.getState, Cache.saveState. cbn [runState].
  rewrite lookup_insert_eq, lookup_insert_ne by discriminate.
  now rewrite beforeRestore_runState, lookup_insert_eq.
Qed.

Lemma savedPrimaryKey_nonempty options type w :
  savedPrimaryKey options type w <> EmptyString.
Proof.
  unfold Cache.savedPrimaryKey.
  destruct (JS.isEmpty _) eqn:E.
  - apply KeyDeriver.getPrimaryKey_nonempty.
  - intros H. rewrite H in E. discriminate.
Qed.

Lemma forallb_fileExists cachePaths w :
  forallb (fun cachePath => Cache.fileExists cachePath w) cachePaths = true
  <-> (forall p, In p cachePaths -> p ∈ existing w).
Proof.
  rewrite forallb_forall. unfold Cache.fileExists.
  split; intros H p Hp; specialize (H p Hp).
  - now apply bool_decide_eq_true in H.
  - now apply bool_decide_eq_true.
Qed.

(** C3.  Once a restore has matched the primary key itself, a save for
    the same cache type, in any world that kept that run state, returns
    false and leaves the store alone.  Only that case is suppressed: with
    a matched key that differs from the primary key, an enabled save
    whose paths all exist calls the store's save, once, with the resolved
    paths and the primary key, and answers true exactly when the store
    gives an id other than -1. *)
Theorem saveCache_skips_exactly_on_exact_hit :
  (forall options type w,
      enabled options = true ->
      storeAnswer options type w
      = Resolved (Some (getPrimaryKey (primaryKey options) type)) ->
      CacheResult.cacheHit (fst (restoreCache options type w)) = true
      /\ forall options2 w2,
          runState w2 = runState (snd (restoreCache options type w)) ->
          saveCache options2 type w2 = (false, w2))
  /\ (forall options type w,
        enabled options = true ->
        (forall p, In p (resolvePaths options type) -> p ∈ existing w) ->
        Cache.getState State.CacheMatchedKey w <> savedPrimaryKey options type w ->
        let key := savedPrimaryKey options type w in
        let cachePaths := resolvePaths options type in
        key <> EmptyString
        /\ saveCalls (snd (saveCache options type w)) = (cachePaths, key) :: saveCalls w
        /\ (fst (saveCache options type w) = true <->
            exists cacheId, cache_saveCache env w cachePaths key = Resolved cacheId
                            /\ cacheId <> (-1)%Z)).
Proof.
  split.
  - intros options type w Hen Hans.
    pose proof (KeyDeriver.getPrimaryKey_nonempty PLATFORM sha (primaryKey options) type)
      as Hne.
    destruct (restoreCache_runState options type w _ Hen Hans Hne) as [Hpk Hmk].
    split.
    { unfold Cache.restoreCache, Cache.callRestore. rewrite Hen. cbn [negb].
      destruct (cache_restoreCache env _ _ _ _) as [answer fs'] eqn:E.
      cbn [fst] in Hans. subst answer.
      destruct (getPrimaryKey (primaryKey options) type); [congruence|reflexivity]. }
    intros options2 w2 Hw2.
    assert (Hpk2 : Cache.getState State.CachePrimaryKey w2
                   = getPrimaryKey (primaryKey options) type)
      by (unfold Cache.getState in *; now rewrite Hw2).
    assert (Hmk2 : Cache.getState State.CacheMatchedKey w2
                   = getPrimaryKey (primaryKey options) type)
      by (unfold Cache.getState in *; now rewrite Hw2).
    unfold Cache.saveCache, Cache.savedPrimaryKey.
    destruct (enabled options2); [cbn [negb]|reflexivity].
    rewrite Hpk2, Hmk2.
    destruct (forallb _ _); [cbn [negb]|reflexivity].
    destruct (JS.isEmpty (getPrimaryKey (primaryKey options) type)) eqn:Eempty.
    + apply JSFacts.isEmpty_true in Eempty. congruence.
    + now rewrite Eempty, String.eqb_refl.
  - intros options type w Hen Hpaths Hdiff. cbv zeta.
    pose proof (savedPrimaryKey_nonempty options type w) as Hne.
    split; [exact Hne|].
    unfold Cache.saveCache. rewrite Hen. cbn [negb].
    apply forallb_fileExists in Hpaths. rewrite Hpaths. cbn [negb].
    destruct (JS.isEmpty (savedPrimaryKey options type w)) eqn:Eempty.
    { apply JSFacts.isEmpty_true in Eempty. congruence. }
    destruct (String.eqb (savedPrimaryKey options type w)
                (Cache.getState State.CacheMatchedKey w)) eqn:Eeq.
    { apply String.eqb_eq in Eeq. congruence. }
    unfold Cache.callSave.
    destruct (cache_saveCache env w _ _) as [cacheId|] eqn:Esave; cbn [fst snd].
    + destruct (Z.eqb_spec cacheId (-1)); cbn [fst snd saveCalls].
      * split; [reflexivity|]. split; [discriminate|].
        intros (id & [= <-] & Hid). congruence.
      * split; [reflexivity|]. split; [|reflexivity]. intros _. now exists cacheId.
    + cbn [saveCalls]. split; [reflexivity|]. split; [discriminate|].
      intros (id & [=] & _).
Qed.

(** C9.  An enabled save one of whose resolved paths does not exist
    returns false, changes nothing and does not call the store. *)
Theorem saveCache_missing_path options type w p :
  enabled options = true ->
  In p (resolvePaths options type) ->
  p ∉ existing w ->
  saveCache options type w = (false, w)
  /\ saveCalls (snd (saveCache options type w)) = saveCalls w.
Proof.
  intros Hen Hin Hmissing.
  assert (H : saveCache options type w = (false, w)).
  { unfold Cache.saveCache. rewrite Hen. cbn [negb].
    destruct (forallb _ _) eqn:Ef; [|reflexivity].
    exfalso. apply Hmissing. now apply (proj1 (forallb_fileExists _ _) Ef). }
  now rewrite H.
Qed.

End WithEnvironment.

Local Abbreviation restoreWith store :=
  (Cache.restoreCache "linux" "/home/runner" "0123abc" store Examples.someOptions RPC
     Examples.emptyWorld).

Lemma restoreCache_hit_iff_matched_witness :
  enabled Examples.someOptions = true
  /\ CacheResult.matchedKey (fst (restoreWith Examples.exactStore))
     = Some "linux-foundry-chain-fork-test-key"
  /\ (CacheResult.cacheHit (fst (restoreWith Examples.exactStore)) = true
      <-> Some "linux-foundry-chain-fork-test-key" <> None).
Proof.
  split; [reflexivity|].
  destruct (restoreCache_hit_iff_matched "linux" "/home/runner" "0123abc"
              Examples.exactStore Examples.someOptions RPC Examples.emptyWorld eq_refl)
    as (_ & Hm & Hhit & _).
  split; [exact Hm | exact Hhit].
Defined.

(** C1, as stated: this store has nothing under the primary key and
    answers with the key of an older entry that a restore key found; the
    result records that key and still reports a hit. *)
Lemma restoreCache_prefix_match_reported_as_hit :
  CacheResult.primaryKey (fst (restoreWith Examples.prefixStore))
  = "linux-foundry-chain-fork-test-key"
  /\ CacheResult.matchedKey (fst (restoreWith Examples.prefixStore))
     = Some "linux-foundry-chain-fork-older"
  /\ CacheResult.cacheHit (fst (restoreWith Examples.prefixStore)) = true
  /\ ~ (CacheResult.cacheHit (fst (restoreWith Examples.prefixStore)) = true
        <-> CacheResult.matchedKey (fst (restoreWith Examples.prefixStore))
            = Some (CacheResult.primaryKey (fst (restoreWith Examples.prefixStore)))).
Proof.
  assert (H1 : CacheResult.primaryKey (fst (restoreWith Examples.prefixStore))
               = "linux-foundry-chain-fork-test-key") by (vm_compute; reflexivity).
  assert (H2 : CacheResult.matchedKey (fst (restoreWith Examples.prefixStore))
               = Some "linux-foundry-chain-fork-older") by (vm_compute; reflexivity).
  assert (H3 : CacheResult.cacheHit (fst (restoreWith Examples.prefixStore)) = true)
    by (vm_compute; reflexivity).
  split_and!; [exact H1 | exact H2 | exact H3 |].
  rewrite H1, H2, H3. intros [Hhit _]. specialize (Hhit eq_refl). discriminate Hhit.
Qed.

Lemma saveCache_skips_exactly_on_exact_hit_witness :
  Cache.saveCache "linux" "/home/runner" "0123abc" Examples.exactStore
    Examples.someOptions RPC (snd (restoreWith Examples.exactStore))
  = (false, snd (restoreWith Examples.exactStore))
  /\ saveCalls (snd (Cache.saveCache "linux" "/home/runner" "0123abc" Examples.prefixStore
                       Examples.someOptions RPC (snd (restoreWith Examples.prefixStore))))
     = [(["/cache/rpc"], "linux-foundry-chain-fork-test-key")].
Proof.
  destruct (saveCache_skips_exactly_on_exact_hit "linux" "/home/runner" "0123abc"
              Examples.exactStore) as [Hexact _].
  destruct (saveCache_skips_exactly_on_exact_hit "linux" "/home/runner" "0123abc"
              Examples.prefixStore) as [_ Hprefix].
  split.
  - apply (Hexact Examples.someOptions RPC Examples.emptyWorld eq_refl eq_refl).
    reflexivity.
  - refine (proj1 (proj2 (Hprefix Examples.someOptions RPC
                            (snd (restoreWith Examples.prefixStore)) eq_refl _ _))).
    + intros p [<-|[]]. apply (bool_decide_unpack _). vm_compute. exact I.
    + vm_compute. discriminate.
Defined.

Lemma saveCache_missing_path_witness :
  Cache.saveCache "linux" "/home/runner" "0123abc" Examples.exactStore
    Examples.someOptions RPC Examples.emptyWorld
  = (false, Examples.emptyWorld).
Proof.
  refine (proj1 (saveCache_missing_path "linux" "/home/runner" "0123abc"
                   Examples.exactStore Examples.someOptions RPC Examples.emptyWorld
                   "/cache/rpc" eq_refl _ _)).
  - now left.
  - apply not_elem_of_empty.
Defined.

End CacheLifecycle.

(** ** Numbers

    Facts about binary64 arithmetic, from the bit-level specification
    of the primitive operations. *)

Module FloatFacts.

Section Integers.

Local Open Scope Z_scope.

Lemma digits2_pos_bounds m :
  2 ^ (Zpos (digits2_pos m) - 1) <= Zpos m < 2 ^ Zpos (digits2_pos m).
Proof.
  induction m as [m IH|m IH|]; cbn [digits2_pos].
  - rewrite Pos2Z.inj_succ, Z.pow_succ_r by lia.
    replace (Z.succ (Zpos (digits2_pos m)) - 1)
      with (Z.succ (Zpos (digits2_pos m) - 1)) by lia.
    rewrite Z.pow_succ_r by lia. lia.
  - rewrite Pos2Z.inj_succ, Z.pow_succ_r by lia.
    replace (Z.succ (Zpos (digits2_pos m)) - 1)
      with (Z.succ (Zpos (digits2_pos m) - 1)) by lia.
    rewrite Z.pow_succ_r by lia. lia.
  - simpl. lia.
Qed.

Lemma iter_xO m d : Zpos (Pos.iter xO m d) = Zpos m * 2 ^ Zpos d.
Proof.
  induction d as [|d IH] using Pos.peano_ind.
  - simpl. lia.
  - rewrite Pos.iter_succ, Pos2Z.inj_succ, Z.pow_succ_r by lia.
    rewrite Pos2Z.inj_xO, IH. lia.
Qed.

Lemma shl_align_value m e e' :
  e' <= e -> Zpos (fst (shl_align m e e')) = Zpos m * 2 ^ (e - e').
Proof.
  intros Hle. unfold shl_align.
  destruct (e' - e) as [|d|d] eqn:E; cbn [fst].
  - replace (e - e') with 0 by lia. simpl. lia.
  - lia.
  - rewrite iter_xO. f_equal. f_equal. lia.
Qed.

Lemma pow2_xI p : 2 ^ Zpos p~1 = 2 * (2 ^ Zpos p * 2 ^ Zpos p).
Proof.
  assert (E : Zpos p~1 = 1 + Zpos p + Zpos p) by lia.
  rewrite E, !Z.pow_add_r by lia. lia.
Qed.

Lemma pow2_xO p : 2 ^ Zpos p~0 = 2 ^ Zpos p * 2 ^ Zpos p.
Proof.
  assert (E : Zpos p~0 = Zpos p + Zpos p) by lia.
  now rewrite E, Z.pow_add_r by lia.
Qed.

Lemma pow2_pos k : 0 <= k -> 0 < 2 ^ k.
Proof. intros. apply Z.pow_pos_nonneg; lia. Qed.

(** One step of the right shift halves the mantissa. *)
Lemma shr_1_m mrs : 0 <= shr_m mrs -> shr_m (shr_1 mrs) = shr_m mrs / 2.
Proof.
  destruct mrs as [m r s]. cbn [shr_m]. intros Hm. rewrite <- Z.div2_div.
  destruct m as [|[p|p|]|p]; try reflexivity; lia.
Qed.

Lemma iter_shr_1 p : forall mrs,
  0 <= shr_m mrs -> shr_m (SpecFloat.iter_pos shr_1 p mrs) = shr_m mrs / 2 ^ Zpos p.
Proof.
  induction p as [p IH|p IH|]; intros mrs Hm; cbn [SpecFloat.iter_pos].
  - assert (H1 : 0 <= shr_m (shr_1 mrs))
      by (rewrite shr_1_m by assumption; apply Z.div_pos; lia).
    assert (H2 : 0 <= shr_m (SpecFloat.iter_pos shr_1 p (shr_1 mrs)))
      by (rewrite IH by assumption; apply Z.div_pos; lia).
    rewrite IH, IH, shr_1_m by assumption.
    rewrite !Z.div_div by lia. now rewrite pow2_xI.
  - assert (H2 : 0 <= shr_m (SpecFloat.iter_pos shr_1 p mrs))
      by (rewrite IH by assumption; apply Z.div_pos; lia).
    rewrite IH, IH by assumption.
    rewrite !Z.div_div by lia. now rewrite pow2_xO.
  - now apply shr_1_m.
Qed.

Lemma shr_record_of_loc_m m l : shr_m (shr_record_of_loc m l) = m.
Proof. destruct l as [|[]]; reflexivity. Qed.

(** From the least exponent up, shifting a positive mantissa into the
    format leaves a positive mantissa. *)
Lemma shr_fexp_positive m e l :
  0 < m -> emin <= e ->
  0 < shr_m (fst (shr_fexp prec emax m e l))
  /\ emin <= snd (shr_fexp prec emax m e l).
Proof.
  intros Hm He. unfold shr_fexp, shr.
  destruct (fexp prec emax (Zdigits2 m + e) - e) as [|p|p] eqn:E; cbn [fst snd];
    rewrite ?shr_record_of_loc_m; try lia.
  rewrite iter_shr_1, shr_record_of_loc_m by (rewrite shr_record_of_loc_m; lia).
  split; [|lia].
  destruct m as [|q|q]; try lia. cbn [Zdigits2] in E.
  pose proof (digits2_pos_bounds q) as [Hlow _].
  apply Z.div_str_pos. split; [lia|].
  eapply Z.le_trans; [|exact Hlow].
  apply Z.pow_le_mono_r; [lia|].
  unfold fexp, SpecFloat.emin, prec, emax in *. lia.
Qed.

Lemma round_nearest_even_positive m l : 0 < m -> 0 < round_nearest_even m l.
Proof.
  intros Hm. destruct l as [|[]]; cbn [round_nearest_even]; try lia.
  destruct (Z.even m); lia.
Qed.

Lemma binary_round_aux_positive m e l :
  0 < m -> emin <= e -> JS.positiveSF (binary_round_aux prec emax false m e l) = true.
Proof.
  intros Hm He. unfold binary_round_aux.
  destruct (shr_fexp_positive m e l Hm He) as [Hm1 He1].
  destruct (shr_fexp prec emax m e l) as [mrs' e']. cbn [fst snd] in *.
  pose proof (round_nearest_even_positive _ (loc_of_shr_record mrs') Hm1) as Hm2.
  destruct (shr_fexp_positive _ e' loc_Exact Hm2 He1) as [Hm3 _].
  destruct (shr_fexp prec emax _ e' loc_Exact) as [mrs'' e'']. cbn [fst snd] in *.
  destruct (shr_m mrs''); try lia.
  now destruct (Z.leb e'' _).
Qed.

Lemma binary_normalize_positive z e :
  0 < z -> emin <= e -> JS.positiveSF (binary_normalize prec emax z e false) = true.
Proof.
  intros Hz He. destruct z as [|m|m]; try lia.
  unfold binary_normalize, binary_round, shl_align.
  destruct (fexp prec emax (Zpos (digits2_pos m) + e) - e) as [|d|d] eqn:E.
  - now apply binary_round_aux_positive.
  - now apply binary_round_aux_positive.
  - apply binary_round_aux_positive; [lia|].
    unfold fexp. apply Z.le_max_r.
Qed.

(** What validity says about a mantissa and its exponent. *)
Lemma bounded_inv m e :
  bounded prec emax m e = true ->
  emin <= e /\ Zpos (digits2_pos m) <= prec
  /\ (emin < e -> Zpos (digits2_pos m) = prec).
Proof.
  unfold bounded, canonical_mantissa. intros H.
  apply andb_prop in H as [H _]. apply Z.eqb_eq in H.
  unfold fexp, SpecFloat.emin, prec, emax in *. lia.
Qed.

(** Of two valid numbers of the same sign, the one with the greater
    exponent has the greater magnitude. *)
Lemma finite_lt mx ex my ey :
  bounded prec emax mx ex = true -> bounded prec emax my ey = true ->
  ex < ey -> Zpos mx < Zpos my * 2 ^ (ey - ex).
Proof.
  intros Hx Hy Hlt.
  apply bounded_inv in Hx as (Hex & Hdx & _).
  apply bounded_inv in Hy as (_ & _ & Hdy). specialize (Hdy ltac:(lia)).
  pose proof (digits2_pos_bounds mx) as [_ Hupper].
  pose proof (digits2_pos_bounds my) as [Hlower _].
  rewrite Hdy in Hlower.
  assert (H1 : Zpos mx < 2 ^ prec).
  { eapply Z.lt_le_trans; [exact Hupper|]. apply Z.pow_le_mono_r; lia. }
  assert (H2 : 2 ^ 1 <= 2 ^ (ey - ex)) by (apply Z.pow_le_mono_r; lia).
  assert (H3 : 2 ^ prec = 2 ^ (prec - 1) * 2 ^ 1)
    by (rewrite <- Z.pow_add_r by (unfold prec; lia); f_equal; lia).
  nia.
Qed.

(** A difference is positive when its first operand is the greater. *)
Lemma SFsub_positive X Y :
  valid_binary X = true -> valid_binary Y = true ->
  SFcompare X Y = Some Lt -> JS.positiveSF (SF64sub Y X) = true.
Proof.
  intros HX HY Hlt.
  destruct X as [sx|sx| |sx mx ex], Y as [sy|sy| |sy my ey];
    try discriminate;
    try (destruct sx); try (destruct sy); try discriminate; try reflexivity.
  all: cbn [valid_binary] in HX, HY;
    pose proof (bounded_inv _ _ HX) as (Hex & _);
    pose proof (bounded_inv _ _ HY) as (Hey & _);
    unfold SF64sub, SFsub; cbv zeta;
    apply binary_normalize_positive; [|lia];
    rewrite !shl_align_value by lia; cbn [cond_Zopp];
    cbn [SFcompare] in Hlt.
  - destruct (Z.compare_spec ex ey) as [E|E|E]; try discriminate.
    + subst ey. rewrite Z.min_id, Z.sub_diag, Z.pow_0_r.
      injection Hlt as Hlt. apply (f_equal CompOpp) in Hlt.
      rewrite CompOpp_involutive in Hlt. cbn in Hlt.
      change (Pos.compare_cont Eq mx my) with (Pos.compare mx my) in Hlt.
      apply Pos.compare_gt_iff in Hlt. lia.
    + rewrite Z.min_l, Z.sub_diag, Z.pow_0_r by lia.
      pose proof (finite_lt my ey mx ex HY HX ltac:(lia)). lia.
  - pose proof (pow2_pos (ey - Z.min ey ex) ltac:(lia)).
    pose proof (pow2_pos (ex - Z.min ey ex) ltac:(lia)). nia.
  - destruct (Z.compare_spec ex ey) as [E|E|E]; try discriminate.
    + subst ey. rewrite Z.min_id, Z.sub_diag, Z.pow_0_r.
      injection Hlt as Hlt.
      change (Pos.compare_cont Eq mx my) with (Pos.compare mx my) in Hlt.
      apply Pos2Z.pos_lt_pos in Hlt. lia.
    + rewrite Z.min_r, Z.sub_diag, Z.pow_0_r by lia.
      pose proof (finite_lt mx ex my ey HX HY ltac:(lia)). lia.
Qed.

End Integers.

Lemma binary_round_aux_sign s m e l :
  match binary_round_aux prec emax s m e l with
  | S754_zero s' | S754_infinity s' | S754_finite s' _ _ => s' = s
  | S754_nan => True
  end.
Proof.
  unfold binary_round_aux.
  destruct (shr_fexp prec emax m e l) as [mrs' e'].
  destruct (shr_fexp prec emax _ e' loc_Exact) as [mrs'' e''].
  destruct (shr_m mrs''); [reflexivity| |exact I].
  now destruct (Z.leb e'' _).
Qed.

Lemma binary_normalize_negative m e :
  JS.positiveSF (binary_normalize prec emax (Zneg m) e false) = false.
Proof.
  unfold binary_normalize, binary_round.
  destruct (shl_align m e _) as [mz ez].
  pose proof (binary_round_aux_sign true (Zpos mz) ez loc_Exact) as H.
  destruct (binary_round_aux prec emax true (Zpos mz) ez loc_Exact);
    try subst; reflexivity.
Qed.

Lemma binary_normalize_opp z e :
  JS.positiveSF (binary_normalize prec emax z e false) = true ->
  JS.positiveSF (binary_normalize prec emax (- z) e false) = false.
Proof.
  destruct z as [|m|m]; cbn [Z.opp].
  - discriminate.
  - intros _. apply binary_normalize_negative.
  - now rewrite binary_normalize_negative.
Qed.

(** The sign of a difference changes with the order of its operands. *)
Lemma SFsub_antisym X Y :
  JS.positiveSF (SF64sub Y X) = true -> JS.positiveSF (SF64sub X Y) = false.
Proof.
  destruct X as [sx|sx| |sx mx ex], Y as [sy|sy| |sy my ey];
    try (destruct sx); try (destruct sy); try reflexivity; try discriminate.
  all: unfold SF64sub, SFsub; rewrite (Z.min_comm ex ey); cbv zeta;
    set (a := cond_Zopp _ (Zpos (fst (shl_align mx ex _))));
    set (b := cond_Zopp _ (Zpos (fst (shl_align my ey _))));
    replace (a - b)%Z with (- (b - a))%Z by lia; apply binary_normalize_opp.
Qed.

Lemma SFcompare_antisym X Y :
  SFcompare Y X = option_map CompOpp (SFcompare X Y).
Proof.
  destruct X as [sx|sx| |sx mx ex], Y as [sy|sy| |sy my ey];
    try (destruct sx); try (destruct sy); try reflexivity.
  all: cbn [SFcompare option_map]; rewrite (Z.compare_antisym ex ey);
    destruct (Z.compare ex ey); cbn [CompOpp]; try reflexivity;
    repeat f_equal; exact (Pos.compare_antisym mx my).
Qed.

Lemma SFleb_trans X Y Z :
  SFleb X Y = true -> SFleb Y Z = true -> SFleb X Z = true.
Proof.
  unfold SFleb.
  destruct X as [sx|sx| |sx mx ex], Y as [sy|sy| |sy my ey], Z as [sz|sz| |sz mz ez];
    try (destruct sx); try (destruct sy); try (destruct sz);
    cbn [SFcompare]; try easy.
  all: change (Pos.compare_cont Eq) with Pos.compare;
    destruct (Z.compare_spec ex ey), (Z.compare_spec ey ez), (Z.compare_spec ex ez);
    try easy; try lia; subst;
    destruct (Pos.compare_spec mx my), (Pos.compare_spec my mz),
      (Pos.compare_spec mx mz);
    cbn [CompOpp]; try easy; try lia.
Qed.

Local Open Scope float_scope.

Lemma ltb_zero x : (0 <? x) = JS.positiveSF (Prim2SF x).
Proof. now rewrite FloatAxioms.ltb_spec. Qed.

Lemma sub_antisym x y : (0 <? y - x) = true -> (0 <? x - y) = false.
Proof. rewrite !ltb_zero, !FloatAxioms.sub_spec. apply SFsub_antisym. Qed.

Lemma ltb_sub x y : (x <? y) = true -> (0 <? y - x) = true.
Proof.
  rewrite ltb_zero, FloatAxioms.ltb_spec, FloatAxioms.sub_spec.
  intros H. apply SFsub_positive; try apply Prim2SF_valid.
  unfold SFltb in H. now destruct (SFcompare (Prim2SF x) (Prim2SF y)) as [[]|].
Qed.

Lemma is_nan_spec x : is_nan x = false -> Prim2SF x <> S754_nan.
Proof.
  unfold is_nan. rewrite FloatAxioms.eqb_spec. intros H E. rewrite E in H. discriminate.
Qed.

Lemma not_ltb_leb x y :
  is_nan x = false -> is_nan y = false -> (x <? y) = false -> (y <=? x) = true.
Proof.
  intros Hx%is_nan_spec Hy%is_nan_spec. rewrite FloatAxioms.ltb_spec, FloatAxioms.leb_spec.
  unfold SFltb, SFleb. rewrite (SFcompare_antisym (Prim2SF x) (Prim2SF y)).
  destruct (SFcompare (Prim2SF x) (Prim2SF y)) as [[]|] eqn:E; try easy.
  exfalso. destruct (Prim2SF x), (Prim2SF y); try easy; discriminate.
Qed.

(** When the comparator [y - x] is not positive, [y <= x]. *)
Lemma sub_not_positive x y :
  is_nan x = false -> is_nan y = false -> (0 <? y - x) = false -> (y <=? x) = true.
Proof.
  intros Hx Hy H. apply not_ltb_leb; [assumption..|].
  destruct (x <? y) eqn:E; [|reflexivity].
  apply ltb_sub in E. congruence.
Qed.

Lemma leb_trans x y z : (x <=? y) = true -> (y <=? z) = true -> (x <=? z) = true.
Proof. rewrite !FloatAxioms.leb_spec. apply SFleb_trans. Qed.

Lemma is_zero_spec p : is_zero p = true -> exists s, Prim2SF p = S754_zero s.
Proof.
  unfold is_zero. rewrite FloatAxioms.eqb_spec.
  change (Prim2SF PrimFloat.zero) with (S754_zero false).
  destruct (Prim2SF p) as [s|s| |s m e];
    [now exists s | destruct s; discriminate | discriminate
    | destruct s; discriminate].
Qed.

Lemma Prim2SF_inv x v : Prim2SF x = v -> x = SF2Prim v.
Proof. intros <-. symmetry. apply SF2Prim_Prim2SF. Qed.

(** A percentage taken of a previous value of zero is not a finite
    number. *)
Lemma percentage_of_zero c p :
  is_zero p = true ->
  let changePercentage := ((c - p) / p) * 100 in
  changePercentage = nan \/ changePercentage = infinity
  \/ changePercentage = neg_infinity.
Proof.
  intros Hz. cbv zeta. destruct (is_zero_spec p Hz) as [s Hs].
  assert (H : Prim2SF (((c - p) / p) * 100) = S754_nan
              \/ exists b, Prim2SF (((c - p) / p) * 100) = S754_infinity b).
  { rewrite FloatAxioms.mul_spec, FloatAxioms.div_spec, FloatAxioms.sub_spec, Hs.
    change (Prim2SF 100) with (S754_finite false 7036874417766400 (-46)).
    destruct (Prim2SF c) as [sc|sc| |sc mc ec]; destruct s; try destruct sc;
      cbn; eauto. }
  destruct H as [H|[b H]]; apply Prim2SF_inv in H; rewrite H.
  - now left.
  - right. destruct b; [now right|now left].
Qed.

End FloatFacts.

(** ** Objects as property lists *)

Module ObjFacts.

Section Props.

Context {A : Type}.
Implicit Types (o : list (string * A)) (name : string) (v : A).

Lemma obj_get_None name o : obj_get name o = None <-> ~ In name (keys o).
Proof.
  induction o as [|[k x] o IH]; simpl; [easy|].
  destruct (String.eqb_spec k name) as [->|Hne].
  - split; [discriminate|]. intros H. exfalso. apply H. now left.
  - rewrite IH. split; [intros H [E|Hin]; [easy|now apply H]|].
    intros H Hin. apply H. now right.
Qed.

Lemma keys_obj_set name v o : In name (keys o) -> keys (obj_set name v o) = keys o.
Proof.
  induction o as [|[k x] o IH]; simpl; [easy|].
  intros [->|Hin].
  - now rewrite String.eqb_refl.
  - destruct (String.eqb k name); simpl; [reflexivity|]. now rewrite IH.
Qed.

Lemma obj_get_obj_set_eq name v o : obj_get name (obj_set name v o) = Some v.
Proof.
  induction o as [|[k x] o IH]; simpl.
  - now rewrite String.eqb_refl.
  - destruct (String.eqb k name) eqn:E; simpl; now rewrite E.
Qed.

Lemma obj_get_obj_set_ne name name' v o :
  name <> name' -> obj_get name' (obj_set name v o) = obj_get name' o.
Proof.
  intros Hne. induction o as [|[k x] o IH]; simpl.
  - destruct (String.eqb_spec name name'); [contradiction|reflexivity].
  - destruct (String.eqb_spec k name) as [->|Hk]; simpl.
    + destruct (String.eqb_spec name name'); [contradiction|reflexivity].
    + now rewrite IH.
Qed.

Lemma obj_read_own name v o : obj_get name o = Some v -> obj_read name o = Own v.
Proof. unfold obj_read. now intros ->. Qed.

Lemma obj_read_missing name o :
  obj_get name o = None -> inheritedName name = false -> obj_read name o = Missing.
Proof. unfold obj_read. now intros -> ->. Qed.

Lemma obj_read_inherited name o :
  obj_get name o = None -> inheritedName name = true -> obj_read name o = Inherited.
Proof. unfold obj_read. now intros -> ->. Qed.

End Props.

End ObjFacts.

(** ** Comparison of snapshots *)

Module Comparator.

Import ObjFacts.

Local Open Scope float_scope.

Lemma compareStep_keys prev results entry :
  In (fst entry) (keys results) ->
  keys (Gas.compareStep prev results entry) = keys results.
Proof.
  destruct entry as [name current]. simpl. intros Hin.
  destruct (obj_read name (testResults prev)); [| |reflexivity];
    now apply keys_obj_set.
Qed.

Lemma fold_compareStep_keys prev entries results :
  (forall e, In e entries -> In (fst e) (keys results)) ->
  keys (fold_left (Gas.compareStep prev) entries results) = keys results.
Proof.
  revert results. induction entries as [|e entries IH]; intros results H; simpl.
  - reflexivity.
  - rewrite IH.
    + apply compareStep_keys, H. now left.
    + intros e' He'. rewrite compareStep_keys by (apply H; now left).
      apply H. now right.
Qed.

(** What the loop leaves under a name, when no name occurs twice among
    the entries it runs over. *)
Lemma fold_compareStep_get prev entries results name :
  NoDup (keys entries) ->
  obj_get name (fold_left (Gas.compareStep prev) entries results)
  = match obj_get name entries with
    | Some current =>
        match obj_read name (testResults prev) with
        | Own previous => Some (Gas.withComparison current previous)
        | Inherited => Some (Gas.withInherited current)
        | Missing => obj_get name results
        end
    | None => obj_get name results
    end.
Proof.
  revert results. induction entries as [|[k current] entries IH]; intros results Hnd.
  - reflexivity.
  - simpl in Hnd. inversion Hnd as [|? ? Hfresh Hnd']; subst.
    cbn [fold_left obj_get]. rewrite (IH _ Hnd').
    destruct (String.eqb_spec k name) as [->|Hne].
    + assert (Hrest : obj_get name entries = None)
        by (apply obj_get_None; now rewrite <- list_elem_of_In).
      rewrite Hrest. unfold Gas.compareStep.
      destruct (obj_read name (testResults prev)); [| |reflexivity];
        apply obj_get_obj_set_eq.
    + assert (Hstep : obj_get name (Gas.compareStep prev results (k, current))
                      = obj_get name results).
      { unfold Gas.compareStep.
        destruct (obj_read k (testResults prev)); [| |reflexivity];
          now apply obj_get_obj_set_ne. }
      rewrite Hstep. reflexivity.
Qed.

Lemma compareGasSnapshots_keys cur prev :
  keys (testResults (Gas.compareGasSnapshots cur prev)) = keys (testResults cur).
Proof.
  unfold Gas.compareGasSnapshots. cbn [testResults].
  apply fold_compareStep_keys. intros e He. unfold keys. now apply in_map.
Qed.

Lemma compareGasSnapshots_get cur prev name :
  NoDup (keys (testResults cur)) ->
  obj_get name (testResults (Gas.compareGasSnapshots cur prev))
  = match obj_get name (testResults cur) with
    | Some current =>
        match obj_read name (testResults prev) with
        | Own previous => Some (Gas.withComparison current previous)
        | Inherited => Some (Gas.withInherited current)
        | Missing => Some current
        end
    | None => None
    end.
Proof.
  intros Hnd. unfold Gas.compareGasSnapshots. cbn [testResults].
  rewrite fold_compareStep_get by exact Hnd.
  destruct (obj_get name (testResults cur)) as [current|] eqn:E; [|reflexivity].
  now destruct (obj_read name (testResults prev)).
Qed.

(** C2, as the code has it.  An entry present in both snapshots gets
    [change = current - previous] and [changePercentage = (change /
    previous) * 100], computed in binary64 and without a special case:
    for a previous value of zero the comparison is attached all the same
    and its percentage is NaN or an infinity. *)
Theorem compareGasSnapshots_comparison cur prev name current previous :
  NoDup (keys (testResults cur)) ->
  obj_get name (testResults cur) = Some current ->
  obj_get name (testResults prev) = Some previous ->
  let change := gasUsed current - gasUsed previous in
  let changePercentage := (change / gasUsed previous) * 100 in
  obj_get name (testResults (Gas.compareGasSnapshots cur prev))
  = Some {| gasUsed := gasUsed current;
            comparison := Some {| previous := Some (gasUsed previous);
                                  change := Some change;
                                  changePercentage := Some changePercentage |} |}
  /\ (is_zero (gasUsed previous) = true ->
      changePercentage = nan \/ changePercentage = infinity
      \/ changePercentage = neg_infinity).
Proof.
  intros Hnd Hcur Hprev. cbv zeta. split.
  - rewrite (compareGasSnapshots_get cur prev name Hnd), Hcur.
    now rewrite (obj_read_own _ _ _ Hprev).
  - apply FloatFacts.percentage_of_zero.
Qed.

Lemma compareGasSnapshots_comparison_witness :
  obj_get "a" (testResults (Gas.compareGasSnapshots Examples.current Examples.previousRun))
  = Some {| gasUsed := 20000;
            comparison := Some {| previous := Some 22000;
                                  change := Some (20000 - 22000);
                                  changePercentage :=
                                    Some (((20000 - 22000) / 22000) * 100) |} |}.
Proof.
  refine (proj1 (compareGasSnapshots_comparison Examples.current Examples.previousRun
                   "a" (Examples.entry 20000) (Examples.entry 22000) _ eq_refl eq_refl)).
  apply (bool_decide_unpack _). vm_compute. exact I.
Defined.

(** C2, as stated: with a previous value of zero the division is carried
    out and the percentage is there, as plus infinity. *)
Lemma compareGasSnapshots_divides_by_zero :
  obj_get "a"
    (testResults (Gas.compareGasSnapshots Examples.currentOfFive Examples.previousOfZero))
  = Some {| gasUsed := 5;
            comparison := Some {| previous := Some 0;
                                  change := Some 5;
                                  changePercentage := Some infinity |} |}.
Proof. vm_compute. reflexivity. Qed.

(** What holds of the entry set.  The result has the names of the
    current snapshot, in the same order, and a name the current snapshot
    does not have is not in the result.  Under a name both snapshots
    have, the entry carries a comparison.  Under a name only the current
    snapshot has, the entry is the current one as it is, unless the name
    is one of [Object.prototype]: then the member found there is taken
    for the previous entry and a comparison without a previous value,
    with NaN for the change and the percentage, is attached. *)
Lemma compareGasSnapshots_entries cur prev :
  NoDup (keys (testResults cur)) ->
  let result := testResults (Gas.compareGasSnapshots cur prev) in
  keys result = keys (testResults cur)
  /\ (forall name current previous,
        obj_get name (testResults cur) = Some current ->
        obj_get name (testResults prev) = Some previous ->
        exists c, obj_get name result
                  = Some {| gasUsed := gasUsed current; comparison := Some c |})
  /\ (forall name current,
        obj_get name (testResults cur) = Some current ->
        obj_get name (testResults prev) = None ->
        In name objectPrototypeNames ->
        obj_get name result
        = Some {| gasUsed := gasUsed current;
                  comparison := Some {| previous := None; change := Some nan;
                                        changePercentage := Some nan |} |})
  /\ (forall name current,
        obj_get name (testResults cur) = Some current ->
        obj_get name (testResults prev) = None ->
        ~ In name objectPrototypeNames ->
        obj_get name result = Some current)
  /\ (forall name,
        obj_get name (testResults cur) = None -> obj_get name result = None).
Proof.
  intros Hnd. cbv zeta.
  assert (Hinherited : forall name,
             inheritedName name = true <-> In name objectPrototypeNames).
  { intros name. unfold inheritedName. rewrite existsb_exists. split.
    - intros (x & Hx & ->%String.eqb_eq). exact Hx.
    - intros Hin. exists name. split; [exact Hin|apply String.eqb_refl]. }
  split_and!.
  - apply compareGasSnapshots_keys.
  - intros name current previous Hcur Hprev.
    rewrite (compareGasSnapshots_get cur prev name Hnd), Hcur.
    rewrite (obj_read_own _ _ _ Hprev). unfold Gas.withComparison. eauto.
  - intros name current Hcur Hprev Hin.
    rewrite (compareGasSnapshots_get cur prev name Hnd), Hcur.
    rewrite (obj_read_inherited _ _ Hprev); [reflexivity|now apply Hinherited].
  - intros name current Hcur Hprev Hout.
    rewrite (compareGasSnapshots_get cur prev name Hnd), Hcur.
    rewrite (obj_read_missing _ _ Hprev); [reflexivity|].
    destruct (inheritedName name) eqn:E; [|reflexivity].
    now apply Hinherited in E.
  - intros name Hcur.
    now rewrite (compareGasSnapshots_get cur prev name Hnd), Hcur.
Qed.

(** C5, at an entry that only the current snapshot has and whose name
    is a member of [Object.prototype]: the previous snapshot has no
    entries at all, and still the entry [toString] of the result has a
    comparison, made of [undefined] and two NaN. *)
Theorem compareGasSnapshots_inherited_name :
  obj_get "toString" (testResults Examples.previousOfNothing) = None
  /\ obj_get "toString"
       (testResults (Gas.compareGasSnapshots Examples.currentOfToString
                       Examples.previousOfNothing))
     = Some {| gasUsed := 5;
               comparison := Some {| previous := None; change := Some nan;
                                     changePercentage := Some nan |} |}.
Proof. split; reflexivity. Qed.

End Comparator.

(** ** History *)

Module History.

Lemma slice_last_length {A : Type} n (a : list A) :
  length (Gas.slice_last n a) = min n (length a).
Proof. unfold Gas.slice_last. rewrite length_drop. lia. Qed.

Lemma slice_last_suffix {A : Type} n (a : list A) :
  a = (take (length a - n) a ++ Gas.slice_last n a)%list.
Proof. unfold Gas.slice_last. now rewrite take_drop. Qed.

(** *** What is written *)

Lemma Json_induction (P : Json -> Prop) :
  P JNull -> (forall b, P (JBool b)) -> (forall x, P (JNumber x)) ->
  (forall text, P (JString text)) ->
  (forall items, Forall P items -> P (JArray items)) ->
  (forall props, Forall (fun prop => P (snd prop)) props -> P (JObject props)) ->
  forall v, P v.
Proof.
  intros Hnull Hbool Hnumber Hstring Harray Hobject.
  fix IH 1. intros [|b|x|text|items|props].
  - exact Hnull.
  - apply Hbool.
  - apply Hnumber.
  - apply Hstring.
  - apply Harray. revert items. fix IHitems 1.
    intros [|v items]; constructor; [apply IH|apply IHitems].
  - apply Hobject. revert props. fix IHprops 1.
    intros [|prop props]; constructor; [apply IH|apply IHprops].
Qed.

Lemma storedNumber_stored x : JSON.stored (JSON.storedNumber x) = JSON.storedNumber x.
Proof.
  unfold JSON.storedNumber.
  destruct (is_nan x || is_infinity x) eqn:E; [reflexivity|].
  destruct (is_zero x) eqn:Ez; [reflexivity|].
  cbn [JSON.stored]. unfold JSON.storedNumber. now rewrite E, Ez.
Qed.

(** Writing what was read back changes nothing. *)
Lemma stored_idempotent v : JSON.stored (JSON.stored v) = JSON.stored v.
Proof.
  induction v as [|b|x|text|items IH|props IH] using Json_induction;
    try reflexivity.
  - apply storedNumber_stored.
  - change (JArray (map JSON.stored (map JSON.stored items))
            = JArray (map JSON.stored items)).
    f_equal. induction IH as [|v items Hv _ IHitems]; [reflexivity|].
    cbn [map]. now rewrite Hv, IHitems.
  - change (JObject (map (fun prop => (fst prop, JSON.stored (snd prop)))
                       (map (fun prop => (fst prop, JSON.stored (snd prop))) props))
            = JObject (map (fun prop => (fst prop, JSON.stored (snd prop))) props)).
    f_equal. induction IH as [|prop props Hprop _ IHprops]; [reflexivity|].
    cbn [map fst snd]. now rewrite Hprop, IHprops.
Qed.

(** *** A snapshot is pushed whole *)

Lemma comparisonToJson_inj c c' :
  Gas.comparisonToJson c = Gas.comparisonToJson c' -> c = c'.
Proof.
  destruct c as [[p|] [c|] [cp|]], c' as [[p'|] [c'|] [cp'|]];
    unfold Gas.comparisonToJson; cbn; intros H;
    first [discriminate H | now inversion H].
Qed.

Lemma testResultToJson_inj e e' :
  Gas.testResultToJson e = Gas.testResultToJson e' -> e = e'.
Proof.
  destruct e as [g [c|]], e' as [g' [c'|]];
    unfold Gas.testResultToJson; cbn [gasUsed comparison]; intros H;
    try discriminate H.
  - injection H as -> H. f_equal. f_equal.
    apply comparisonToJson_inj. unfold Gas.comparisonToJson. now rewrite H.
  - now injection H as ->.
Qed.

Lemma toJson_inj a b : Gas.toJson a = Gas.toJson b -> a = b.
Proof.
  destruct a as [ts sha entries], b as [ts' sha' entries'].
  unfold Gas.toJson. cbn [timestamp commitSha testResults].
  intros H. injection H as -> -> H. f_equal.
  revert entries' H. induction entries as [|[name e] entries IH];
    intros [|[name' e'] entries'] H; try discriminate H; [reflexivity|].
  cbn [map fst snd] in H.
  assert (Hhead : name = name' /\ Gas.testResultToJson e = Gas.testResultToJson e'
                  /\ map (fun prop => (fst prop, Gas.testResultToJson (snd prop))) entries
                     = map (fun prop => (fst prop, Gas.testResultToJson (snd prop))) entries')
    by (split_and!; congruence).
  destruct Hhead as (-> & ->%testResultToJson_inj & Hrest).
  now rewrite (IH entries' Hrest).
Qed.

Lemma loadHistory_cases stored :
  (stored = Gas.Unreadable \/ exists value, stored = Gas.Parsed value /\ JSON.falsy value = true) ->
  Gas.loadHistory stored = Some [].
Proof.
  intros [->|(value & -> & Hfalsy)]; [reflexivity|].
  unfold Gas.loadHistory. now rewrite Hfalsy.
Qed.

(** C6.  Appending pushes the record, whole, at the end of the log and
    keeps the last [min 100 (length + 1)] entries: what is dropped is
    dropped from the front and the length never exceeds 100.  On a log
    of 100 entries the result has 100 entries and starts with the second
    entry of the log.  [addGasSnapshotToHistory] takes the log from the
    file, an empty one when there is no file or its value is falsy, and
    writes the result; the file then holds the result entry by entry as
    [JSON.stringify] writes it, a NaN or an infinity as [null] and
    minus zero as [0], which changes nothing in an entry that was read
    from a file this function wrote.  It answers true only after such a
    write, so a stored history has at most 100 entries; on a stored
    value that is neither falsy nor an array, and on a failed write, it
    answers false and the file is as before. *)
Theorem appendHistory_window (log : list Json) (record : GasSnapshot) :
  let pushed := Gas.toJson record in
  let result := Gas.appendHistory log pushed in
  let file := map JSON.stored result in
  (exists dropped,
      (log ++ [pushed])%list = (dropped ++ result)%list
      /\ length dropped = length log + 1 - 100)
  /\ length result = min 100 (length log + 1)
  /\ length result <= 100
  /\ last result = Some pushed
  /\ (forall other, Gas.toJson other = pushed -> other = record)
  /\ (length log = 100 -> length result = 100 /\ result !! 0 = log !! 1)
  /\ length file = length result
  /\ (forall i, file !! i = JSON.stored <$> result !! i)
  /\ (forall x,
        JSON.stored (JNumber x)
        = if is_nan x || is_infinity x then JNull
          else if is_zero x then JNumber 0%float else JNumber x)
  /\ (forall v, JSON.stored (JSON.stored v) = JSON.stored v)
  /\ Gas.addGasSnapshotToHistory record (Gas.Parsed (JArray log)) true
     = (true, Gas.Parsed (JArray file))
  /\ (forall stored,
        stored = Gas.Unreadable
        \/ (exists value, stored = Gas.Parsed value /\ JSON.falsy value = true) ->
        Gas.addGasSnapshotToHistory record stored true
        = (true, Gas.Parsed (JArray [JSON.stored pushed])))
  /\ (forall stored writeSucceeds after,
        Gas.addGasSnapshotToHistory record stored writeSucceeds = (true, after) ->
        writeSucceeds = true
        /\ exists history, after = Gas.Parsed (JArray history) /\ length history <= 100)
  /\ (forall stored writeSucceeds,
        writeSucceeds = false
        \/ (exists value, stored = Gas.Parsed value /\ JSON.falsy value = false
                          /\ forall items, value <> JArray items) ->
        Gas.addGasSnapshotToHistory record stored writeSucceeds = (false, stored)).
Proof.
  cbv zeta. unfold Gas.appendHistory.
  set (pushed := Gas.toJson record).
  assert (Hlen : length (Gas.slice_last 100 (log ++ [pushed]))
                 = min 100 (length log + 1)).
  { rewrite slice_last_length, length_app. simpl. lia. }
  split_and!.
  - exists (take (length (log ++ [pushed]) - 100) (log ++ [pushed])).
    split; [apply slice_last_suffix|].
    rewrite length_take, length_app. simpl. lia.
  - exact Hlen.
  - rewrite Hlen. lia.
  - rewrite last_lookup, Hlen. unfold Gas.slice_last.
    rewrite lookup_drop, length_app. cbn [length].
    match goal with |- _ !! ?i = _ => replace i with (length log) by lia end.
    apply list_lookup_middle. reflexivity.
  - intros other H. now apply toJson_inj.
  - intros H100. split; [rewrite Hlen; lia|].
    unfold Gas.slice_last. rewrite length_app, H100. simpl.
    rewrite lookup_drop. simpl. apply lookup_app_l. lia.
  - apply length_map.
  - intros i. apply list_lookup_fmap.
  - reflexivity.
  - apply stored_idempotent.
  - reflexivity.
  - intros stored Hstored. unfold Gas.addGasSnapshotToHistory.
    now rewrite (loadHistory_cases stored Hstored).
  - intros stored writeSucceeds after H.
    unfold Gas.addGasSnapshotToHistory in H.
    destruct (Gas.loadHistory stored) as [history|]; [|discriminate].
    destruct writeSucceeds; [|discriminate].
    injection H as <-. split; [reflexivity|]. eexists. split; [reflexivity|].
    rewrite length_map. unfold Gas.appendHistory. rewrite slice_last_length. lia.
  - intros stored writeSucceeds [->|(value & -> & Hfalsy & Harray)];
      unfold Gas.addGasSnapshotToHistory.
    + now destruct (Gas.loadHistory stored).
    + unfold Gas.loadHistory. rewrite Hfalsy.
      destruct value; try reflexivity. now destruct (Harray items).
Qed.

Lemma appendHistory_window_witness :
  length (Gas.appendHistory Examples.hundred (Gas.toJson Examples.current)) = 100
  /\ Gas.appendHistory Examples.hundred (Gas.toJson Examples.current) !! 0
     = Some (Gas.toJson (Examples.numbered 1)).
Proof.
  destruct (appendHistory_window Examples.hundred Examples.current)
    as (_ & _ & _ & _ & _ & H & _).
  apply H. reflexivity.
Defined.

End History.

(** ** Report *)

Module Report.

Local Open Scope float_scope.

(** *** The sort *)

Section Sorting.

Context {A : Type} (cmp : A -> A -> float).

(** The comparator leaves [a] before [b]. *)
Local Abbreviation inOrder := (fun a b => (0 <? cmp a b) = false).

Hypothesis cmp_antisym : forall a b, (0 <? cmp a b) = true -> (0 <? cmp b a) = false.

Lemma sortInsert_perm a l : Permutation (Gas.sortInsert cmp a l) (a :: l).
Proof.
  induction l as [|b l IH]; simpl; [reflexivity|].
  destruct (0 <? cmp a b); [|reflexivity].
  rewrite IH. apply perm_swap.
Qed.

Lemma sort_perm l : Permutation (Gas.sort cmp l) l.
Proof.
  unfold Gas.sort. induction l as [|a l IH]; cbn [fold_right]; [reflexivity|].
  rewrite sortInsert_perm. now apply perm_skip.
Qed.

Lemma sortInsert_sorted a l :
  Sorted inOrder l -> Sorted inOrder (Gas.sortInsert cmp a l).
Proof.
  induction l as [|b l IH]; intros Hs; simpl.
  - repeat constructor.
  - destruct (0 <? cmp a b) eqn:E.
    + inversion Hs as [|? ? Hs' Hhd]; subst.
      constructor; [now apply IH|].
      destruct l as [|c l]; simpl.
      * constructor. now apply cmp_antisym.
      * destruct (0 <? cmp a c); constructor.
        -- now inversion Hhd.
        -- now apply cmp_antisym.
    + constructor; [exact Hs|]. now constructor.
Qed.

Lemma sort_sorted l : Sorted inOrder (Gas.sort cmp l).
Proof.
  unfold Gas.sort. induction l as [|a l IH]; cbn [fold_right]; [constructor|].
  now apply sortInsert_sorted.
Qed.

(** The sort is stable: it leaves alone a list that is in order, one of
    ties in particular. *)
Lemma sort_in_order l : Sorted inOrder l -> Gas.sort cmp l = l.
Proof.
  unfold Gas.sort. induction l as [|a l IH]; intros Hs; cbn [fold_right];
    [reflexivity|].
  inversion Hs as [|? ? Hs' Hhd]; subst. rewrite (IH Hs').
  destruct l as [|b l]; cbn [Gas.sortInsert]; [reflexivity|].
  inversion Hhd as [|? ? Hab]; subst. now rewrite Hab.
Qed.

End Sorting.

Lemma Sorted_weaken {A : Type} (R R' : A -> A -> Prop) l :
  (forall a b, R a b -> R' a b) -> Sorted R l -> Sorted R' l.
Proof.
  intros Himpl. induction 1 as [|a l Hs IH Hhd]; constructor; [exact IH|].
  destruct Hhd; constructor. now apply Himpl.
Qed.

(** *** The rows *)

Lemma orZero_not_nan x : is_nan (Gas.orZero x) = false.
Proof.
  unfold Gas.orZero. destruct x as [v|]; [|reflexivity].
  destruct (is_nan v) eqn:E; cbn [orb]; [reflexivity|].
  now destruct (is_zero v).
Qed.

(** [x || 0] is [x] itself, as a number, unless [x] is NaN. *)
Lemma orZero_number v : is_nan v = false -> (Gas.orZero (Some v) =? v) = true.
Proof.
  intros Hnan. unfold Gas.orZero. rewrite Hnan. cbn [orb].
  destruct (is_zero v) eqn:Ez.
  - destruct (FloatFacts.is_zero_spec v Ez) as [s Hs].
    rewrite FloatAxioms.eqb_spec, Hs. reflexivity.
  - unfold is_nan in Hnan. now destruct (v =? v).
Qed.

Lemma testsWithComparison_In results name :
  In name (Gas.testsWithComparison results)
  <-> In name (keys results) /\ Gas.comparisonOf results name <> None.
Proof.
  unfold Gas.testsWithComparison. rewrite filter_In.
  now rewrite bool_decide_eq_true.
Qed.

Lemma sortedTests_perm results :
  Permutation (Gas.sortedTests results) (Gas.testsWithComparison results).
Proof. apply sort_perm. Qed.

(** The sorted names go by falling percentage, any two of them. *)
Lemma sortedTests_descending results :
  StronglySorted
    (fun a b => (Gas.changePercentageOrZero results b
                 <=? Gas.changePercentageOrZero results a) = true)
    (Gas.sortedTests results).
Proof.
  apply Sorted_StronglySorted.
  - intros a b c Hab Hbc. exact (FloatFacts.leb_trans _ _ _ Hbc Hab).
  - eapply Sorted_weaken; [|apply sort_sorted].
    + intros a b H. cbv beta in H.
      apply FloatFacts.sub_not_positive; [apply orZero_not_nan..|exact H].
    + intros a b. apply FloatFacts.sub_antisym.
Qed.

Lemma indicator_iff change changePercentage :
  Gas.indicator change changePercentage <> EmptyString
  <-> (Gas.GAS_SNAPSHOT_COMPARISON_THRESHOLD <=? abs changePercentage) = true.
Proof.
  unfold Gas.indicator.
  destruct (Gas.GAS_SNAPSHOT_COMPARISON_THRESHOLD <=? abs changePercentage).
  - split; [reflexivity|]. intros _. now destruct (0 <? change).
  - split; [congruence|discriminate].
Qed.

Section Rendering.

Variable numberToString : float -> string.
Variable toFixed2 : float -> string.

Local Abbreviation generateGasReport := (Gas.generateGasReport numberToString toFixed2).
Local Abbreviation reportRow := (Gas.reportRow numberToString toFixed2).
Local Abbreviation reportSummary := (Gas.reportSummary numberToString).

(** The sort key, the change and the test for a comparison, written
    out on the record. *)
Local Abbreviation percentageOf results :=
  (fun name : string =>
     match obj_get name results with
     | Some {| comparison := Some {| changePercentage := Some v |} |} =>
         if is_nan v || is_zero v then 0 else v
     | _ => 0
     end).

Local Abbreviation changeOf results :=
  (fun name : string =>
     match obj_get name results with
     | Some {| comparison := Some {| change := Some v |} |} =>
         if is_nan v || is_zero v then 0 else v
     | _ => 0
     end).

Local Abbreviation hasComparison results :=
  (fun name : string =>
     match obj_get name results with
     | Some {| comparison := Some _ |} => true
     | _ => false
     end).

Lemma percentageOf_spec results name :
  percentageOf results name = Gas.changePercentageOrZero results name.
Proof.
  unfold Gas.changePercentageOrZero, Gas.comparisonOf, Gas.orZero.
  destruct (obj_get name results) as [[g [[p c [cp|]]|]]|]; reflexivity.
Qed.

Lemma changeOf_spec results name : changeOf results name = Gas.changeOrZero results name.
Proof.
  unfold Gas.changeOrZero, Gas.comparisonOf, Gas.orZero.
  destruct (obj_get name results) as [[g [[p [c|] cp]|]]|]; reflexivity.
Qed.

Lemma hasComparison_spec results name :
  hasComparison results name = bool_decide (Gas.comparisonOf results name <> None).
Proof.
  unfold Gas.comparisonOf.
  destruct (obj_get name results) as [[g [c|]]|]; cbn [comparison].
  - symmetry. now apply bool_decide_eq_true.
  - symmetry. apply bool_decide_eq_false. intros H. now apply H.
  - symmetry. apply bool_decide_eq_false. intros H. now apply H.
Qed.

Lemma percentageOf_leb results a b :
  (Gas.changePercentageOrZero results b <=? Gas.changePercentageOrZero results a) = true ->
  (percentageOf results b <=? percentageOf results a) = true.
Proof.
  intros H.
  pose proof (percentageOf_spec results a) as Ea.
  pose proof (percentageOf_spec results b) as Eb.
  cbv beta in Ea, Eb |- *. now rewrite Ea, Eb.
Qed.

Lemma StronglySorted_weaken {A : Type} (R R' : A -> A -> Prop) l :
  (forall a b, R a b -> R' a b) -> StronglySorted R l -> StronglySorted R' l.
Proof.
  intros Himpl. induction 1 as [|a l Hl IH Hall]; constructor; [exact IH|].
  rewrite Forall_forall in *. intros b Hb. apply Himpl, Hall, Hb.
Qed.

Lemma length_filter_ext {A : Type} (f g : A -> bool) l :
  (forall a, f a = g a) -> length (List.filter f l) = length (List.filter g l).
Proof. intros H. now rewrite (List.filter_ext f g H). Qed.

(** C7.  An empty record renders as the text [No gas snapshot data
    available.], a record none of whose entries has a comparison as the
    text [No comparison data available for gas snapshot.].  Otherwise
    the report is the header, one row per sorted name and the summary;
    the sorted names are the names with a comparison, each once, by
    falling [changePercentage] (an absent, NaN or zero percentage
    counting as 0, any other counting as itself).  A row ends with a
    marker exactly when the absolute value of its percentage is at least
    5: the red one when the change is above zero, the green one
    otherwise.  The markers are given byte for byte as the source file
    has them. *)
Theorem generateGasReport_cases (snapshot : GasSnapshot) :
  let results := testResults snapshot in
  let newline := String (ascii_of_nat 10) EmptyString in
  let compared name :=
    match obj_get name results with
    | Some {| comparison := Some _ |} => true
    | _ => false
    end in
  let percentage name :=
    match obj_get name results with
    | Some {| comparison := Some {| changePercentage := Some v |} |} =>
        if is_nan v || is_zero v then 0 else v
    | _ => 0
    end in
  let changed name :=
    match obj_get name results with
    | Some {| comparison := Some {| change := Some v |} |} =>
        if is_nan v || is_zero v then 0 else v
    | _ => 0
    end in
  let marker change changePercentage :=
    if 5 <=? abs changePercentage
    then (if 0 <? change then " ðŸ”´" else " ðŸŸ¢")
    else EmptyString in
  let sorted := Gas.sortedTests results in
  let count f := numberToString (Gas.numberOfZ (Z.of_nat (length (List.filter f sorted)))) in
  (keys results = [] -> generateGasReport snapshot = "No gas snapshot data available.")
  /\ (keys results <> [] ->
      (forall name, In name (keys results) -> compared name = false) ->
      generateGasReport snapshot = "No comparison data available for gas snapshot.")
  /\ ((exists name, In name (keys results) /\ compared name = true) ->
      generateGasReport snapshot
      = "## Gas Snapshot Comparison" +:+ newline +:+ newline
        +:+ "| Test | Current Gas | Previous Gas | Change | % Change |" +:+ newline
        +:+ "|------|-------------|--------------|--------|----------|" +:+ newline
        +:+ String.concat EmptyString (map (reportRow results) sorted)
        +:+ newline +:+ "### Summary" +:+ newline +:+ newline
        +:+ "- ðŸ”´ Gas increases: " +:+ count (fun name => 0 <? changed name)
        +:+ newline
        +:+ "- ðŸŸ¢ Gas decreases: " +:+ count (fun name => changed name <? 0)
        +:+ newline
        +:+ "- âšª Unchanged: " +:+ count (fun name => changed name =? 0)
        +:+ newline
        +:+ "- Total tests compared: " +:+ count (fun _ => true) +:+ newline)
  /\ Permutation sorted (List.filter compared (keys results))
  /\ (forall name, In name sorted <-> In name (keys results) /\ compared name = true)
  /\ StronglySorted (fun a b => (percentage b <=? percentage a) = true) sorted
  /\ (forall name gas c,
        obj_get name results = Some {| gasUsed := gas; comparison := Some c |} ->
        let change := default 0 (change c) in
        let changePercentage := default 0 (changePercentage c) in
        reportRow results name
        = "| " +:+ name +:+ " | " +:+ numberToString gas +:+ " | "
          +:+ match previous c with
              | Some v => numberToString v
              | None => "undefined"
              end
          +:+ " | "
          +:+ (if 0 <? change then "+" +:+ numberToString change
               else numberToString change)
          +:+ " | " +:+ toFixed2 changePercentage +:+ "%"
          +:+ marker change changePercentage +:+ " |" +:+ newline
        /\ (marker change changePercentage <> EmptyString
            <-> (5 <=? abs changePercentage) = true)).
Proof.
  cbv zeta.
  assert (Hfilter : List.filter (hasComparison (testResults snapshot))
                      (keys (testResults snapshot))
                    = Gas.testsWithComparison (testResults snapshot)).
  { unfold Gas.testsWithComparison. apply List.filter_ext.
    intros name. apply hasComparison_spec. }
  assert (Hcompared : forall name,
             hasComparison (testResults snapshot) name = true
             <-> Gas.comparisonOf (testResults snapshot) name <> None).
  { intros name. rewrite hasComparison_spec. apply bool_decide_eq_true. }
  split_and!.
  - intros Hempty. unfold Gas.generateGasReport. now rewrite Hempty.
  - intros Hne Hnone. unfold Gas.generateGasReport.
    destruct (keys (testResults snapshot)) as [|k ks] eqn:Ek; [congruence|].
    cbn [length Nat.eqb].
    assert (Gas.testsWithComparison (testResults snapshot) = []) as ->; [|reflexivity].
    destruct (Gas.testsWithComparison (testResults snapshot)) as [|n ns] eqn:E;
      [reflexivity|].
    assert (Hin : In n (Gas.testsWithComparison (testResults snapshot)))
      by (rewrite E; now left).
    apply testsWithComparison_In in Hin as [Hin Hsome].
    apply Hcompared in Hsome. rewrite Ek in Hin.
    rewrite (Hnone n Hin) in Hsome. discriminate.
  - intros (name & Hin & Hsome). unfold Gas.generateGasReport.
    destruct (keys (testResults snapshot)) as [|k ks] eqn:Ek; [easy|].
    cbn [length Nat.eqb].
    assert (Hin' : In name (Gas.testsWithComparison (testResults snapshot)))
      by (apply testsWithComparison_In; split;
          [rewrite Ek; exact Hin|now apply Hcompared]).
    destruct (Gas.testsWithComparison (testResults snapshot)) as [|n ns] eqn:E;
      [easy|].
    cbn [length Nat.eqb]. cbv zeta.
    rewrite JSFacts.fold_left_append.
    unfold Gas.REPORT_HEADER, Gas.reportSummary, Gas.countWhere, JS.nl, JS.LF. cbv zeta.
    rewrite !JSFacts.append_assoc.
    rewrite (length_filter_ext _ _ _ (fun name => f_equal (fun v => 0 <? v)
                                        (changeOf_spec (testResults snapshot) name))).
    rewrite (length_filter_ext _ _ _ (fun name => f_equal (fun v => v <? 0)
                                        (changeOf_spec (testResults snapshot) name))).
    rewrite (length_filter_ext _ _ _ (fun name => f_equal (fun v => v =? 0)
                                        (changeOf_spec (testResults snapshot) name))).
    reflexivity.
  - rewrite Hfilter. apply sortedTests_perm.
  - intros name. rewrite Hcompared, <- testsWithComparison_In.
    split; apply Permutation_in; [|symmetry]; apply sortedTests_perm.
  - apply (StronglySorted_weaken _ _ _ (fun a b => percentageOf_leb (testResults snapshot) a b)),
      sortedTests_descending.
  - intros name gas c Hget. split.
    + unfold Gas.reportRow. rewrite Hget. reflexivity.
    + destruct (5 <=? abs (default 0 (changePercentage c))).
      * split; [reflexivity|]. intros _. now destruct (0 <? default 0 (change c)).
      * split; [intros H; now contradict H|discriminate].
Qed.

End Rendering.

Lemma generateGasReport_cases_witness :
  Gas.sortedTests (testResults Examples.compared)
  = ["test_gas_increase()"; "test_gas_unchanged()"; "test_gas_decrease()"]
  /\ (forall name,
        In name (Gas.sortedTests (testResults Examples.compared))
        <-> In name (keys (testResults Examples.compared))
            /\ match obj_get name (testResults Examples.compared) with
               | Some {| comparison := Some _ |} => true
               | _ => false
               end = true)
  /\ Gas.generateGasReport (fun _ => "n") (fun _ => "n.nn") Examples.previousOfNothing
     = "No gas snapshot data available."
  /\ Gas.generateGasReport (fun _ => "n") (fun _ => "n.nn") Examples.current
     = "No comparison data available for gas snapshot.".
Proof.
  destruct (generateGasReport_cases (fun _ => "n") (fun _ => "n.nn") Examples.compared)
    as (_ & _ & _ & _ & Hnames & _).
  destruct (generateGasReport_cases (fun _ => "n") (fun _ => "n.nn")
              Examples.previousOfNothing) as (Hempty & _).
  destruct (generateGasReport_cases (fun _ => "n") (fun _ => "n.nn") Examples.current)
    as (_ & Hnone & _).
  split_and!.
  - vm_compute. reflexivity.
  - exact Hnames.
  - now apply Hempty.
  - apply Hnone; [discriminate|]. intros name [<-|[<-|[]]]; reflexivity.
Defined.

End Report.

(** ** Parsing *)

Module Parser.

Lemma append_cons c (s t : string) : String c s +:+ t = String c (s +:+ t).
Proof. reflexivity. Qed.

Section MatcherFacts.

Context {R : Type}.
Implicit Types (p : ascii -> bool) (k : string -> string -> option R).

(** What a combinator found is a run of the class followed by what the
    rest of the pattern found. *)
Lemma lazyStar_sound p k s : forall seen r,
  Gas.lazyStar p k seen s = Some r ->
  exists run rest, s = run +:+ rest /\ JS.forallChars p run = true
                   /\ k (seen +:+ run) rest = Some r.
Proof.
  induction s as [|c s IH]; intros seen r H; cbn [Gas.lazyStar] in H.
  - destruct (k seen EmptyString) eqn:E; [|discriminate].
    exists EmptyString, EmptyString. split_and!; [reflexivity..|].
    rewrite JSFacts.append_empty_r. congruence.
  - destruct (k seen (String c s)) eqn:E.
    + exists EmptyString, (String c s). split_and!; [reflexivity..|].
      rewrite JSFacts.append_empty_r. congruence.
    + destruct (p c) eqn:Ec; [|discriminate].
      destruct (IH _ _ H) as (run & rest & -> & Hrun & Hk).
      exists (String c run), rest. rewrite JSFacts.append_assoc in Hk.
      cbn [JS.forallChars]. now rewrite Ec, Hrun.
Qed.

Lemma greedyStar_sound p k s : forall seen r,
  Gas.greedyStar p k seen s = Some r ->
  exists run rest, s = run +:+ rest /\ JS.forallChars p run = true
                   /\ k (seen +:+ run) rest = Some r.
Proof.
  induction s as [|c s IH]; intros seen r H; cbn [Gas.greedyStar] in H.
  - exists EmptyString, EmptyString. split_and!; [reflexivity..|].
    now rewrite JSFacts.append_empty_r.
  - assert (Hstop : k seen (String c s) = Some r ->
                    exists run rest, String c s = run +:+ rest
                      /\ JS.forallChars p run = true
                      /\ k (seen +:+ run) rest = Some r).
    { intros Hk. exists EmptyString, (String c s). split_and!; [reflexivity..|].
      now rewrite JSFacts.append_empty_r. }
    destruct (p c) eqn:Ec; [|now apply Hstop].
    destruct (Gas.greedyStar p k (seen +:+ String c EmptyString) s) eqn:E;
      [|now apply Hstop].
    injection H as ->.
    destruct (IH _ _ E) as (run & rest & -> & Hrun & Hk).
    exists (String c run), rest. rewrite JSFacts.append_assoc in Hk.
    cbn [JS.forallChars]. now rewrite Ec, Hrun.
Qed.

Lemma greedyPlus_sound p k s r :
  Gas.greedyPlus p k s = Some r ->
  exists run rest, s = run +:+ rest /\ run <> EmptyString
                   /\ JS.forallChars p run = true /\ k run rest = Some r.
Proof.
  destruct s as [|c s]; cbn [Gas.greedyPlus]; [discriminate|].
  destruct (p c) eqn:Ec; [|discriminate]. intros H.
  destruct (greedyStar_sound _ _ _ _ _ H) as (run & rest & -> & Hrun & Hk).
  exists (String c run), rest. cbn [JS.forallChars]. now rewrite Ec, Hrun.
Qed.

Lemma stripPrefix_sound t : forall s rest,
  Gas.stripPrefix t s = Some rest -> s = t +:+ rest.
Proof.
  induction t as [|a t IH]; intros s rest H; cbn [Gas.stripPrefix] in H.
  - now injection H as ->.
  - destruct s as [|b s]; [discriminate|].
    destruct (Ascii.eqb_spec a b) as [->|]; [|discriminate].
    rewrite append_cons. f_equal. now apply IH.
Qed.

Lemma stripPrefix_complete t rest : Gas.stripPrefix t (t +:+ rest) = Some rest.
Proof.
  induction t as [|a t IH]; [reflexivity|].
  rewrite append_cons. cbn [Gas.stripPrefix]. now rewrite Ascii.eqb_refl.
Qed.

(** A combinator finds a match whenever some run of the class lets the
    rest of the pattern match. *)
Lemma lazyStar_complete p k run : forall seen rest,
  JS.forallChars p run = true -> is_Some (k (seen +:+ run) rest) ->
  is_Some (Gas.lazyStar p k seen (run +:+ rest)).
Proof.
  induction run as [|c run IH]; intros seen rest Hrun Hk.
  - rewrite JSFacts.append_empty_r in Hk. destruct Hk as [r Hk].
    change (EmptyString +:+ rest) with rest.
    destruct rest; cbn [Gas.lazyStar]; now rewrite Hk.
  - cbn [JS.forallChars] in Hrun. apply andb_prop in Hrun as [Hc Hrun].
    rewrite append_cons. cbn [Gas.lazyStar].
    destruct (k seen (String c (run +:+ rest))); [easy|].
    rewrite Hc. apply IH; [exact Hrun|]. now rewrite JSFacts.append_assoc.
Qed.

Lemma greedyStar_complete p k run : forall seen rest,
  JS.forallChars p run = true -> is_Some (k (seen +:+ run) rest) ->
  is_Some (Gas.greedyStar p k seen (run +:+ rest)).
Proof.
  induction run as [|c run IH]; intros seen rest Hrun Hk.
  - rewrite JSFacts.append_empty_r in Hk.
    change (EmptyString +:+ rest) with rest.
    destruct rest as [|d rest]; cbn [Gas.greedyStar]; [exact Hk|].
    destruct (p d); [|exact Hk].
    now destruct (Gas.greedyStar p k (seen +:+ String d EmptyString) rest).
  - cbn [JS.forallChars] in Hrun. apply andb_prop in Hrun as [Hc Hrun].
    rewrite append_cons. cbn [Gas.greedyStar]. rewrite Hc.
    assert (H : is_Some (Gas.greedyStar p k (seen +:+ String c EmptyString)
                           (run +:+ rest)))
      by (apply IH; [exact Hrun|now rewrite JSFacts.append_assoc]).
    destruct H as [r ->]. easy.
Qed.

Lemma greedyPlus_complete p k run rest :
  run <> EmptyString -> JS.forallChars p run = true -> is_Some (k run rest) ->
  is_Some (Gas.greedyPlus p k (run +:+ rest)).
Proof.
  destruct run as [|c run]; [easy|]. intros _ Hrun Hk.
  cbn [JS.forallChars] in Hrun. apply andb_prop in Hrun as [Hc Hrun].
  rewrite append_cons. cbn [Gas.greedyPlus]. rewrite Hc.
  now apply greedyStar_complete.
Qed.

End MatcherFacts.

(** A match has the shape of a snapshot line, with the captures as the
    name and the integer. *)
Lemma matchSnapshotLine_sound line testName gasUsed :
  Gas.matchSnapshotLine line = Some (testName, gasUsed) ->
  Gas.SnapshotLine testName gasUsed line.
Proof.
  unfold Gas.matchSnapshotLine. intros H.
  apply lazyStar_sound in H as (name & s1 & -> & Hname & H).
  apply greedyPlus_sound in H as (ws1 & s2 & -> & Hne1 & Hws1 & H).
  unfold Gas.literal in H.
  destruct (Gas.stripPrefix "(gas:" s2) as [s3|] eqn:E; [|discriminate].
  apply stripPrefix_sound in E as ->.
  apply greedyPlus_sound in H as (ws2 & s4 & -> & Hne2 & Hws2 & H).
  apply greedyPlus_sound in H as (digits & s5 & -> & Hne3 & Hdigits & H).
  destruct (Gas.stripPrefix ")" s5) as [rest|] eqn:E; [|discriminate].
  apply stripPrefix_sound in E as ->.
  injection H as <- <-.
  exists ws1, ws2, rest. now rewrite !JSFacts.append_assoc.
Qed.

(** A line that has the shape is matched. *)
Lemma matchSnapshotLine_complete line testName gasUsed :
  Gas.SnapshotLine testName gasUsed line -> is_Some (Gas.matchSnapshotLine line).
Proof.
  intros (ws1 & ws2 & rest & -> & Hname & Hne1 & Hws1 & Hne2 & Hws2 & Hne3 & Hdigits).
  unfold Gas.matchSnapshotLine.
  apply lazyStar_complete; [exact Hname|].
  apply greedyPlus_complete; [exact Hne1|exact Hws1|].
  unfold Gas.literal. rewrite (stripPrefix_complete "(gas:").
  apply greedyPlus_complete; [exact Hne2|exact Hws2|].
  apply greedyPlus_complete; [exact Hne3|exact Hdigits|].
  now rewrite (stripPrefix_complete ")").
Qed.

Lemma parseLines_app before after :
  Gas.parseLines (before ++ after)
  = fold_left Gas.parseLine after (Gas.parseLines before).
Proof. unfold Gas.parseLines. apply fold_left_app. Qed.

(** *** The lines of a text *)

Lemma split_without_separator p line :
  JS.forallChars (fun c => negb (p c)) line = true -> JS.split p line = [line].
Proof.
  induction line as [|c line IH]; [reflexivity|].
  cbn [JS.forallChars JS.split]. intros [Hc Hline]%andb_prop.
  apply negb_true_iff in Hc. now rewrite Hc, (IH Hline).
Qed.

Lemma split_at_separator p line c rest :
  JS.forallChars (fun c => negb (p c)) line = true -> p c = true ->
  JS.split p (line +:+ String c rest) = line :: JS.split p rest.
Proof.
  intros Hline Hc. induction line as [|d line IH].
  - change (JS.split p (String c rest) = EmptyString :: JS.split p rest).
    cbn [JS.split]. now rewrite Hc.
  - cbn [JS.forallChars] in Hline. apply andb_prop in Hline as [Hd Hline].
    apply negb_true_iff in Hd.
    rewrite append_cons. cbn [JS.split]. now rewrite Hd, (IH Hline).
Qed.

(** Splitting is the inverse of joining with the separator. *)
Lemma split_join lines :
  lines <> [] ->
  (forall line, In line lines ->
                JS.forallChars (fun c => negb (Ascii.eqb JS.LF c)) line = true) ->
  JS.split (Ascii.eqb JS.LF) (JS.join JS.nl lines) = lines.
Proof.
  induction lines as [|line lines IH]; [contradiction|].
  intros _ Hlines. destruct lines as [|next lines].
  - apply split_without_separator, Hlines. now left.
  - change (JS.join JS.nl (line :: next :: lines))
      with (line +:+ String JS.LF (JS.join JS.nl (next :: lines))).
    rewrite split_at_separator; [|apply Hlines; now left|reflexivity].
    f_equal. apply IH; [discriminate|]. intros l Hl. apply Hlines. now right.
Qed.

Lemma text_of_lines lines last :
  fold_right (fun line text => line +:+ String (ascii_of_nat 10) EmptyString +:+ text)
    last lines
  = JS.join JS.nl (lines ++ [last]).
Proof.
  induction lines as [|line lines IH]; [reflexivity|].
  cbn [fold_right]. rewrite IH. cbn [app JS.join].
  now destruct (lines ++ [last])%list eqn:E; [destruct lines|].
Qed.

(** C8.  The parser is a total function of the text: it splits at LF
    and folds over the lines from the empty mapping, and it has no case
    that fails.  Of a text made of lines joined by LF it reads exactly
    those lines, one after the other.  A line that does not have the
    shape of a snapshot line leaves the mapping as it is, wherever it
    stands; a line that has the shape is matched, and a matched line
    sets the trimmed name to the integer, except that the name
    [__proto__] is not stored.  The empty text gives the empty mapping,
    and the text of the example gives the two entries of the
    specification. *)
Theorem parseGasSnapshot_lines :
  let newline := String (ascii_of_nat 10) EmptyString in
  let noLineFeed line :=
    JS.forallChars (fun c => negb (Ascii.eqb (ascii_of_nat 10) c)) line = true in
  (forall snapshotOutput,
      Gas.parseGasSnapshot snapshotOutput
      = fold_left Gas.parseLine (JS.split (Ascii.eqb JS.LF) snapshotOutput) ∅)
  /\ (forall lines last,
        (forall line, In line lines -> noLineFeed line) -> noLineFeed last ->
        Gas.parseGasSnapshot
          (fold_right (fun line text => line +:+ newline +:+ text) last lines)
        = fold_left Gas.parseLine (lines ++ [last]) ∅)
  /\ (forall before line after,
        (forall testName gasUsed, ~ Gas.SnapshotLine testName gasUsed line) ->
        Gas.parseLines (before ++ line :: after) = Gas.parseLines (before ++ after))
  /\ (forall line testName gasUsed,
        Gas.SnapshotLine testName gasUsed line -> is_Some (Gas.matchSnapshotLine line))
  /\ (forall before line testName gasUsed,
        Gas.matchSnapshotLine line = Some (testName, gasUsed) ->
        Gas.SnapshotLine testName gasUsed line
        /\ (JS.trim testName <> "__proto__" ->
            Gas.parseLines (before ++ [line])
            = <[JS.trim testName := Gas.parseInt10 gasUsed]> (Gas.parseLines before))
        /\ (JS.trim testName = "__proto__" ->
            Gas.parseLines (before ++ [line]) = Gas.parseLines before))
  /\ Gas.parseGasSnapshot EmptyString = ∅
  /\ Gas.parseGasSnapshot
       ("test_a() (gas: 100)" +:+ newline +:+ "noise" +:+ newline +:+ "test_b() (gas: 200)")
     = <["test_a()" := 100%float]> (<["test_b()" := 200%float]> ∅).
Proof.
  cbv zeta. split_and!.
  - reflexivity.
  - intros lines last Hlines Hlast. unfold Gas.parseGasSnapshot, Gas.parseLines.
    rewrite text_of_lines, split_join; [reflexivity|now destruct lines|].
    intros line [Hin|[<-|[]]]%in_app_or; [now apply Hlines|exact Hlast].
  - intros before line after Hshape.
    assert (Hnone : Gas.matchSnapshotLine line = None).
    { destruct (Gas.matchSnapshotLine line) as [[testName gasUsed]|] eqn:E;
        [|reflexivity].
      apply matchSnapshotLine_sound in E. now apply Hshape in E. }
    rewrite !parseLines_app. cbn [fold_left]. unfold Gas.parseLine at 2.
    now rewrite Hnone.
  - apply matchSnapshotLine_complete.
  - intros before line testName gasUsed Hmatch. split_and!.
    + now apply matchSnapshotLine_sound.
    + intros Hname. rewrite parseLines_app. cbn [fold_left]. unfold Gas.parseLine.
      rewrite Hmatch. cbv zeta.
      now destruct (String.eqb_spec (JS.trim testName) "__proto__").
    + intros Hname. rewrite parseLines_app. cbn [fold_left]. unfold Gas.parseLine.
      rewrite Hmatch. cbv zeta. now rewrite Hname.
  - reflexivity.
  - vm_compute. reflexivity.
Qed.

End Parser.

(** ** The comparison on the heap *)

Module HeapFacts.

Import Heap.

Implicit Types (h : gmap positive object) (l : positive).

Lemma extendsExcept_refl r h : extendsExcept r h h.
Proof. now intros l o. Qed.

Lemma extendsExcept_trans r h1 h2 h3 :
  extendsExcept r h1 h2 -> extendsExcept r h2 h3 -> extendsExcept r h1 h3.
Proof. intros H12 H23 l o Hl Ho. apply H23, H12; assumption. Qed.

Lemma alloc_spec o h :
  h !! fst (alloc o h) = None /\ snd (alloc o h) = <[fst (alloc o h) := o]> h.
Proof.
  unfold alloc. cbn [fst snd]. split; [|reflexivity].
  apply not_elem_of_dom, is_fresh.
Qed.

Lemma alloc_extends o h : h ⊆ snd (alloc o h).
Proof.
  destruct (alloc_spec o h) as [Hfresh ->]. now apply insert_subseteq.
Qed.

(** Allocating a comparison and an entry and writing the entry into
    [results] changes no object other than [results]. *)
Lemma allocated_entry_extends comparison gas testName r h h' :
  (let '(c, h1) := alloc comparison h in
   let '(e, h2) := alloc (EntryObj gas (Some c)) h1 in
   match h2 !! r with
   | Some (ResultsObj props) => Some (<[r := ResultsObj (obj_set testName e props)]> h2)
   | _ => None
   end) = Some h' ->
  extendsExcept r h h'.
Proof.
  pose proof (alloc_extends comparison h) as H1.
  destruct (alloc comparison h) as [c h1]. cbn [snd] in H1.
  pose proof (alloc_extends (EntryObj gas (Some c)) h1) as H2.
  destruct (alloc (EntryObj gas (Some c)) h1) as [e h2]. cbn [snd] in H2.
  destruct (h2 !! r) as [[|props| |]|]; try discriminate.
  intros [= <-] l o Hl Ho.
  rewrite lookup_insert_ne by congruence.
  eapply lookup_weaken; [|exact H2]. eapply lookup_weaken; [|exact H1]. exact Ho.
Qed.

(** A turn of the loop allocates and writes [results]; it changes no
    other object. *)
Lemma compareStep_extends prev r h entry h' :
  compareStep prev r (Some h) entry = Some h' -> extendsExcept r h h'.
Proof.
  destruct entry as [testName current]. cbn [compareStep mbind option_bind].
  destruct (h !! prev) as [[? ? previousResults| | |]|]; try discriminate.
  destruct (h !! previousResults) as [[|previousProps| |]|]; try discriminate.
  destruct (obj_read testName previousProps) as [previous| |].
  3: { intros [= <-]. apply extendsExcept_refl. }
  - destruct (h !! current) as [[| |currentGas ?|]|]; try discriminate.
    destruct (h !! previous) as [[| |previousGas ?|]|]; try discriminate.
    apply allocated_entry_extends.
  - destruct (h !! current) as [[| |currentGas ?|]|]; try discriminate.
    apply allocated_entry_extends.
Qed.

Lemma fold_compareStep_extends prev r entries : forall h h',
  fold_left (compareStep prev r) entries (Some h) = Some h' -> extendsExcept r h h'.
Proof.
  induction entries as [|entry entries IH]; intros h h' H; cbn [fold_left] in H.
  - injection H as <-. apply extendsExcept_refl.
  - destruct (compareStep prev r (Some h) entry) as [h1|] eqn:E.
    + eapply extendsExcept_trans;
        [exact (compareStep_extends _ _ _ _ _ E)|now apply IH].
    + exfalso. clear -H. induction entries as [|e es IHe]; [discriminate|].
      now apply IHe.
Qed.

(** Whenever the call returns, every object that was there before it is
    still there, unchanged. *)
Lemma compareGasSnapshots_extends cur prev h result h' :
  compareGasSnapshots cur prev h = Some (result, h') -> h ⊆ h'.
Proof.
  unfold compareGasSnapshots.
  destruct (h !! cur) as [[ts sha currentResults| | |]|]; try discriminate.
  destruct (h !! currentResults) as [[|props| |]|]; try discriminate.
  destruct (alloc_spec (ResultsObj props) h) as [Hr Eh1].
  destruct (alloc (ResultsObj props) h) as [r h1]. cbn [fst snd] in Hr, Eh1.
  destruct (alloc_spec (SnapshotObj ts sha r) h1) as [Hres Eh2].
  destruct (alloc (SnapshotObj ts sha r) h1) as [res h2]. cbn [fst snd] in Hres, Eh2.
  destruct (fold_left _ props (Some h2)) as [h3|] eqn:E; [|discriminate].
  cbn [mbind option_bind]. intros [= <- <-].
  apply fold_compareStep_extends in E.
  apply map_subseteq_spec. intros l o Ho.
  assert (Hlr : l <> r) by congruence.
  apply E; [exact Hlr|].
  assert (Hl1 : h1 !! l = Some o) by (subst h1; now rewrite lookup_insert_ne).
  subst h2. rewrite lookup_insert_ne by congruence. exact Hl1.
Qed.

(** *** Reading values back *)

Lemma subseteq_keepsValues h h' : h ⊆ h' -> keepsValues h h'.
Proof.
  intros Hsub l o Ho. destruct o; try exact I; eapply lookup_weaken; eassumption.
Qed.

Lemma readComparison_stable h h' l v :
  keepsValues h h' -> readComparison h l = Some v -> readComparison h' l = Some v.
Proof.
  unfold readComparison. intros Hk.
  destruct (h !! l) as [[| | |p c cp]|] eqn:E; try discriminate.
  now rewrite (Hk _ _ E).
Qed.

Lemma readEntry_stable h h' l v :
  keepsValues h h' -> readEntry h l = Some v -> readEntry h' l = Some v.
Proof.
  unfold readEntry. intros Hk.
  destruct (h !! l) as [[| |g [lc|]|]|] eqn:E; try discriminate;
    rewrite (Hk _ _ E); [|easy].
  destruct (readComparison h lc) as [c|] eqn:Ec; [|discriminate].
  now rewrite (readComparison_stable _ _ _ _ Hk Ec).
Qed.

Lemma readProps_stable h h' props entries :
  keepsValues h h' -> readProps h props = Some entries ->
  readProps h' props = Some entries.
Proof.
  intros Hk. revert entries.
  induction props as [|[name l] props IH]; intros entries H; [exact H|].
  cbn [readProps] in *.
  destruct (readEntry h l) as [e|] eqn:Ee; [|discriminate].
  rewrite (readEntry_stable _ _ _ _ Hk Ee). cbn [mbind option_bind] in *.
  destruct (readProps h props) as [es|]; [|discriminate].
  now rewrite (IH es eq_refl).
Qed.

Lemma readSnapshot_stable h h' l v :
  h ⊆ h' -> readSnapshot h l = Some v -> readSnapshot h' l = Some v.
Proof.
  unfold readSnapshot. intros Hsub.
  destruct (h !! l) as [[ts sha results| | |]|] eqn:E; try discriminate.
  rewrite (lookup_weaken _ _ _ _ E Hsub).
  destruct (h !! results) as [[|props| |]|] eqn:Er; try discriminate.
  rewrite (lookup_weaken _ _ _ _ Er Hsub).
  destruct (readProps h props) as [entries|] eqn:Ep; [|discriminate].
  now rewrite (readProps_stable _ _ _ _ (subseteq_keepsValues _ _ Hsub) Ep).
Qed.

Lemma readEntry_gas h l v :
  readEntry h l = Some v -> exists c, h !! l = Some (EntryObj (gasUsed v) c).
Proof.
  unfold readEntry.
  destruct (h !! l) as [[| |g [lc|]|]|]; try discriminate.
  - destruct (readComparison h lc); [|discriminate]. intros [= <-]. eauto.
  - intros [= <-]. eauto.
Qed.

(** A property of the dictionary reads as the property of its value. *)
Lemma readProps_obj_get h props entries name :
  readProps h props = Some entries ->
  match obj_get name props, obj_get name entries with
  | Some l, Some v => readEntry h l = Some v
  | None, None => True
  | _, _ => False
  end.
Proof.
  revert entries. induction props as [|[k l] props IH]; intros entries H.
  - injection H as <-. exact I.
  - cbn [readProps] in H.
    destruct (readEntry h l) as [e|] eqn:Ee; [|discriminate].
    cbn [mbind option_bind] in H.
    destruct (readProps h props) as [es|]; [|discriminate].
    injection H as <-. cbn [obj_get].
    destruct (String.eqb k name); [exact Ee|now apply IH].
Qed.

Lemma readProps_obj_set h props entries name l v :
  readProps h props = Some entries -> readEntry h l = Some v ->
  readProps h (obj_set name l props) = Some (obj_set name v entries).
Proof.
  intros H Hl. revert entries H.
  induction props as [|[k x] props IH]; intros entries H.
  - injection H as <-. cbn [obj_set readProps]. now rewrite Hl.
  - cbn [readProps] in H.
    destruct (readEntry h x) as [e|] eqn:Ee; [|discriminate].
    cbn [mbind option_bind] in H.
    destruct (readProps h props) as [es|] eqn:Es; [|discriminate].
    injection H as <-. cbn [obj_set].
    destruct (String.eqb k name); cbn [readProps].
    + now rewrite Hl, Es.
    + now rewrite Ee, (IH es eq_refl).
Qed.

(** *** The loop, against the comparison on values *)

Section Loop.

Variable h : gmap positive object.
Variables prevL previousResults r : positive.
Variables previousTimestamp previousSha : string.
Variable previousProps : list (string * positive).
Variable P : GasSnapshot.

Hypothesis Hprev : h !! prevL = Some (SnapshotObj previousTimestamp previousSha previousResults).
Hypothesis Hresults : h !! previousResults = Some (ResultsObj previousProps).
Hypothesis HP : readProps h previousProps = Some (testResults P).
Hypothesis Hr : h !! r = None.

Lemma allocated_entry_refines hi props entries name gas p c cp :
  h ⊆ hi -> hi !! r = Some (ResultsObj props) ->
  readProps hi props = Some entries ->
  exists hj props',
    (let '(lc, h1) := alloc (ComparisonObj p c cp) hi in
     let '(le, h2) := alloc (EntryObj gas (Some lc)) h1 in
     match h2 !! r with
     | Some (ResultsObj props) =>
         Some (<[r := ResultsObj (obj_set name le props)]> h2)
     | _ => None
     end) = Some hj
    /\ h ⊆ hj /\ hj !! r = Some (ResultsObj props')
    /\ readProps hj props'
       = Some (obj_set name
                 {| gasUsed := gas;
                    comparison := Some {| previous := p; change := c;
                                          changePercentage := cp |} |} entries).
Proof.
  intros Hsub Hri Hprops.
  destruct (alloc_spec (ComparisonObj p c cp) hi) as [Hfc Eh1].
  destruct (alloc (ComparisonObj p c cp) hi) as [lc h1]. cbn [fst snd] in Hfc, Eh1.
  destruct (alloc_spec (EntryObj gas (Some lc)) h1) as [Hfe Eh2].
  destruct (alloc (EntryObj gas (Some lc)) h1) as [le h2]. cbn [fst snd] in Hfe, Eh2.
  assert (Hlc : lc <> r) by congruence.
  assert (Hle : le <> r).
  { intros ->. subst h1. rewrite lookup_insert_ne in Hfe by exact Hlc. congruence. }
  assert (Hlec : le <> lc).
  { intros ->. subst h1. rewrite lookup_insert_eq in Hfe. discriminate. }
  assert (Hr2 : h2 !! r = Some (ResultsObj props)).
  { subst h2 h1. now rewrite !lookup_insert_ne by congruence. }
  rewrite Hr2. eexists _, _. split; [reflexivity|].
  assert (Hsub1 : hi ⊆ h1) by (subst h1; now apply insert_subseteq).
  assert (Hsub2 : h1 ⊆ h2) by (subst h2; now apply insert_subseteq).
  split_and!.
  - apply insert_subseteq_r; [exact Hr|].
    transitivity hi; [exact Hsub|]. now transitivity h1.
  - apply lookup_insert_eq.
  - apply readProps_obj_set.
    + apply (readProps_stable hi); [|exact Hprops].
      intros l o Ho.
      assert (Ho2 : h2 !! l = Some o)
        by (eapply lookup_weaken; [eapply lookup_weaken; eassumption|exact Hsub2]).
      destruct o; try exact I; rewrite lookup_insert_ne by congruence; exact Ho2.
    + unfold readEntry, readComparison.
      rewrite lookup_insert_ne by congruence.
      subst h2. rewrite lookup_insert_eq.
      rewrite lookup_insert_ne by congruence.
      rewrite lookup_insert_ne by congruence.
      subst h1. rewrite lookup_insert_eq. reflexivity.
Qed.

Lemma compareStep_refines hi props entries name current currentValue :
  h ⊆ hi -> hi !! r = Some (ResultsObj props) ->
  readProps hi props = Some entries ->
  readEntry h current = Some currentValue ->
  exists hj props',
    compareStep prevL r (Some hi) (name, current) = Some hj
    /\ h ⊆ hj /\ hj !! r = Some (ResultsObj props')
    /\ readProps hj props' = Some (Gas.compareStep P entries (name, currentValue)).
Proof.
  intros Hsub Hri Hprops Hcur.
  cbn [compareStep mbind option_bind].
  rewrite (lookup_weaken _ _ _ _ Hprev Hsub), (lookup_weaken _ _ _ _ Hresults Hsub).
  pose proof (readProps_obj_get h previousProps _ name HP) as Hget.
  unfold Gas.compareStep, obj_read.
  destruct (readEntry_gas _ _ _ Hcur) as [cc Hc].
  destruct (obj_get name previousProps) as [previous|],
    (obj_get name (testResults P)) as [previousValue|]; try easy.
  - destruct (readEntry_gas _ _ _ Hget) as [pc Hp].
    rewrite (lookup_weaken _ _ _ _ Hc Hsub), (lookup_weaken _ _ _ _ Hp Hsub).
    exact (allocated_entry_refines hi props entries name _ _ _ _ Hsub Hri Hprops).
  - destruct (inheritedName name).
    + rewrite (lookup_weaken _ _ _ _ Hc Hsub).
      exact (allocated_entry_refines hi props entries name _ _ _ _ Hsub Hri Hprops).
    + exists hi, props. easy.
Qed.

Lemma fold_compareStep_refines todo : forall todoValues hi props entries,
  readProps h todo = Some todoValues ->
  h ⊆ hi -> hi !! r = Some (ResultsObj props) ->
  readProps hi props = Some entries ->
  exists h' props',
    fold_left (compareStep prevL r) todo (Some hi) = Some h'
    /\ h ⊆ h' /\ h' !! r = Some (ResultsObj props')
    /\ readProps h' props'
       = Some (fold_left (Gas.compareStep P) todoValues entries).
Proof.
  induction todo as [|[name current] todo IH];
    intros todoValues hi props entries Htodo Hsub Hri Hprops.
  - injection Htodo as <-. exists hi, props. easy.
  - cbn [readProps] in Htodo.
    destruct (readEntry h current) as [currentValue|] eqn:Ecur; [|discriminate].
    cbn [mbind option_bind] in Htodo.
    destruct (readProps h todo) as [rest|] eqn:Erest; [|discriminate].
    injection Htodo as <-. cbn [fold_left].
    destruct (compareStep_refines hi props entries name current currentValue
                Hsub Hri Hprops Ecur) as (hj & props' & -> & Hsubj & Hrj & Hpropsj).
    exact (IH rest hj props' _ eq_refl Hsubj Hrj Hpropsj).
Qed.

End Loop.

(** C10.  Whenever the comparison returns, every object that was on the
    heap before the call is there unchanged.  On two snapshots of the
    shape the types promise it does return: the result is a new object,
    the two arguments still read as they did, and the result reads as
    the comparison of their values, with the timestamp and the commit of
    the current snapshot. *)
Theorem compareGasSnapshots_frame h currentSnapshot previousSnapshot :
  (forall result h',
      compareGasSnapshots currentSnapshot previousSnapshot h = Some (result, h') ->
      h ⊆ h')
  /\ (forall current previous,
        readSnapshot h currentSnapshot = Some current ->
        readSnapshot h previousSnapshot = Some previous ->
        exists result h',
          compareGasSnapshots currentSnapshot previousSnapshot h = Some (result, h')
          /\ h ⊆ h'
          /\ h !! result = None
          /\ readSnapshot h' currentSnapshot = Some current
          /\ readSnapshot h' previousSnapshot = Some previous
          /\ readSnapshot h' result = Some (Gas.compareGasSnapshots current previous)
          /\ timestamp (Gas.compareGasSnapshots current previous) = timestamp current
          /\ commitSha (Gas.compareGasSnapshots current previous) = commitSha current).
Proof.
  split; [apply compareGasSnapshots_extends|].
  intros current previous Hcur Hprev.
  assert (Hframe := compareGasSnapshots_extends currentSnapshot previousSnapshot h).
  unfold readSnapshot in Hcur, Hprev. unfold compareGasSnapshots in *.
  destruct (h !! currentSnapshot) as [[ts sha currentResults| | |]|] eqn:Ec;
    try discriminate.
  destruct (h !! currentResults) as [[|props| |]|] eqn:Ecr; try discriminate.
  destruct (readProps h props) as [entries|] eqn:Eprops; [|discriminate].
  injection Hcur as <-.
  destruct (h !! previousSnapshot) as [[pts psha previousResults| | |]|] eqn:Ep;
    try discriminate.
  destruct (h !! previousResults) as [[|previousProps| |]|] eqn:Epr; try discriminate.
  destruct (readProps h previousProps) as [previousEntries|] eqn:Epp; [|discriminate].
  injection Hprev as <-.
  destruct (alloc_spec (ResultsObj props) h) as [Hr Eh1].
  destruct (alloc (ResultsObj props) h) as [r h1]. cbn [fst snd] in Hr, Eh1.
  destruct (alloc_spec (SnapshotObj ts sha r) h1) as [Hres Eh2].
  destruct (alloc (SnapshotObj ts sha r) h1) as [res h2]. cbn [fst snd] in Hres, Eh2.
  assert (Hresr : res <> r).
  { intros ->. subst h1. rewrite lookup_insert_eq in Hres. discriminate. }
  assert (Hsub1 : h ⊆ h1) by (subst h1; now apply insert_subseteq).
  assert (Hsub2 : h ⊆ h2) by (subst h2; transitivity h1; [|apply insert_subseteq]; easy).
  destruct (fold_compareStep_refines h previousSnapshot previousResults r pts psha
              previousProps
              {| timestamp := pts; commitSha := psha; testResults := previousEntries |}
              Ep Epr Epp Hr props entries h2 props entries Eprops Hsub2)
    as (h' & props' & Efold & Hsub' & Hr' & Hprops').
  { subst h2 h1. rewrite lookup_insert_ne by congruence. apply lookup_insert_eq. }
  { apply (readProps_stable h); [now apply subseteq_keepsValues|exact Eprops]. }
  rewrite Efold in *. cbn [mbind option_bind] in *.
  exists res, h'. split; [reflexivity|].
  assert (Hres0 : h !! res = None).
  { subst h1. rewrite lookup_insert_ne in Hres by congruence. exact Hres. }
  assert (Hres' : h' !! res = Some (SnapshotObj ts sha r)).
  { apply (fold_compareStep_extends _ _ _ _ _ Efold); [exact Hresr|].
    subst h2. apply lookup_insert_eq. }
  split_and!; try reflexivity.
  - exact Hsub'.
  - exact Hres0.
  - apply (readSnapshot_stable h); [exact Hsub'|].
    unfold readSnapshot. now rewrite Ec, Ecr, Eprops.
  - apply (readSnapshot_stable h); [exact Hsub'|].
    unfold readSnapshot. now rewrite Ep, Epr, Epp.
  - unfold readSnapshot. rewrite Hres', Hr', Hprops'. reflexivity.
Qed.

Lemma compareGasSnapshots_frame_witness :
  exists result h',
    compareGasSnapshots 1 5 Examples.heap = Some (result, h')
    /\ Examples.heap ⊆ h'
    /\ readSnapshot h' result
       = Some (Gas.compareGasSnapshots Examples.current Examples.previousRun).
Proof.
  destruct (compareGasSnapshots_frame Examples.heap 1 5) as [_ H].
  destruct (H Examples.current Examples.previousRun eq_refl eq_refl)
    as (result & h' & Hcall & Hsub & _ & _ & _ & Hread & _).
  now exists result, h'.
Defined.

End HeapFacts.

(** ** Strings: prefixes and suffixes *)

Module StringFacts.

Lemma append_inv_head (p a b : string) : p +:+ a = p +:+ b -> a = b.
Proof.
  induction p as [|c p IH]; [easy|].
  change (String c (p +:+ a) = String c (p +:+ b) -> a = b).
  intros H. injection H as H. now apply IH.
Qed.

Lemma length_append (s t : string) :
  String.length (s +:+ t) = (String.length s + String.length t)%nat.
Proof.
  induction s as [|c s IH]; [reflexivity|].
  change (S (String.length (s +:+ t)) = S (String.length s + String.length t)).
  now rewrite IH.
Qed.

Lemma startsWith_iff (s t : string) :
  JS.startsWith s t = true <-> exists rest, s = t +:+ rest.
Proof.
  unfold JS.startsWith. revert s.
  induction t as [|c t IH]; intros s.
  - split; [intros _; now exists s|]. intros _. now destruct s.
  - destruct s as [|d s].
    + split; [discriminate|]. intros [rest H]. discriminate H.
    + cbn [String.prefix]. destruct (ascii_dec c d) as [->|Hne].
      * rewrite IH. split; intros [rest H]; exists rest.
        -- now rewrite H.
        -- now injection H.
      * split; [discriminate|]. intros [rest H]. injection H as H1 H2. congruence.
Qed.

Lemma endsWith_iff (s t : string) :
  JS.endsWith s t = true <-> exists front, s = front +:+ t.
Proof.
  induction s as [|c s IH]; cbn [JS.endsWith].
  - rewrite orb_false_r. split.
    + intros H%String.eqb_eq. exists EmptyString. now subst.
    + intros [front H]. apply String.eqb_eq.
      destruct front; [exact H|discriminate H].
  - rewrite orb_true_iff, IH. split.
    + intros [H%String.eqb_eq | [front H]].
      * exists EmptyString. now subst.
      * exists (String c front). now rewrite H.
    + intros [front H]. destruct front as [|d front].
      * left. apply String.eqb_eq. exact H.
      * right. exists front. now injection H.
Qed.

(** Two ways to cut a string before a tail of the same length agree. *)
Lemma append_inv_tail (a b u v : string) :
  a +:+ u = b +:+ v -> String.length u = String.length v -> u = v.
Proof.
  revert b. induction a as [|c a IH]; intros b H Hlen.
  - destruct b as [|d b]; [exact H|].
    apply (f_equal String.length) in H.
    change (EmptyString +:+ u) with u in H.
    rewrite length_append in H. cbn [String.length] in H. lia.
  - destruct b as [|d b].
    + apply (f_equal String.length) in H.
      change (EmptyString +:+ v) with v in H.
      rewrite length_append in H. cbn [String.length] in H. lia.
    + injection H as _ H. now apply (IH b).
Qed.

Lemma trimStart_blank s :
  JS.forallChars JS.isWhiteSpace s = true -> JS.trimStart s = EmptyString.
Proof.
  induction s as [|c s IH]; [reflexivity|].
  cbn [JS.forallChars JS.trimStart]. intros [Hc Hs]%andb_prop.
  rewrite Hc. now apply IH.
Qed.

Lemma trim_blank s :
  JS.forallChars JS.isWhiteSpace s = true -> JS.trim s = EmptyString.
Proof. intros H. unfold JS.trim. now rewrite trimStart_blank. Qed.

End StringFacts.

(** ** Key spaces of the cache types *)

Module KeySpaces.

Section WithPlatform.

Variable PLATFORM : string.

Local Abbreviation getCachePrefix := (Cache.getCachePrefix PLATFORM).

(** Every prefix is the platform, [-foundry-], and a word that differs
    from type to type in its first letter. *)
Lemma getCachePrefix_shape type :
  exists c word,
    getCachePrefix type = PLATFORM +:+ "-foundry-" +:+ String c word
    /\ c = match type with
           | RPC => "c"%char | ARTIFACTS => "a"%char | GAS_SNAPSHOT => "g"%char
           end.
Proof.
  destruct type;
    unfold Cache.getCachePrefix, Cache.RPC_CACHE_PREFIX, Cache.ARTIFACTS_CACHE_PREFIX,
      Cache.GAS_SNAPSHOT_CACHE_PREFIX, Cache.CACHE_PREFIX;
    rewrite JSFacts.append_assoc; eauto.
Qed.

Lemma prefixes_disjoint type type' rest rest' :
  getCachePrefix type +:+ rest = getCachePrefix type' +:+ rest' -> type = type'.
Proof.
  destruct (getCachePrefix_shape type) as (c & word & -> & Hc).
  destruct (getCachePrefix_shape type') as (c' & word' & -> & Hc').
  rewrite !JSFacts.append_assoc. intros H%StringFacts.append_inv_head.
  apply StringFacts.append_inv_head in H. injection H as H _.
  subst c c'. destruct type, type'; first [reflexivity | discriminate H].
Qed.

Lemma getPrimaryKey_shape sha input type :
  exists rest, Cache.getPrimaryKey PLATFORM sha input type = getCachePrefix type +:+ rest.
Proof. unfold Cache.getPrimaryKey. cbv zeta. destruct (JS.truthy input); eauto. Qed.

Lemma getRestoreKeys_prefixed input type restoreKey :
  In restoreKey (Cache.getRestoreKeys PLATFORM input type) ->
  exists rest, restoreKey = getCachePrefix type +:+ rest.
Proof.
  unfold Cache.getRestoreKeys. cbv zeta.
  assert (Hdefault : forall k, In k [getCachePrefix type] ->
                               exists rest, k = getCachePrefix type +:+ rest).
  { intros k [<-|[]]. exists EmptyString. now rewrite JSFacts.append_empty_r. }
  destruct (JS.truthy input); [|exact (Hdefault _)].
  intros [H|H]%in_app_or; [|exact (Hdefault _ H)].
  apply in_map_iff in H as (x & <- & _). eauto.
Qed.

(** X1.  The cache types have disjoint key spaces: whatever the custom
    inputs and the commit are, the primary keys of two different types
    differ, and no restore key of one type begins a primary key of
    another. *)
Theorem key_spaces_disjoint sha sha' input input' restoreInput type type' :
  type <> type' ->
  Cache.getPrimaryKey PLATFORM sha input type
  <> Cache.getPrimaryKey PLATFORM sha' input' type'
  /\ forall restoreKey,
       In restoreKey (Cache.getRestoreKeys PLATFORM restoreInput type') ->
       JS.startsWith (Cache.getPrimaryKey PLATFORM sha input type) restoreKey = false.
Proof.
  intros Hne.
  destruct (getPrimaryKey_shape sha input type) as [rest ->].
  split.
  - destruct (getPrimaryKey_shape sha' input' type') as [rest' ->].
    intros H. now apply prefixes_disjoint in H.
  - intros restoreKey (rest' & ->)%getRestoreKeys_prefixed.
    destruct (JS.startsWith _ _) eqn:E; [|reflexivity].
    apply StringFacts.startsWith_iff in E as [more E].
    rewrite JSFacts.append_assoc in E. now apply prefixes_disjoint in E.
Qed.

(** X2.  A custom key is used trimmed, and only the empty one is
    replaced by the commit: a key made of white space alone gives the
    bare prefix of the type, which is also the last restore key. *)
Theorem getPrimaryKey_blank_input sha input restoreInput type :
  input <> EmptyString ->
  JS.forallChars JS.isWhiteSpace input = true ->
  Cache.getPrimaryKey PLATFORM sha (Some input) type = getCachePrefix type
  /\ last (Cache.getRestoreKeys PLATFORM restoreInput type)
     = Some (Cache.getPrimaryKey PLATFORM sha (Some input) type).
Proof.
  intros Hne Hblank.
  assert (E : Cache.getPrimaryKey PLATFORM sha (Some input) type = getCachePrefix type).
  { unfold Cache.getPrimaryKey. cbv zeta.
    destruct input as [|c s]; [contradiction|]. cbn [JS.truthy].
    now rewrite StringFacts.trim_blank, JSFacts.append_empty_r. }
  split; [exact E|]. rewrite E.
  unfold Cache.getRestoreKeys. cbv zeta.
  destruct (JS.truthy restoreInput); [|reflexivity].
  apply last_snoc.
Qed.

End WithPlatform.

Lemma key_spaces_disjoint_witness :
  Cache.getPrimaryKey "linux" "abc123" (Some "k") RPC
  <> Cache.getPrimaryKey "linux" "abc123" (Some "k") ARTIFACTS
  /\ JS.startsWith (Cache.getPrimaryKey "linux" "abc123" (Some "k") RPC)
       (Cache.getCachePrefix "linux" ARTIFACTS) = false.
Proof.
  destruct (key_spaces_disjoint "linux" "abc123" "abc123" (Some "k") (Some "k") None
              RPC ARTIFACTS ltac:(discriminate)) as [Hkeys Hrestore].
  split; [exact Hkeys|]. apply Hrestore. now left.
Defined.

Lemma getPrimaryKey_blank_input_witness :
  Cache.getPrimaryKey "linux" "abc123" (Some "  ") RPC = "linux-foundry-chain-fork-".
Proof.
  exact (proj1 (getPrimaryKey_blank_input "linux" "abc123" "  " None RPC
                  ltac:(discriminate) eq_refl)).
Defined.

End KeySpaces.

(** ** What the lifecycle leaves alone, and what it shares *)

Module LifecycleFrames.

Section WithEnvironment.

Variable PLATFORM : string.
Variable HOME : string.
Variable sha : string.
Variable env : Collaborators.

Local Abbreviation getPrimaryKey := (Cache.getPrimaryKey PLATFORM sha).
Local Abbreviation resolvePaths := (Cache.resolvePaths HOME).
Local Abbreviation beforeRestore := (Cache.beforeRestore PLATFORM HOME sha env).
Local Abbreviation restoreCache := (Cache.restoreCache PLATFORM HOME sha env).
Local Abbreviation savedPrimaryKey := (Cache.savedPrimaryKey PLATFORM sha).
Local Abbreviation saveCache := (Cache.saveCache PLATFORM HOME sha env).

(** What a save does to the world. *)
Lemma saveCache_effect options type w :
  let saved := fst (saveCache options type w) in
  let w' := snd (saveCache options type w) in
  let call := (resolvePaths options type, savedPrimaryKey options type w) in
  runState w' = runState w
  /\ existing w' = existing w
  /\ restoreCalls w' = restoreCalls w
  /\ (saveCalls w' = saveCalls w \/ saveCalls w' = call :: saveCalls w)
  /\ (saved = true ->
      saveCalls w' = call :: saveCalls w
      /\ exists cacheId,
           cache_saveCache env w (fst call) (snd call) = Resolved cacheId
           /\ cacheId <> (-1)%Z).
Proof.
  cbv zeta. unfold Cache.saveCache.
  destruct (negb (enabled options)); [cbn; intuition discriminate|].
  destruct (negb (forallb _ _)); [cbn; intuition discriminate|].
  destruct (JS.isEmpty _); [cbn; intuition discriminate|].
  destruct (String.eqb _ _); [cbn; intuition discriminate|].
  unfold Cache.callSave.
  destruct (cache_saveCache env w _ _) as [cacheId|] eqn:E;
    [destruct (Z.eqb_spec cacheId (-1))|]; cbn; split_and!; try reflexivity;
    try (now right); try discriminate.
  intros _. split; [reflexivity|]. now exists cacheId.
Qed.

(** X3.  A save never writes to the run state, never touches the file
    system and never asks the store to restore.  It calls the store's
    save at most once, and when it answers true that one call was made,
    with the resolved paths and the key of the run state, and the store
    gave an id other than -1. *)
Theorem saveCache_frame options type w :
  let saved := fst (saveCache options type w) in
  let w' := snd (saveCache options type w) in
  let call := (resolvePaths options type, savedPrimaryKey options type w) in
  runState w' = runState w
  /\ existing w' = existing w
  /\ restoreCalls w' = restoreCalls w
  /\ (saveCalls w' = saveCalls w \/ saveCalls w' = call :: saveCalls w)
  /\ (saved = true ->
      saveCalls w' = call :: saveCalls w
      /\ exists cacheId,
           cache_saveCache env w (fst call) (snd call) = Resolved cacheId
           /\ cacheId <> (-1)%Z).
Proof. exact (saveCache_effect options type w). Qed.

Lemma restoreCache_world options type w :
  enabled options = true ->
  let before := beforeRestore options type w in
  let answer :=
    cache_restoreCache env before (resolvePaths options type)
      (getPrimaryKey (primaryKey options) type)
      (Cache.getRestoreKeys PLATFORM (JS.join JS.nl <$> restoreKeys options) type) in
  let w' := snd (restoreCache options type w) in
  saveCalls w' = saveCalls w
  /\ existing w' = snd answer
  /\ runState w'
     = match fst answer with
       | Resolved matchedKey =>
           match JS.truthy matchedKey with
           | Some k => <[State.CacheMatchedKey := k]> (runState before)
           | None => runState before
           end
       | Rejected => runState before
       end.
Proof.
  intros Hen. cbv zeta. unfold Cache.restoreCache, Cache.callRestore.
  rewrite Hen. cbn [negb].
  destruct (CacheLifecycle.beforeRestore_calls PLATFORM HOME sha env options type w)
    as [_ Hsave].
  destruct (cache_restoreCache env _ _ _ _) as [[matchedKey|] fs'];
    [destruct (JS.truthy matchedKey) eqn:E|]; cbn [fst snd];
    unfold Cache.saveState; cbn [saveCalls existing runState];
    rewrite ?E; split_and!; first [exact Hsave | reflexivity].
Qed.

(** The primary key is in the run state after any enabled restore. *)
Lemma restoreCache_persists_primaryKey options type w :
  enabled options = true ->
  Cache.getState State.CachePrimaryKey (snd (restoreCache options type w))
  = getPrimaryKey (primaryKey options) type.
Proof.
  intros Hen. destruct (restoreCache_world options type w Hen) as (_ & _ & Hrs).
  unfold Cache.getState. rewrite Hrs.
  assert (Hbefore : runState (beforeRestore options type w) !! State.CachePrimaryKey
                    = Some (getPrimaryKey (primaryKey options) type))
    by (rewrite CacheLifecycle.beforeRestore_runState; apply lookup_insert_eq).
  destruct (fst _) as [matchedKey|]; [destruct (JS.truthy matchedKey)|];
    rewrite ?lookup_insert_ne by discriminate; now rewrite Hbefore.
Qed.

(** X4.  A restore never asks the store to save, and of the run state
    it writes only the two cache names.  When it reports no hit (nothing
    matched, or the store failed) the matched key of the run state is
    not cleared: it is what an earlier restore left there. *)
Theorem restoreCache_frame options type w :
  let r := fst (restoreCache options type w) in
  let w' := snd (restoreCache options type w) in
  saveCalls w' = saveCalls w
  /\ (forall name,
        name <> State.CachePrimaryKey -> name <> State.CacheMatchedKey ->
        runState w' !! name = runState w !! name)
  /\ (CacheResult.cacheHit r = false ->
      Cache.getState State.CacheMatchedKey w' = Cache.getState State.CacheMatchedKey w).
Proof.
  cbv zeta. destruct (enabled options) eqn:Hen.
  - destruct (restoreCache_world options type w Hen) as (Hsave & _ & Hrs).
    pose proof (CacheLifecycle.beforeRestore_runState PLATFORM HOME sha env options type w)
      as Hbefore.
    split_and!.
    + exact Hsave.
    + intros name Hpk Hmk. rewrite Hrs.
      destruct (fst _) as [matchedKey|]; [destruct (JS.truthy matchedKey)|];
        rewrite ?(lookup_insert_ne _ State.CacheMatchedKey) by congruence;
        rewrite Hbefore; now apply lookup_insert_ne.
    + unfold Cache.getState. rewrite Hrs.
      unfold Cache.restoreCache, Cache.callRestore. rewrite Hen. cbn [negb].
      destruct (cache_restoreCache env _ _ _ _) as [[matchedKey|] fs']; cbn [fst];
        [destruct (JS.truthy matchedKey)|]; cbn [fst snd CacheResult.cacheHit];
        try discriminate; intros _; rewrite Hbefore;
        now rewrite lookup_insert_ne by discriminate.
  - unfold Cache.restoreCache. rewrite Hen. cbn. easy.
Qed.

(** X5.  The run state has one primary key for all cache types.  After
    an enabled restore for one type, a save for any type and with any
    options takes the key of that restore: its own options and its own
    type no longer enter the key, and the call it makes to the store
    carries the restored type's key. *)
Theorem saveCache_takes_restored_key options type w options2 type2 w2 :
  enabled options = true ->
  runState w2 = runState (snd (restoreCache options type w)) ->
  let key := getPrimaryKey (primaryKey options) type in
  savedPrimaryKey options2 type2 w2 = key
  /\ forall call,
       saveCalls (snd (saveCache options2 type2 w2)) = call :: saveCalls w2 ->
       call = (resolvePaths options2 type2, key).
Proof.
  intros Hen Hrs. cbv zeta.
  assert (Hkey : savedPrimaryKey options2 type2 w2 = getPrimaryKey (primaryKey options) type).
  { pose proof (restoreCache_persists_primaryKey options type w Hen) as Hpk.
    unfold Cache.savedPrimaryKey, Cache.getState in *. rewrite Hrs, Hpk.
    destruct (JS.isEmpty _) eqn:E; [|reflexivity].
    apply JSFacts.isEmpty_true in E.
    now apply KeyDeriver.getPrimaryKey_nonempty in E. }
  split; [exact Hkey|]. intros call Hcall.
  destruct (saveCache_effect options2 type2 w2) as (_ & _ & _ & [Hsame|Hone] & _).
  - rewrite Hsame in Hcall. apply (f_equal length) in Hcall. cbn in Hcall. lia.
  - rewrite Hone in Hcall. injection Hcall as <-. now rewrite Hkey.
Qed.

End WithEnvironment.

Lemma saveCache_takes_restored_key_witness :
  Cache.savedPrimaryKey "linux" "abc123" Examples.someOptions ARTIFACTS
    (snd (Cache.restoreCache "linux" "/home" "abc123" Examples.exactStore
            Examples.someOptions RPC Examples.emptyWorld))
  = "linux-foundry-chain-fork-test-key".
Proof.
  exact (proj1 (saveCache_takes_restored_key "linux" "/home" "abc123" Examples.exactStore
                  Examples.someOptions RPC Examples.emptyWorld
                  Examples.someOptions ARTIFACTS _ eq_refl eq_refl)).
Defined.

End LifecycleFrames.

(** ** The cache steps of the action: restore in [main], save in [post] *)

Module ActionSteps.

Section WithEnvironment.

Variable PLATFORM : string.
Variable HOME : string.
Variable sha : string.
Variable env : Collaborators.

Local Abbreviation getPrimaryKey := (Cache.getPrimaryKey PLATFORM sha).
Local Abbreviation savedPrimaryKey := (Cache.savedPrimaryKey PLATFORM sha).
Local Abbreviation saveCache := (Cache.saveCache PLATFORM HOME sha env).
Local Abbreviation restoreCaches := (Index.restoreCaches PLATFORM HOME sha env).
Local Abbreviation run := (Post.run PLATFORM HOME sha env).

Local Abbreviation savedUpTo := (Post.savedUpTo PLATFORM HOME sha).
Local Abbreviation lastRestored := Index.lastRestored.

Lemma savedUpTo_refl options w : savedUpTo 0 options w w.
Proof.
  unfold Post.savedUpTo. split_and!; try reflexivity.
  exists []. split_and!; [reflexivity|cbn; lia|intros ? []].
Qed.

Lemma savedUpTo_weaken n m options w w' :
  (n <= m)%nat -> savedUpTo n options w w' -> savedUpTo m options w w'.
Proof.
  intros Hle (H1 & H2 & H3 & calls & H4 & H5 & H6).
  unfold Post.savedUpTo. split_and!; try assumption.
  exists calls. split_and!; [assumption|lia|assumption].
Qed.

Lemma savedUpTo_step n options type w w' :
  savedUpTo n options w w' ->
  savedUpTo (S n) options w (snd (saveCache options type w')).
Proof.
  intros (H1 & H2 & H3 & calls & H4 & H5 & H6).
  destruct (LifecycleFrames.saveCache_effect PLATFORM HOME sha env options type w')
    as (E1 & E2 & E3 & E4 & _).
  unfold Post.savedUpTo. split_and!; try congruence.
  destruct E4 as [E4|E4]; rewrite E4, H4.
  - exists calls. split_and!; [reflexivity|lia|assumption].
  - exists ((Cache.resolvePaths HOME options type, savedPrimaryKey options type w') :: calls).
    split_and!; [reflexivity|cbn; lia|].
    intros call [<-|Hin]; [|now apply H6].
    exists type. unfold Cache.savedPrimaryKey, Cache.getState. now rewrite H1.
Qed.

Lemma run_effect earlyExit cache cacheKey gasSnapshot w :
  exists cacheEnabled,
    savedUpTo 3 (Post.cacheOptions cacheEnabled cacheKey) w
      (snd (run earlyExit cache cacheKey gasSnapshot w)).
Proof.
  unfold Post.run.
  destruct cache as [cacheEnabled|], gasSnapshot as [gasSnapshotEnabled|];
    try (exists true; cbn [snd];
         apply (savedUpTo_weaken 0); [lia|apply savedUpTo_refl]).
  exists cacheEnabled. cbn [snd].
  destruct cacheEnabled; [|apply (savedUpTo_weaken 0); [lia|apply savedUpTo_refl]].
  unfold Cache.saveRPCCache, Cache.saveArtifactsCache, Cache.saveGasSnapshotCache.
  destruct gasSnapshotEnabled.
  - do 3 apply savedUpTo_step. apply savedUpTo_refl.
  - apply (savedUpTo_weaken 2); [lia|]. do 2 apply savedUpTo_step. apply savedUpTo_refl.
Qed.

(** X6.  The post step only saves: it leaves the run state, the file
    system and the restore log as they are and calls the store's save
    at most three times.  It ends the process with code 0 when asked to
    exit early, and with code 1 when a boolean input cannot be read, in
    which case nothing is saved. *)
Theorem post_run_only_saves earlyExit cache cacheKey gasSnapshot w :
  let exitCode := fst (run earlyExit cache cacheKey gasSnapshot w) in
  let w' := snd (run earlyExit cache cacheKey gasSnapshot w) in
  runState w' = runState w
  /\ existing w' = existing w
  /\ restoreCalls w' = restoreCalls w
  /\ (exists calls, saveCalls w' = (calls ++ saveCalls w)%list /\ (length calls <= 3)%nat)
  /\ (earlyExit = false -> exitCode = None)
  /\ (earlyExit = true ->
      match cache, gasSnapshot with
      | Some _, Some _ => exitCode = Some 0%Z
      | _, _ => exitCode = Some 1%Z /\ w' = w
      end).
Proof.
  cbv zeta.
  destruct (run_effect earlyExit cache cacheKey gasSnapshot w)
    as (cacheEnabled & H1 & H2 & H3 & calls & H4 & H5 & _).
  split_and!; try assumption.
  - now exists calls.
  - intros ->. unfold Post.run. now destruct cache, gasSnapshot.
  - intros ->. unfold Post.run. now destruct cache, gasSnapshot.
Qed.

Lemma savedPrimaryKey_of_state options type w key :
  Cache.getState State.CachePrimaryKey w = key -> key <> EmptyString ->
  savedPrimaryKey options type w = key.
Proof.
  intros <- Hne. unfold Cache.savedPrimaryKey.
  destruct (JS.isEmpty _) eqn:E; [|reflexivity].
  now apply JSFacts.isEmpty_true in E.
Qed.

Lemma restoreCaches_persists_last_key cacheKey cacheRestoreKeys gasSnapshotEnabled w :
  Cache.getState State.CachePrimaryKey
    (restoreCaches true cacheKey cacheRestoreKeys gasSnapshotEnabled w)
  = getPrimaryKey (Some cacheKey) (lastRestored gasSnapshotEnabled).
Proof.
  unfold Index.restoreCaches, Cache.restoreRPCCache, Cache.restoreArtifactsCache,
    Cache.restoreGasSnapshotCache, Index.lastRestored. cbv zeta.
  destruct gasSnapshotEnabled;
    now rewrite LifecycleFrames.restoreCache_persists_primaryKey.
Qed.


End WithEnvironment.


End ActionSteps.

(** ** More on objects as lists of properties *)

Module ObjLaws.

Import ObjFacts.

Lemma keys_obj_set_In {A : Type} name name' (v : A) o :
  In name' (keys (obj_set name v o)) <-> name' = name \/ In name' (keys o).
Proof.
  induction o as [|[k x] o IH]; cbn.
  - intuition congruence.
  - destruct (String.eqb_spec k name) as [->|Hne]; cbn.
    + intuition congruence.
    + rewrite IH. intuition congruence.
Qed.

Lemma keys_obj_set_new {A : Type} name (v : A) o :
  ~ In name (keys o) -> keys (obj_set name v o) = (keys o ++ [name])%list.
Proof.
  induction o as [|[k x] o IH]; cbn; [reflexivity|].
  intros Hout. destruct (String.eqb_spec k name) as [->|Hne].
  - exfalso. apply Hout. now left.
  - cbn. f_equal. apply IH. intros Hin. apply Hout. now right.
Qed.

(** Objects with the same names in the same order and the same value
    under each name are equal, when no name is repeated. *)
Lemma obj_ext {A : Type} (a b : list (string * A)) :
  NoDup (keys a) -> keys a = keys b ->
  (forall name, obj_get name a = obj_get name b) -> a = b.
Proof.
  revert b. induction a as [|[k x] a IH]; intros [|[k' y] b] Hnd Hkeys Hget;
    try discriminate; [reflexivity|].
  cbn in Hkeys. injection Hkeys as <- Hkeys.
  pose proof (Hget k) as Hk. cbn in Hk. rewrite String.eqb_refl in Hk.
  injection Hk as <-.
  cbn in Hnd. inversion Hnd as [|? ? Hfresh Hnd']; subst.
  f_equal. apply IH; [exact Hnd'|exact Hkeys|].
  intros name. specialize (Hget name). cbn in Hget.
  destruct (String.eqb_spec k name) as [->|Hne]; [|exact Hget].
  rewrite list_elem_of_In in Hfresh.
  assert (Ha : obj_get name a = None) by now apply obj_get_None.
  assert (Hb : obj_get name b = None).
  { apply obj_get_None. unfold keys in *. now rewrite <- Hkeys. }
  now rewrite Ha, Hb.
Qed.

End ObjLaws.

(** ** The in-memory cache store of the tests *)

Module FakeStore.

Import ObjFacts.

Lemma has_iff name (caches : FakeCache.Caches) :
  FakeCache.has name caches = true <-> In name (keys caches).
Proof.
  unfold FakeCache.has. destruct (obj_get name caches) eqn:E.
  - split; [intros _|reflexivity].
    destruct (in_dec String.string_dec name (keys caches)) as [Hin|Hout]; [exact Hin|].
    apply obj_get_None in Hout. congruence.
  - apply obj_get_None in E. split; [discriminate|contradiction].
Qed.

Lemma saveCache_keeps caches cachePaths name name' :
  In name' (keys caches) ->
  In name' (keys (snd (FakeCache.saveCache caches cachePaths name))).
Proof.
  intros Hin. unfold FakeCache.saveCache.
  destruct (FakeCache.has name caches) eqn:E; [exact Hin|]. cbn [snd].
  rewrite ObjLaws.keys_obj_set_new.
  - apply in_or_app. now left.
  - intros H%has_iff. congruence.
Qed.

Lemma saveCache_stores caches cachePaths name :
  In name (keys (snd (FakeCache.saveCache caches cachePaths name))).
Proof.
  unfold FakeCache.saveCache.
  destruct (FakeCache.has name caches) eqn:E; cbn [snd].
  - now apply has_iff.
  - rewrite ObjLaws.keys_obj_set_new.
    + apply in_or_app. right. now left.
    + intros H%has_iff. congruence.
Qed.

(** X8.  Saving under a key and restoring with it is an exact hit,
    whatever the paths and restore keys.  A key is never overwritten: a
    save answers -1 exactly when the key is already there, and then the
    store is as before; otherwise the key goes last and the id is the
    new number of entries.  A second save under the same key answers
    -1. *)
Theorem fake_save_then_restore caches cachePaths name cachePaths' restoreKeys :
  let id := fst (FakeCache.saveCache caches cachePaths name) in
  let caches' := snd (FakeCache.saveCache caches cachePaths name) in
  FakeCache.restoreCache caches' cachePaths' name restoreKeys = Some name
  /\ (id = (-1)%Z <-> In name (keys caches))
  /\ (In name (keys caches) -> caches' = caches)
  /\ (~ In name (keys caches) ->
      keys caches' = (keys caches ++ [name])%list
      /\ id = Z.of_nat (S (length caches)))
  /\ FakeCache.saveCache caches' cachePaths' name = ((-1)%Z, caches').
Proof.
  cbv zeta.
  pose proof (saveCache_stores caches cachePaths name) as Hin.
  apply has_iff in Hin.
  split_and!.
  - unfold FakeCache.restoreCache. now rewrite Hin.
  - unfold FakeCache.saveCache.
    destruct (FakeCache.has name caches) eqn:E; cbn [fst].
    + split; [intros _; now apply has_iff|reflexivity].
    + split; [lia|]. intros H%has_iff. congruence.
  - intros H%has_iff. unfold FakeCache.saveCache. now rewrite H.
  - intros Hout. unfold FakeCache.saveCache.
    destruct (FakeCache.has name caches) eqn:E;
      [apply has_iff in E; contradiction|]. cbn [fst snd].
    pose proof (ObjLaws.keys_obj_set_new name (FakeCache.entryFor name cachePaths) caches Hout)
      as Hkeys.
    split; [exact Hkeys|].
    apply (f_equal length) in Hkeys. unfold keys in Hkeys.
    rewrite length_app, !length_map in Hkeys. cbn in Hkeys. lia.
  - unfold FakeCache.saveCache at 1. now rewrite Hin.
Qed.

Lemma tryRestoreKeys_Some restoreKeys (caches : FakeCache.Caches) name :
  FakeCache.tryRestoreKeys restoreKeys caches = Some name ->
  In name (keys caches)
  /\ exists restoreKey, In restoreKey restoreKeys /\ JS.startsWith name restoreKey = true.
Proof.
  induction restoreKeys as [|restoreKey rest IH]; [discriminate|].
  cbn [FakeCache.tryRestoreKeys].
  destruct (List.find _ (keys caches)) as [found|] eqn:E.
  - intros [= <-]. apply find_some in E as [Hin Hstarts].
    split; [exact Hin|]. exists restoreKey. split; [now left|exact Hstarts].
  - intros (Hin & rk & Hrk & Hstarts)%IH.
    split; [exact Hin|]. exists rk. split; [now right|exact Hstarts].
Qed.

Lemma tryRestoreKeys_None restoreKeys (caches : FakeCache.Caches) :
  FakeCache.tryRestoreKeys restoreKeys caches = None <->
  forall restoreKey name,
    In restoreKey restoreKeys -> In name (keys caches) ->
    JS.startsWith name restoreKey = false.
Proof.
  induction restoreKeys as [|restoreKey rest IH]; cbn [FakeCache.tryRestoreKeys].
  - split; [intros _ ? ? []|reflexivity].
  - destruct (List.find _ (keys caches)) as [found|] eqn:E.
    + split; [discriminate|]. intros H. apply find_some in E as [Hin Hstarts].
      rewrite (H restoreKey found) in Hstarts; [discriminate|now left|exact Hin].
    + rewrite IH. split.
      * intros H rk name [<-|Hrk] Hin; [|now apply H].
        exact (find_none _ _ E name Hin).
      * intros H rk name Hrk Hin. apply H; [now right|exact Hin].
Qed.

(** X9.  A restore answers only with a key the store holds: the
    primary key whenever it is there, before any restore key is looked
    at, and otherwise a stored key that begins with one of the restore
    keys.  It answers nothing exactly when the store holds neither the
    primary key nor a key beginning with a restore key. *)
Theorem fake_restore_answers caches cachePaths primaryKey restoreKeys :
  let answer := FakeCache.restoreCache caches cachePaths primaryKey (Some restoreKeys) in
  (In primaryKey (keys caches) -> answer = Some primaryKey)
  /\ (forall name, answer = Some name ->
        In name (keys caches)
        /\ (name = primaryKey
            \/ exists restoreKey,
                 In restoreKey restoreKeys /\ JS.startsWith name restoreKey = true))
  /\ (answer = None <->
      ~ In primaryKey (keys caches)
      /\ forall restoreKey name,
           In restoreKey restoreKeys -> In name (keys caches) ->
           JS.startsWith name restoreKey = false).
Proof.
  cbv zeta. unfold FakeCache.restoreCache.
  destruct (FakeCache.has primaryKey caches) eqn:E.
  - apply has_iff in E. split_and!.
    + reflexivity.
    + intros name [= <-]. split; [exact E|now left].
    + split; [discriminate|]. intros [Hout _]. contradiction.
  - assert (Hout : ~ In primaryKey (keys caches))
      by (intros H%has_iff; congruence).
    split_and!.
    + intros Hin. contradiction.
    + intros name (Hin & Hrk)%tryRestoreKeys_Some. split; [exact Hin|now right].
    + rewrite tryRestoreKeys_None. split; [intros H; now split|now intros [_ H]].
Qed.

Section EndToEnd.

Variable PLATFORM : string.
Variable HOME : string.
Variable sha : string.
Variable initial : FakeCache.Caches.
Variable mkdirSync : gset string -> string -> option (gset string).

Local Abbreviation env := (FakeCache.collaborators initial mkdirSync).
Local Abbreviation getPrimaryKey := (Cache.getPrimaryKey PLATFORM sha).
Local Abbreviation savedPrimaryKey := (Cache.savedPrimaryKey PLATFORM sha).
Local Abbreviation restoreCache := (Cache.restoreCache PLATFORM HOME sha env).
Local Abbreviation saveCache := (Cache.saveCache PLATFORM HOME sha env).

Lemma cachesIn_logged w cachePaths name :
  In (cachePaths, name) (saveCalls w) -> In name (keys (FakeCache.cachesIn initial w)).
Proof.
  unfold FakeCache.cachesIn.
  induction (saveCalls w) as [|call calls IH]; [intros []|].
  cbn [fold_right]. intros [->|Hin]; cbn [fst snd].
  - apply saveCache_stores.
  - now apply saveCache_keeps, IH.
Qed.

Lemma restoreCache_finds_logged options type w cachePaths :
  enabled options = true ->
  In (cachePaths, getPrimaryKey (primaryKey options) type) (saveCalls w) ->
  let r := fst (restoreCache options type w) in
  CacheResult.cacheHit r = true
  /\ CacheResult.matchedKey r = Some (getPrimaryKey (primaryKey options) type).
Proof.
  intros Hen Hin. cbv zeta. unfold Cache.restoreCache, Cache.callRestore.
  rewrite Hen. cbn [negb cache_restoreCache FakeCache.collaborators].
  destruct (CacheLifecycle.beforeRestore_calls PLATFORM HOME sha env options type w)
    as [_ Hsave].
  rewrite <- Hsave in Hin. apply cachesIn_logged, has_iff in Hin.
  unfold FakeCache.restoreCache. rewrite Hin.
  pose proof (KeyDeriver.getPrimaryKey_nonempty PLATFORM sha (primaryKey options) type)
    as Hne.
  destruct (getPrimaryKey (primaryKey options) type) as [|c key]; [contradiction|].
  cbn. easy.
Qed.

(** X10.  The lifecycle over the in-memory store of the tests: once a
    save has answered true, an enabled restore whose primary key is the
    saved key, in any world whose save log extends the one the save
    left, is a hit on exactly that key; and saving again right away
    answers false, because the store does not overwrite. *)
Theorem saved_key_is_restored options type w options2 type2 w2 more :
  fst (saveCache options type w) = true ->
  saveCalls w2 = (more ++ saveCalls (snd (saveCache options type w)))%list ->
  enabled options2 = true ->
  getPrimaryKey (primaryKey options2) type2 = savedPrimaryKey options type w ->
  let r := fst (restoreCache options2 type2 w2) in
  CacheResult.cacheHit r = true
  /\ CacheResult.matchedKey r = Some (savedPrimaryKey options type w)
  /\ fst (saveCache options type (snd (saveCache options type w))) = false.
Proof.
  intros Hsaved Hlog Hen Hkey. cbv zeta.
  destruct (LifecycleFrames.saveCache_effect PLATFORM HOME sha env options type w)
    as (Hrs & Hfs & _ & _ & Hcall).
  destruct (Hcall Hsaved) as (Hcalls & _). clear Hcall.
  assert (Hin : In (Cache.resolvePaths HOME options type,
                    getPrimaryKey (primaryKey options2) type2) (saveCalls w2)).
  { rewrite Hlog, Hcalls, Hkey. apply in_or_app. right. now left. }
  destruct (restoreCache_finds_logged options2 type2 w2 _ Hen Hin) as [Hhit Hmatched].
  split_and!; [exact Hhit|now rewrite <- Hkey|].
  set (w' := snd (saveCache options type w)) in *.
  assert (Hkey' : savedPrimaryKey options type w' = savedPrimaryKey options type w)
    by (unfold Cache.savedPrimaryKey, Cache.getState; now rewrite Hrs).
  assert (Hthere : FakeCache.has (savedPrimaryKey options type w)
                     (FakeCache.cachesIn initial w') = true).
  { apply has_iff, (cachesIn_logged w' (Cache.resolvePaths HOME options type)).
    rewrite Hcalls. now left. }
  unfold Cache.saveCache.
  destruct (negb (enabled options)); [reflexivity|].
  destruct (negb (forallb _ _)); [reflexivity|].
  destruct (JS.isEmpty _); [reflexivity|].
  destruct (String.eqb _ _); [reflexivity|].
  unfold Cache.callSave. cbn [cache_saveCache FakeCache.collaborators].
  unfold FakeCache.saveCache. rewrite Hkey', Hthere. reflexivity.
Qed.

End EndToEnd.

Lemma saved_key_is_restored_witness :
  let store := FakeCache.collaborators [] (fun fs dirPath => Some ({[dirPath]} ∪ fs)) in
  let w := {| runState := ∅; existing := {["/cache/rpc"]};
              restoreCalls := []; saveCalls := [] |} in
  CacheResult.cacheHit
    (fst (Cache.restoreCache "linux" "/home" "abc123" store Examples.someOptions RPC
            (snd (Cache.saveCache "linux" "/home" "abc123" store Examples.someOptions RPC w))))
  = true.
Proof.
  cbv zeta.
  refine (proj1 (saved_key_is_restored "linux" "/home" "abc123" []
                   (fun fs dirPath => Some ({[dirPath]} ∪ fs))
                   Examples.someOptions RPC
                   {| runState := ∅; existing := {["/cache/rpc"]};
                      restoreCalls := []; saveCalls := [] |}
                   Examples.someOptions RPC _ [] _ eq_refl eq_refl _)).
  - vm_compute. reflexivity.
  - vm_compute. reflexivity.
Defined.

End FakeStore.

(** ** Across runs: what the action finds of what it saved *)

Module AcrossRuns.

Section WithEnvironment.

Variable PLATFORM : string.
Variable HOME : string.
Variable sha : string.
Variable mkdirSync : gset string -> string -> option (gset string).

(** The tests' store, empty at first. *)
Local Abbreviation env := (FakeCache.collaborators [] mkdirSync).
Local Abbreviation getCachePrefix := (Cache.getCachePrefix PLATFORM).
Local Abbreviation getPrimaryKey := (Cache.getPrimaryKey PLATFORM sha).
Local Abbreviation restoreCache := (Cache.restoreCache PLATFORM HOME sha env).
Local Abbreviation restoreCaches := (Index.restoreCaches PLATFORM HOME sha env).
Local Abbreviation run := (Post.run PLATFORM HOME sha env).

Lemma saveCache_keys caches cachePaths name name' :
  In name' (keys (snd (FakeCache.saveCache caches cachePaths name))) ->
  name' = name \/ In name' (keys caches).
Proof.
  unfold FakeCache.saveCache. destruct (FakeCache.has name caches); cbn [snd].
  - now right.
  - apply ObjLaws.keys_obj_set_In.
Qed.

Lemma cachesIn_only_logged w name :
  In name (keys (FakeCache.cachesIn [] w)) -> exists cachePaths, In (cachePaths, name) (saveCalls w).
Proof.
  unfold FakeCache.cachesIn.
  induction (saveCalls w) as [|[cachePaths key] calls IH]; cbn [fold_right fst snd].
  - intros [].
  - intros [->|Hin]%saveCache_keys.
    + exists cachePaths. now left.
    + destruct (IH Hin) as [paths Hpaths]. exists paths. now right.
Qed.

Lemma miss_has_no_key (store : Collaborators) options type w :
  CacheResult.cacheHit (fst (Cache.restoreCache PLATFORM HOME sha store options type w))
  = false ->
  CacheResult.matchedKey (fst (Cache.restoreCache PLATFORM HOME sha store options type w))
  = None.
Proof.
  unfold Cache.restoreCache, Cache.callRestore.
  destruct (negb (enabled options)); [reflexivity|].
  destruct (cache_restoreCache store _ _ _ _) as [[matchedKey|] fs'];
    [destruct (JS.truthy matchedKey)|]; first [reflexivity | discriminate].
Qed.

(** A restore for one cache type finds nothing in a store all of whose
    keys are keys of another type. *)
Lemma restoreCache_other_type other options type w :
  type <> other ->
  (forall call, In call (saveCalls w) ->
                exists rest, snd call = getCachePrefix other +:+ rest) ->
  CacheResult.cacheHit (fst (restoreCache options type w)) = false.
Proof.
  intros Hne Hlog. unfold Cache.restoreCache, Cache.callRestore.
  destruct (enabled options); [|reflexivity]. cbn [negb].
  cbn [cache_restoreCache FakeCache.collaborators].
  destruct (CacheLifecycle.beforeRestore_calls PLATFORM HOME sha env options type w)
    as [_ Hsave].
  assert (Hfound : forall name,
             In name (keys (FakeCache.cachesIn []
                              (Cache.beforeRestore PLATFORM HOME sha env options type w))) ->
             exists rest, name = getCachePrefix other +:+ rest).
  { intros name [cachePaths Hin]%cachesIn_only_logged. rewrite Hsave in Hin.
    exact (Hlog _ Hin). }
  unfold FakeCache.restoreCache.
  destruct (FakeCache.has _ _) eqn:Ehas.
  - exfalso. apply FakeStore.has_iff, Hfound in Ehas as [rest Heq].
    destruct (KeySpaces.getPrimaryKey_shape PLATFORM sha (primaryKey options) type)
      as [rest' Hkey].
    rewrite Hkey in Heq. apply KeySpaces.prefixes_disjoint in Heq. congruence.
  - destruct (FakeCache.tryRestoreKeys _ _) as [name|] eqn:E; [|reflexivity].
    exfalso.
    apply FakeStore.tryRestoreKeys_Some in E as (Hin & restoreKey & Hrk & Hstarts).
    apply Hfound in Hin as [rest ->].
    apply KeySpaces.getRestoreKeys_prefixed in Hrk as [rest' ->].
    apply StringFacts.startsWith_iff in Hstarts as [more Hstarts].
    rewrite JSFacts.append_assoc in Hstarts.
    apply KeySpaces.prefixes_disjoint in Hstarts. congruence.
Qed.

(** X11.  Over the tests' store the key spaces keep the cache types
    apart: in a store that holds only keys of one type, a restore for
    any other type reports no hit, whatever its options. *)
Theorem restore_ignores_other_types other options type w :
  type <> other ->
  (forall call, In call (saveCalls w) ->
                exists rest, snd call = getCachePrefix other +:+ rest) ->
  let r := fst (restoreCache options type w) in
  CacheResult.cacheHit r = false /\ CacheResult.matchedKey r = None.
Proof.
  intros Hne Hlog. cbv zeta.
  pose proof (restoreCache_other_type other options type w Hne Hlog) as Hmiss.
  split; [exact Hmiss|]. now apply miss_has_no_key.
Qed.

Lemma restoreCaches_saves_nothing cacheEnabled cacheKey cacheRestoreKeys gasSnapshotEnabled w :
  saveCalls (restoreCaches cacheEnabled cacheKey cacheRestoreKeys gasSnapshotEnabled w)
  = saveCalls w.
Proof.
  unfold Index.restoreCaches, Cache.restoreRPCCache, Cache.restoreArtifactsCache,
    Cache.restoreGasSnapshotCache. cbv zeta.
  destruct cacheEnabled; [|reflexivity].
  assert (Hstep : forall type w0,
             saveCalls (snd (restoreCache
                               (Index.cacheOptions true cacheKey cacheRestoreKeys) type w0))
             = saveCalls w0).
  { intros type w0.
    now destruct (LifecycleFrames.restoreCache_world PLATFORM HOME sha env
                    (Index.cacheOptions true cacheKey cacheRestoreKeys) type w0 eq_refl)
      as (H & _). }
  destruct gasSnapshotEnabled; now rewrite !Hstep.
Qed.

(** X12.  One run of the action over an empty store, then a later run:
    [main] restores with caching enabled, the post step saves, and
    whatever it saves lies under the key of the cache type restored
    last.  So the RPC cache is never restored from what the action
    itself saved: in any later world with that save log, a restore of
    the RPC cache reports no hit, whatever its options. *)
Theorem rpc_cache_is_not_found_again
    cacheKey cacheRestoreKeys gasSnapshotEnabled w
    earlyExit cache cacheKey' gasSnapshot options later :
  saveCalls w = [] ->
  saveCalls later
  = saveCalls
      (snd (run earlyExit cache cacheKey' gasSnapshot
              (restoreCaches true cacheKey cacheRestoreKeys gasSnapshotEnabled w))) ->
  CacheResult.cacheHit (fst (restoreCache options RPC later)) = false.
Proof.
  intros Hempty Hlater.
  set (w1 := restoreCaches true cacheKey cacheRestoreKeys gasSnapshotEnabled w) in *.
  assert (Hkey : Cache.getState State.CachePrimaryKey w1
                 = getPrimaryKey (Some cacheKey) (Index.lastRestored gasSnapshotEnabled))
    by apply ActionSteps.restoreCaches_persists_last_key.
  assert (Hnone : saveCalls w1 = [])
    by (unfold w1; now rewrite restoreCaches_saves_nothing).
  clearbody w1.
  destruct (ActionSteps.run_effect PLATFORM HOME sha env earlyExit cache cacheKey'
              gasSnapshot w1)
    as (cacheEnabled & _ & _ & _ & calls & Hcalls & _ & Hkeys).
  rewrite <- Hlater, Hnone, app_nil_r in Hcalls.
  apply (restoreCache_other_type (Index.lastRestored gasSnapshotEnabled)).
  - unfold Index.lastRestored. now destruct gasSnapshotEnabled.
  - intros call Hin. rewrite Hcalls in Hin.
    destruct (Hkeys call Hin) as [type ->]. cbn [snd].
    rewrite (ActionSteps.savedPrimaryKey_of_state PLATFORM sha
               (Post.cacheOptions cacheEnabled cacheKey') type w1 _ Hkey
               (KeyDeriver.getPrimaryKey_nonempty PLATFORM sha _ _)).
    apply KeySpaces.getPrimaryKey_shape.
Qed.

End WithEnvironment.

Lemma restore_ignores_other_types_witness :
  CacheResult.cacheHit
    (fst (Cache.restoreCache "linux" "/home" "abc123"
            (FakeCache.collaborators [] (fun fs dirPath => Some ({[dirPath]} ∪ fs)))
            Examples.someOptions RPC
            {| runState := ∅; existing := ∅; restoreCalls := [];
               saveCalls := [(["/cache/artifacts"], "linux-foundry-artifacts-test-key")] |}))
  = false.
Proof.
  refine (proj1 (restore_ignores_other_types "linux" "/home" "abc123"
                   (fun fs dirPath => Some ({[dirPath]} ∪ fs)) ARTIFACTS
                   Examples.someOptions RPC
                   {| runState := ∅; existing := ∅; restoreCalls := [];
                      saveCalls := [(["/cache/artifacts"],
                                     "linux-foundry-artifacts-test-key")] |} _ _)).
  - discriminate.
  - intros call [<-|[]]. now exists "test-key".
Defined.

Lemma rpc_cache_is_not_found_again_witness :
  let store := FakeCache.collaborators [] (fun fs dirPath => Some ({[dirPath]} ∪ fs)) in
  CacheResult.cacheHit
    (fst (Cache.restoreCache "linux" "/home" "abc123" store
            (Index.cacheOptions true "k" "") RPC
            (snd (Post.run "linux" "/home" "abc123" store true (Some true) "k" (Some true)
                    (Index.restoreCaches "linux" "/home" "abc123" store
                       true "k" "" true Examples.emptyWorld)))))
  = false.
Proof.
  cbv zeta.
  exact (rpc_cache_is_not_found_again "linux" "/home" "abc123"
           (fun fs dirPath => Some ({[dirPath]} ∪ fs))
           "k" "" true Examples.emptyWorld true (Some true) "k" (Some true)
           (Index.cacheOptions true "k" "") _ eq_refl eq_refl).
Defined.

End AcrossRuns.

(** ** More on parsing and comparing *)

Module SnapshotLaws.

Import ObjFacts.

Local Open Scope float_scope.

(** What the loop over the lines keeps true of the mapping. *)
Lemma fold_parseLine_invariant (P : string -> float -> Prop) lines result :
  (forall name v, result !! name = Some v -> P name v) ->
  (forall line testName gasUsed,
      In line lines -> Gas.matchSnapshotLine line = Some (testName, gasUsed) ->
      JS.trim testName <> "__proto__" ->
      P (JS.trim testName) (Gas.parseInt10 gasUsed)) ->
  forall name v, fold_left Gas.parseLine lines result !! name = Some v -> P name v.
Proof.
  revert result. induction lines as [|line lines IH]; intros result Hres Hlines.
  - exact Hres.
  - cbn [fold_left]. apply IH.
    + unfold Gas.parseLine.
      destruct (Gas.matchSnapshotLine line) as [[testName gasUsed]|] eqn:E; [|exact Hres].
      cbv zeta.
      destruct (String.eqb_spec (JS.trim testName) "__proto__") as [Hproto|Hproto];
        [exact Hres|].
      intros name v. destruct (decide (JS.trim testName = name)) as [<-|Hne].
      * rewrite lookup_insert_eq. intros [= <-].
        apply (Hlines line); [now left|exact E|exact Hproto].
      * rewrite lookup_insert_ne by exact Hne. apply Hres.
    + intros l testName gasUsed Hin. apply Hlines. now right.
Qed.

(** X13.  Every name of the parsed mapping is a trimmed string other
    than [__proto__], and it comes from a line of the text (a piece
    between two LF) that the pattern matches: the name is the trimmed
    first capture and the value is the integer of the second capture. *)
Theorem parseGasSnapshot_names snapshotOutput name v :
  Gas.parseGasSnapshot snapshotOutput !! name = Some v ->
  JS.trim name = name
  /\ name <> "__proto__"
  /\ exists line testName gasUsed,
       In line (JS.split (Ascii.eqb JS.LF) snapshotOutput)
       /\ Gas.matchSnapshotLine line = Some (testName, gasUsed)
       /\ name = JS.trim testName
       /\ v = Gas.parseInt10 gasUsed.
Proof.
  unfold Gas.parseGasSnapshot, Gas.parseLines.
  apply (fold_parseLine_invariant
           (fun name v =>
              JS.trim name = name
              /\ name <> "__proto__"
              /\ exists line testName gasUsed,
                   In line (JS.split (Ascii.eqb JS.LF) snapshotOutput)
                   /\ Gas.matchSnapshotLine line = Some (testName, gasUsed)
                   /\ name = JS.trim testName
                   /\ v = Gas.parseInt10 gasUsed)).
  - intros n x H. rewrite lookup_empty in H. discriminate.
  - intros line testName gasUsed Hin Hmatch Hproto. split_and!.
    + apply JSFacts.trim_idempotent.
    + exact Hproto.
    + now exists line, testName, gasUsed.
Qed.

Lemma parseGasSnapshot_names_witness :
  JS.trim "test_a()" = "test_a()" /\ "test_a()" <> "__proto__".
Proof.
  refine ((fun H => conj (proj1 H) (proj1 (proj2 H)))
            (parseGasSnapshot_names Examples.rawOutput "test_a()" 100 _)).
  vm_compute. reflexivity.
Defined.

Lemma fold_compareStep_missing prev entries results :
  (forall name, In name (keys entries) -> obj_read name (testResults prev) = Missing) ->
  fold_left (Gas.compareStep prev) entries results = results.
Proof.
  revert results. induction entries as [|[name current] entries IH]; intros results H.
  - reflexivity.
  - cbn [fold_left]. unfold Gas.compareStep at 2.
    rewrite (H name) by now left.
    apply IH. intros n Hn. apply H. now right.
Qed.

(** X14.  Comparing against a previous snapshot in which none of the
    current names is found (an empty one, say, when no test is named as
    a member of [Object.prototype]) gives back the current snapshot as
    it is, comparisons of an earlier run included. *)
Theorem compareGasSnapshots_nothing_in_common cur prev :
  (forall name, In name (keys (testResults cur)) ->
                obj_get name (testResults prev) = None /\ inheritedName name = false) ->
  Gas.compareGasSnapshots cur prev = cur.
Proof.
  intros H. unfold Gas.compareGasSnapshots.
  rewrite fold_compareStep_missing; [now destruct cur|].
  intros name [Hget Hname]%H. now apply obj_read_missing.
Qed.

Lemma compareGasSnapshots_nothing_in_common_witness :
  Gas.compareGasSnapshots Examples.compared Examples.previousOfNothing
  = Examples.compared.
Proof.
  apply compareGasSnapshots_nothing_in_common.
  intros name [<-|[<-|[<-|[<-|[]]]]]; split; reflexivity.
Defined.

(** X15.  Comparing is idempotent in its first argument: comparing the
    compared snapshot against the same previous snapshot once more
    changes nothing. *)
Theorem compareGasSnapshots_idempotent cur prev :
  NoDup (keys (testResults cur)) ->
  Gas.compareGasSnapshots (Gas.compareGasSnapshots cur prev) prev
  = Gas.compareGasSnapshots cur prev.
Proof.
  intros Hnd.
  pose proof (Comparator.compareGasSnapshots_keys cur prev) as Hkeys.
  assert (Hnd' : NoDup (keys (testResults (Gas.compareGasSnapshots cur prev))))
    by now rewrite Hkeys.
  assert (E : testResults (Gas.compareGasSnapshots (Gas.compareGasSnapshots cur prev) prev)
              = testResults (Gas.compareGasSnapshots cur prev)).
  { apply ObjLaws.obj_ext.
    - now rewrite Comparator.compareGasSnapshots_keys.
    - apply Comparator.compareGasSnapshots_keys.
    - intros name.
      rewrite (Comparator.compareGasSnapshots_get _ prev name Hnd').
      rewrite (Comparator.compareGasSnapshots_get cur prev name Hnd).
      destruct (obj_get name (testResults cur)) as [current|]; [|reflexivity].
      destruct (obj_read name (testResults prev)) as [previous| |]; reflexivity. }
  unfold Gas.compareGasSnapshots in *. cbn [testResults timestamp commitSha] in *.
  now rewrite E.
Qed.

Lemma compareGasSnapshots_idempotent_witness :
  Gas.compareGasSnapshots
    (Gas.compareGasSnapshots Examples.current Examples.previousRun) Examples.previousRun
  = Gas.compareGasSnapshots Examples.current Examples.previousRun.
Proof.
  apply compareGasSnapshots_idempotent.
  apply (bool_decide_unpack _). vm_compute. exact I.
Defined.

End SnapshotLaws.

(** ** Numbers: an unchanged measurement *)

Module UnchangedGas.

Local Open Scope float_scope.

Lemma SFsub_diag s m e :
  SF64sub (S754_finite s m e) (S754_finite s m e) = S754_zero false.
Proof.
  unfold SF64sub, SFsub. cbv zeta. now rewrite Z.sub_diag.
Qed.

Lemma sub_diag g s m e : Prim2SF g = S754_finite s m e -> g - g = 0.
Proof.
  intros H. apply (FloatFacts.Prim2SF_inv (g - g) (S754_zero false)).
  rewrite FloatAxioms.sub_spec, H. apply SFsub_diag.
Qed.

(** The percentage of a change of zero. *)
Lemma percentage_of_no_change g s m e :
  Prim2SF g = S754_finite s m e -> Prim2SF ((0 / g) * 100) = S754_zero s.
Proof.
  intros H. rewrite FloatAxioms.mul_spec, FloatAxioms.div_spec, H.
  now destruct s.
Qed.

Lemma zero_is_zero p s : Prim2SF p = S754_zero s -> is_zero p = true.
Proof.
  intros H. unfold is_zero. rewrite FloatAxioms.eqb_spec, H. now destruct s.
Qed.

Lemma zero_not_significant p s :
  Prim2SF p = S754_zero s -> Gas.indicator 0 p = EmptyString.
Proof.
  intros H. unfold Gas.indicator. cbv zeta.
  rewrite FloatAxioms.leb_spec, FloatAxioms.abs_spec, H. reflexivity.
Qed.

(** X16.  A test whose gas is a finite non-zero number and the same in
    both snapshots gets the change 0 and a percentage that is zero (as
    a number: it is minus zero for a negative measurement).  Its row has
    no marker and the summary counts it as unchanged. *)
Theorem unchanged_gas cur prev s m e :
  gasUsed cur = gasUsed prev ->
  Prim2SF (gasUsed prev) = S754_finite s m e ->
  exists percentage,
    Gas.withComparison cur prev
    = {| gasUsed := gasUsed cur;
         comparison := Some {| previous := Some (gasUsed prev);
                               change := Some 0;
                               changePercentage := Some percentage |} |}
    /\ is_zero percentage = true
    /\ Gas.indicator 0 percentage = EmptyString
    /\ Gas.orZero (Some percentage) = 0
    /\ (Gas.orZero (Some 0) =? 0) = true.
Proof.
  intros Hsame Hfinite.
  exists ((0 / gasUsed prev) * 100).
  pose proof (percentage_of_no_change _ _ _ _ Hfinite) as Hpct.
  split_and!.
  - unfold Gas.withComparison. cbv zeta.
    now rewrite Hsame, (sub_diag _ _ _ _ Hfinite).
  - exact (zero_is_zero _ _ Hpct).
  - exact (zero_not_significant _ _ Hpct).
  - unfold Gas.orZero. rewrite (zero_is_zero _ _ Hpct). now rewrite orb_true_r.
  - reflexivity.
Qed.

Lemma unchanged_gas_witness :
  exists percentage,
    Gas.withComparison (Examples.entry 30000) (Examples.entry 30000)
    = {| gasUsed := 30000;
         comparison := Some {| previous := Some 30000;
                               change := Some 0;
                               changePercentage := Some percentage |} |}
    /\ is_zero percentage = true.
Proof.
  destruct (unchanged_gas (Examples.entry 30000) (Examples.entry 30000) _ _ _
              eq_refl eq_refl) as (percentage & H1 & H2 & _).
  exists percentage. split; [exact H1|exact H2].
Defined.

End UnchangedGas.

(** ** The history over many runs *)

Module HistoryLaws.

Lemma slice_last_app_slice {A : Type} (n : nat) (a b : list A) :
  Gas.slice_last n (Gas.slice_last n a ++ b) = Gas.slice_last n (a ++ b).
Proof.
  unfold Gas.slice_last.
  rewrite !length_app, length_drop, !drop_app, drop_drop, length_drop.
  f_equal; f_equal; lia.
Qed.

Lemma slice_last_map {A B : Type} (f : A -> B) (n : nat) (a : list A) :
  Gas.slice_last n (map f a) = map f (Gas.slice_last n a).
Proof.
  unfold Gas.slice_last. rewrite length_map. revert a.
  intros a. generalize (length a - n). intros k. revert a.
  induction k as [|k IH]; intros [|x a]; cbn; auto.
Qed.

(** The file after appending the records [records], one call after the
    other, every write succeeding. *)
Local Abbreviation appendAll records initial :=
  (fold_left (fun stored record => snd (Gas.addGasSnapshotToHistory record stored true))
     records initial).

Lemma appendAll_array records : forall log,
  records <> [] ->
  appendAll records (Gas.Parsed (JArray (map JSON.stored log)))
  = Gas.Parsed (JArray (map JSON.stored
                          (Gas.slice_last 100 (log ++ map Gas.toJson records)))).
Proof.
  induction records as [|record records IH]; intros log Hne; [contradiction|].
  cbn [fold_left map].
  assert (Hstep : snd (Gas.addGasSnapshotToHistory record
                         (Gas.Parsed (JArray (map JSON.stored log))) true)
                  = Gas.Parsed (JArray (map JSON.stored
                                          (Gas.slice_last 100 (log ++ [Gas.toJson record]))))).
  { unfold Gas.addGasSnapshotToHistory, Gas.appendHistory. cbn [Gas.loadHistory JSON.falsy snd].
    change (JSON.stored (JArray ?l)) with (JArray (map JSON.stored l)).
    do 2 f_equal. rewrite <- !slice_last_map, !map_app, map_map.
    do 2 f_equal. apply map_ext. intros v. apply History.stored_idempotent. }
  rewrite Hstep. destruct records as [|next records]; [reflexivity|].
  rewrite IH; [|discriminate].
  rewrite slice_last_app_slice, <- app_assoc. reflexivity.
Qed.

(** X17.  Appending run after run: after any number of appends the
    history file holds the last 100 entries of what it held at first
    followed by all the appended records, in order, each as
    [JSON.stringify] writes it.  So an entry leaves the history exactly
    when 100 newer ones have been appended after it.  A file that is
    absent, unreadable or falsy at first counts as an empty history. *)
Theorem history_is_last_hundred stored log records :
  Gas.loadHistory stored = Some log ->
  records <> [] ->
  let after := appendAll records stored in
  let history := Gas.slice_last 100 (log ++ map Gas.toJson records) in
  after = Gas.Parsed (JArray (map JSON.stored history))
  /\ length history = min 100 (length log + length records)
  /\ exists dropped, (log ++ map Gas.toJson records)%list = (dropped ++ history)%list.
Proof.
  intros Hload Hne. cbv zeta. split_and!.
  - destruct records as [|record records]; [contradiction|].
    cbn [fold_left map].
    assert (Hstep : snd (Gas.addGasSnapshotToHistory record stored true)
                    = Gas.Parsed (JArray (map JSON.stored
                                            (Gas.slice_last 100 (log ++ [Gas.toJson record]))))).
    { unfold Gas.addGasSnapshotToHistory. now rewrite Hload. }
    rewrite Hstep. destruct records as [|next records]; [reflexivity|].
    rewrite appendAll_array; [|discriminate].
    rewrite slice_last_app_slice, <- app_assoc. reflexivity.
  - unfold Gas.slice_last. rewrite length_drop, length_app, length_map. lia.
  - exists (take (length (log ++ map Gas.toJson records) - 100)
              (log ++ map Gas.toJson records)).
    unfold Gas.slice_last. now rewrite take_drop.
Qed.

Lemma history_is_last_hundred_witness :
  fold_left (fun stored record => snd (Gas.addGasSnapshotToHistory record stored true))
    [Examples.current; Examples.compared] Gas.Unreadable
  = Gas.Parsed
      (JArray (map JSON.stored
                 (Gas.slice_last 100
                    ([] ++ map Gas.toJson [Examples.current; Examples.compared])))).
Proof.
  exact (proj1 (history_is_last_hundred Gas.Unreadable []
                  [Examples.current; Examples.compared] eq_refl ltac:(discriminate))).
Defined.

End HistoryLaws.

(** ** More on the report *)

Module ReportLaws.

Local Open Scope float_scope.

(** A number that is not NaN is above zero, below zero or equal to
    zero, and only one of the three. *)
Lemma sign_cases v :
  is_nan v = false ->
  ((0 <? v) = true /\ (v <? 0) = false /\ (v =? 0) = false)
  \/ ((0 <? v) = false /\ (v <? 0) = true /\ (v =? 0) = false)
  \/ ((0 <? v) = false /\ (v <? 0) = false /\ (v =? 0) = true).
Proof.
  intros Hnan%FloatFacts.is_nan_spec.
  rewrite !FloatAxioms.ltb_spec, FloatAxioms.eqb_spec.
  change (Prim2SF 0) with (S754_zero false).
  destruct (Prim2SF v) as [s|s| |s m e]; try contradiction; destruct s; cbn; tauto.
Qed.

Lemma count_by_sign {A : Type} (f : A -> float) (l : list A) :
  (forall a, is_nan (f a) = false) ->
  (length (List.filter (fun a => (0 <? f a)%float) l)
   + length (List.filter (fun a => (f a <? 0)%float) l)
   + length (List.filter (fun a => (f a =? 0)%float) l) = length l)%nat.
Proof.
  intros Hnan. induction l as [|a l IH]; [reflexivity|].
  cbn [List.filter].
  destruct (sign_cases (f a) (Hnan a)) as [(-> & -> & ->)|[(-> & -> & ->)|(-> & -> & ->)]];
    cbn [length]; lia.
Qed.

(** X18.  The three counts of the summary add up to the total it
    prints: every compared test is counted as an increase, a decrease or
    unchanged and as one of them only (a change that is absent or NaN
    counts as unchanged), and the total is the number of tests that have
    a comparison. *)
Theorem summary_counts_add_up results :
  let sorted := Gas.sortedTests results in
  let count f := length (List.filter f sorted) in
  (count (fun t => (0 <? Gas.changeOrZero results t)%float)
   + count (fun t => (Gas.changeOrZero results t <? 0)%float)
   + count (fun t => (Gas.changeOrZero results t =? 0)%float) = length sorted)%nat
  /\ length sorted = length (Gas.testsWithComparison results).
Proof.
  cbv zeta. split.
  - apply (count_by_sign (Gas.changeOrZero results)).
    intros t. apply Report.orZero_not_nan.
  - apply Permutation_length, Report.sortedTests_perm.
Qed.

(** *** Stability of the sort *)

Lemma SFsub_of_equal X Y :
  SFcompare X Y = Some Eq -> JS.positiveSF (SF64sub Y X) = false.
Proof.
  destruct X as [sx|sx| |sx mx ex], Y as [sy|sy| |sy my ey];
    try (destruct sx); try (destruct sy); try discriminate; try reflexivity.
  all: cbn [SFcompare]; destruct (Z.compare_spec ex ey) as [->| |]; try discriminate;
    intros H; injection H as H;
    try (apply (f_equal CompOpp) in H; cbn [CompOpp] in H; rewrite CompOpp_involutive in H);
    apply Pos.compare_eq in H; subst;
    now rewrite UnchangedGas.SFsub_diag.
Qed.

(** The converse of [FloatFacts.ltb_sub]. *)
Lemma sub_positive_ltb x y : (0 <? y - x) = true -> (x <? y) = true.
Proof.
  intros H. destruct (x <? y) eqn:Hlt; [reflexivity|]. exfalso.
  pose proof H as H'. rewrite FloatFacts.ltb_zero, FloatAxioms.sub_spec in H'.
  rewrite FloatAxioms.ltb_spec in Hlt. unfold SFltb in Hlt.
  destruct (SFcompare (Prim2SF x) (Prim2SF y)) as [[]|] eqn:E; try discriminate.
  - now rewrite (SFsub_of_equal _ _ E) in H'.
  - assert (Hgt : (y <? x) = true).
    { rewrite FloatAxioms.ltb_spec. unfold SFltb.
      now rewrite FloatFacts.SFcompare_antisym, E. }
    apply FloatFacts.ltb_sub in Hgt. apply FloatFacts.sub_antisym in Hgt. congruence.
  - destruct (Prim2SF x) as [sx|sx| |sx mx ex], (Prim2SF y) as [sy|sy| |sy my ey];
      try discriminate E; try (destruct sy); try (destruct sx); discriminate H'.
Qed.

Lemma leb_sub x y : (y <=? x) = true -> (0 <? y - x) = false.
Proof.
  intros Hle. destruct (0 <? y - x) eqn:H; [|reflexivity].
  apply sub_positive_ltb in H.
  rewrite FloatAxioms.leb_spec in Hle. rewrite FloatAxioms.ltb_spec in H.
  unfold SFleb, SFltb in *. rewrite FloatFacts.SFcompare_antisym in Hle.
  now destruct (SFcompare (Prim2SF x) (Prim2SF y)) as [[]|].
Qed.

Lemma sort_sorted_input {A : Type} (cmp : A -> A -> float) (l : list A) :
  Sorted (fun a b => (0 <? cmp a b) = false) l -> Gas.sort cmp l = l.
Proof.
  unfold Gas.sort. induction 1 as [|a l Hsorted IH Hhd]; [reflexivity|].
  cbn [fold_right]. rewrite IH.
  destruct Hhd as [|b l Hab]; [reflexivity|].
  cbn [Gas.sortInsert]. now rewrite Hab.
Qed.

(** X19.  The sort is stable and moves nothing that is already in
    place: when the names with a comparison already stand by falling
    percentage (equal percentages included), the rows of the report are
    in the order of the record. *)
Theorem sortedTests_keeps_sorted_order results :
  Sorted (fun a b => (Gas.changePercentageOrZero results b
                      <=? Gas.changePercentageOrZero results a) = true)
    (Gas.testsWithComparison results) ->
  Gas.sortedTests results = Gas.testsWithComparison results.
Proof.
  intros H. unfold Gas.sortedTests. apply sort_sorted_input.
  induction H as [|a l Hsorted IH Hhd]; constructor; [exact IH|].
  destruct Hhd as [|b l Hab]; constructor. now apply leb_sub.
Qed.

Lemma sortedTests_keeps_sorted_order_witness :
  Gas.sortedTests
    [("first", {| gasUsed := 110; comparison := Some {| previous := Some 100;
                  change := Some 10; changePercentage := Some 10 |} |});
     ("second", {| gasUsed := 50; comparison := Some {| previous := Some 50;
                   change := Some 0; changePercentage := Some 0 |} |});
     ("third", {| gasUsed := 60; comparison := Some {| previous := Some 60;
                  change := Some 0; changePercentage := Some 0 |} |})]
  = ["first"; "second"; "third"].
Proof.
  apply (sortedTests_keeps_sorted_order
           [("first", {| gasUsed := 110; comparison := Some {| previous := Some 100;
                         change := Some 10; changePercentage := Some 10 |} |});
            ("second", {| gasUsed := 50; comparison := Some {| previous := Some 50;
                          change := Some 0; changePercentage := Some 0 |} |});
            ("third", {| gasUsed := 60; comparison := Some {| previous := Some 60;
                         change := Some 0; changePercentage := Some 0 |} |})]).
  repeat constructor.
Defined.

End ReportLaws.

(** ** Versions, platforms and the archive *)

Module PlatformFacts.

Lemma append_split (a b c d : string) :
  a +:+ b = c +:+ d -> (String.length a <= String.length c)%nat ->
  exists middle, c = a +:+ middle /\ b = middle +:+ d.
Proof.
  revert c. induction a as [|x a IH]; intros c H Hlen.
  - exists c. split; [reflexivity|exact H].
  - destruct c as [|y c]; [cbn in Hlen; lia|].
    rewrite !Parser.append_cons in H. injection H as <- H.
    destruct (IH c H) as (middle & -> & ->); [cbn in Hlen; lia|].
    now exists middle.
Qed.

(** Whether a string ends with [u] is decided by any tail of it that is
    at least as long as [u]. *)
Lemma endsWith_append (s t u : string) :
  (String.length u <= String.length t)%nat ->
  JS.endsWith (s +:+ t) u = JS.endsWith t u.
Proof.
  intros Hlen. apply eq_true_iff_eq. rewrite !StringFacts.endsWith_iff. split.
  - intros [front H].
    destruct (append_split s t front u H) as (middle & _ & Hm).
    + apply (f_equal String.length) in H. rewrite !StringFacts.length_append in H. lia.
    + now exists middle.
  - intros [front ->]. exists (s +:+ front). now rewrite JSFacts.append_assoc.
Qed.

Lemma isNightlyBuild_iff version :
  Platform.isNightlyBuild version = true
  <-> exists hash,
        version = "nightly-" +:+ hash /\ String.length hash = 40
        /\ JS.forallChars Platform.isLowerHex hash = true.
Proof.
  unfold Platform.isNightlyBuild. split.
  - destruct (Gas.stripPrefix "nightly-" version) as [hash|] eqn:E; [|discriminate].
    intros [Hlen Hhex]%andb_prop. apply Nat.eqb_eq in Hlen.
    exists hash. split_and!; [|assumption..].
    now apply Parser.stripPrefix_sound.
  - intros (hash & -> & Hlen & Hhex).
    rewrite Parser.stripPrefix_complete, Hhex. now rewrite Hlen.
Qed.

(** X20.  Only a version that is [nightly-] followed by exactly 40
    lower-case hexadecimal digits, and nothing else, becomes [nightly];
    every other version is left as it is.  Normalising twice is the same
    as normalising once. *)
Theorem normalizeVersionName_cases version :
  (forall hash,
      String.length hash = 40 -> JS.forallChars Platform.isLowerHex hash = true ->
      Platform.normalizeVersionName ("nightly-" +:+ hash) = "nightly")
  /\ (Platform.normalizeVersionName version <> version ->
      Platform.normalizeVersionName version = "nightly"
      /\ exists hash,
           version = "nightly-" +:+ hash /\ String.length hash = 40
           /\ JS.forallChars Platform.isLowerHex hash = true)
  /\ Platform.normalizeVersionName (Platform.normalizeVersionName version)
     = Platform.normalizeVersionName version.
Proof.
  unfold Platform.normalizeVersionName. split_and!.
  - intros hash Hlen Hhex.
    assert (H : Platform.isNightlyBuild ("nightly-" +:+ hash) = true)
      by (apply isNightlyBuild_iff; now exists hash).
    now rewrite H.
  - destruct (Platform.isNightlyBuild version) eqn:E; [|congruence].
    intros _. split; [reflexivity|]. now apply isNightlyBuild_iff.
  - destruct (Platform.isNightlyBuild version) eqn:E; [reflexivity|]. now rewrite E.
Qed.

(** X21.  The archive kind goes by the platform alone: the download URL
    ends in [.zip] exactly on [win32], whatever the version and the
    architecture are (a version that itself ends in [.zip] changes
    nothing), so [downloadFoundry] unpacks with [extractZip] on [win32]
    and with [extractTar] everywhere else, and its result is the
    extracted path joined with [.].  It rejects exactly when the
    download or the extraction rejects. *)
Theorem archive_kind_by_platform os_platform os_arch memberToString version toolCache path_join :
  let download := Platform.getDownloadObject os_platform os_arch memberToString version in
  let extract :=
    if String.eqb os_platform "win32"
    then Download.extractZip toolCache else Download.extractTar toolCache in
  JS.endsWith (Platform.url download) ".zip" = String.eqb os_platform "win32"
  /\ Download.downloadFoundry os_platform os_arch memberToString toolCache path_join version
     = match Download.downloadTool toolCache (Platform.url download) with
       | Resolved pathToArchive =>
           match extract pathToArchive with
           | Resolved pathToCLI =>
               Resolved {| Download.binPath := path_join pathToCLI "." |}
           | Rejected => Rejected
           end
       | Rejected => Rejected
       end.
Proof.
  cbv zeta.
  assert (Hzip : JS.endsWith
                   (Platform.url
                      (Platform.getDownloadObject os_platform os_arch memberToString version))
                   ".zip" = String.eqb os_platform "win32").
  { unfold Platform.getDownloadObject. cbv zeta. cbn [Platform.url].
    destruct (String.eqb os_platform "win32");
      repeat (rewrite endsWith_append;
              [|rewrite ?StringFacts.length_append; cbn [String.length]; lia]);
      reflexivity. }
  split; [exact Hzip|].
  unfold Download.downloadFoundry. cbv zeta. rewrite Hzip.
  reflexivity.
Qed.

End PlatformFacts.

(** ** Directories: what a restore prepares for the save *)

Module Directories.

Section WithEnvironment.

Variable PLATFORM : string.
Variable HOME : string.
Variable sha : string.
Variable env : Collaborators.

Local Abbreviation getPrimaryKey := (Cache.getPrimaryKey PLATFORM sha).
Local Abbreviation resolvePaths := (Cache.resolvePaths HOME).
Local Abbreviation restoreCache := (Cache.restoreCache PLATFORM HOME sha env).
Local Abbreviation saveCache := (Cache.saveCache PLATFORM HOME sha env).

(** A file system in which a directory can always be created, and a
    store whose restore removes nothing. *)
Hypothesis mkdir_creates : forall fs dirPath,
  exists fs', fs_mkdirSync env fs dirPath = Some fs' /\ dirPath ∈ fs' /\ fs ⊆ fs'.
Hypothesis restore_keeps : forall w cachePaths key keys,
  existing w ⊆ snd (cache_restoreCache env w cachePaths key keys).

Lemma ensureDirectoryExists_creates dirPath w :
  let w' := snd (Cache.ensureDirectoryExists env dirPath w) in
  dirPath ∈ existing w' /\ existing w ⊆ existing w'.
Proof.
  cbv zeta. unfold Cache.ensureDirectoryExists, Cache.fileExists.
  destruct (bool_decide (dirPath ∈ existing w)) eqn:E.
  - apply bool_decide_eq_true in E. now split.
  - destruct (mkdir_creates (existing w) dirPath) as (fs' & -> & Hin & Hsub). now split.
Qed.

Lemma ensureDirectories_create dirs w :
  let w' := fold_left (fun w cachePath => snd (Cache.ensureDirectoryExists env cachePath w))
              dirs w in
  (forall p, In p dirs -> p ∈ existing w') /\ existing w ⊆ existing w'.
Proof.
  cbv zeta. revert w. induction dirs as [|dir dirs IHdirs]; intros w; cbn [fold_left].
  - split; [intros p []|reflexivity].
  - destruct (ensureDirectoryExists_creates dir w) as [Hin Hsub].
    destruct (IHdirs (snd (Cache.ensureDirectoryExists env dir w))) as [Hall Hsub'].
    split; [|now transitivity (existing (snd (Cache.ensureDirectoryExists env dir w)))].
    intros p [<-|Hp]; [exact (Hsub' _ Hin)|now apply Hall].
Qed.

(** X22.  When directories can be created and the store's restore
    removes nothing, an enabled restore leaves every cache path in
    place, so the save that follows it is never skipped for a missing
    path: unless the restore matched the primary key itself, that save
    calls the store with the same paths and the same key. *)
Theorem restore_prepares_save options type w :
  enabled options = true ->
  let w' := snd (restoreCache options type w) in
  let key := getPrimaryKey (primaryKey options) type in
  (forall p, In p (resolvePaths options type) -> p ∈ existing w')
  /\ (Cache.getState State.CacheMatchedKey w' <> key ->
      saveCalls (snd (saveCache options type w'))
      = (resolvePaths options type, key) :: saveCalls w').
Proof.
  intros Hen. cbv zeta.
  destruct (LifecycleFrames.restoreCache_world PLATFORM HOME sha env options type w Hen)
    as (_ & Hfs & _).
  assert (Hpaths : forall p, In p (resolvePaths options type) ->
                             p ∈ existing (snd (restoreCache options type w))).
  { intros p Hp. rewrite Hfs. apply restore_keeps.
    exact (proj1 (ensureDirectories_create (resolvePaths options type)
                    (Cache.saveState State.CachePrimaryKey
                       (getPrimaryKey (primaryKey options) type) w)) p Hp). }
  split; [exact Hpaths|]. intros Hmiss.
  pose proof (LifecycleFrames.restoreCache_persists_primaryKey
                PLATFORM HOME sha env options type w Hen) as Hkey.
  pose proof (KeyDeriver.getPrimaryKey_nonempty PLATFORM sha (primaryKey options) type)
    as Hne.
  set (w' := snd (restoreCache options type w)) in *.
  unfold Cache.saveCache. rewrite Hen. cbn [negb].
  rewrite (proj2 (CacheLifecycle.forallb_fileExists (resolvePaths options type) w') Hpaths).
  cbn [negb].
  rewrite (ActionSteps.savedPrimaryKey_of_state PLATFORM sha options type w' _ Hkey Hne).
  destruct (JS.isEmpty _) eqn:E; [now apply JSFacts.isEmpty_true in E|].
  destruct (String.eqb_spec (getPrimaryKey (primaryKey options) type)
              (Cache.getState State.CacheMatchedKey w')) as [Heq|_]; [congruence|].
  unfold Cache.callSave.
  now destruct (cache_saveCache env w' _ _) as [cacheId|]; [destruct (_ =? _)%Z|].
Qed.

End WithEnvironment.

Lemma restore_prepares_save_witness :
  "/cache/rpc"
  ∈ existing (snd (Cache.restoreCache "linux" "/home" "abc123" Examples.prefixStore
                     Examples.someOptions RPC Examples.emptyWorld)).
Proof.
  refine (proj1 (restore_prepares_save "linux" "/home" "abc123" Examples.prefixStore
                   _ _ Examples.someOptions RPC Examples.emptyWorld eq_refl)
            "/cache/rpc" _).
  - intros fs dirPath. exists ({[dirPath]} ∪ fs). split_and!; [reflexivity|set_solver..].
  - intros w cachePaths key keys. reflexivity.
  - now left.
Defined.

End Directories.
